(** * ltntstools: the IAT histogram and the discovered-flow registry

    A shallow embedding of [src/histogram.h] and [src/nic_monitor_di.c].

    Conventions.
    - C integers are values of [Z]; every conversion to a fixed-width type is
      written out ([to_uint32], [to_uint64], [to_int32]).
    - [struct timeval] fields are 64-bit [long]s holding wall-clock values; they
      stay far away from the 64-bit limits, so arithmetic on them is plain [Z].
    - [gettimeofday] is modelled by passing the value it stores ([now]) as an
      argument.
    - A memory access outside the allocated object is undefined behaviour in C;
      the operations return [None] there. *)

From Stdlib Require Import ZArith Lia Bool.
From stdpp Require Import base option list sorting gmap.

Open Scope Z_scope.

(* ===================================================================== *)
(** ** Fixed-width integers *)
(* ===================================================================== *)

Definition to_uint16 (z : Z) : Z := z mod 2 ^ 16.
Definition to_uint32 (z : Z) : Z := z mod 2 ^ 32.
Definition to_uint64 (z : Z) : Z := z mod 2 ^ 64.

(** Conversion to a 32-bit [int] (two's complement wrap-around, as gcc and
    clang implement it). *)
Definition to_int32 (z : Z) : Z := (z + 2 ^ 31) mod 2 ^ 32 - 2 ^ 31.

(* ===================================================================== *)
(** ** histogram.h *)
(* ===================================================================== *)

Record timeval := mk_timeval { tv_sec : Z; tv_usec : Z }.

Record ltn_histogram_bucket_s := mk_bucket {
  count : Z;              (* uint64_t *)
  lastUpdate : timeval
}.

Record ltn_histogram_s := mk_histogram {
  name : list Z;          (* char name[128], the bytes before the first NUL *)
  minValMs : Z;           (* uint64_t *)
  maxValMs : Z;           (* uint64_t *)
  bucketMissCount : Z;    (* uint64_t *)
  bucketCount : Z;        (* uint32_t *)
  buckets : list ltn_histogram_bucket_s;  (* the calloc'ed block, in bucket-sized slots *)
  intervalLast : timeval;
  cumulativeMs : Z;       (* uint64_t *)
  cumulativeLast : timeval
}.

Definition zero_timeval : timeval := mk_timeval 0 0.
Definition zero_bucket : ltn_histogram_bucket_s := mk_bucket 0 zero_timeval.

(** [sizeof] of the two structs on an LP64 target (128 + 3*8 + 4 (+4 padding)
    + 8 + 16 + 8 + 16, and 8 + 16). *)
Definition sizeof_ltn_histogram_s : Z := 208.
Definition sizeof_ltn_histogram_bucket_s : Z := 24.

Definition set_buckets (ctx : ltn_histogram_s) (bs : list ltn_histogram_bucket_s) : ltn_histogram_s :=
  mk_histogram (name ctx) (minValMs ctx) (maxValMs ctx) (bucketMissCount ctx)
    (bucketCount ctx) bs (intervalLast ctx) (cumulativeMs ctx) (cumulativeLast ctx).

Definition set_bucketMissCount (ctx : ltn_histogram_s) (n : Z) : ltn_histogram_s :=
  mk_histogram (name ctx) (minValMs ctx) (maxValMs ctx) n
    (bucketCount ctx) (buckets ctx) (intervalLast ctx) (cumulativeMs ctx) (cumulativeLast ctx).

Definition set_intervalLast (ctx : ltn_histogram_s) (t : timeval) : ltn_histogram_s :=
  mk_histogram (name ctx) (minValMs ctx) (maxValMs ctx) (bucketMissCount ctx)
    (bucketCount ctx) (buckets ctx) t (cumulativeMs ctx) (cumulativeLast ctx).

Definition set_cumulativeMs (ctx : ltn_histogram_s) (n : Z) : ltn_histogram_s :=
  mk_histogram (name ctx) (minValMs ctx) (maxValMs ctx) (bucketMissCount ctx)
    (bucketCount ctx) (buckets ctx) (intervalLast ctx) n (cumulativeLast ctx).

Definition set_cumulativeLast (ctx : ltn_histogram_s) (t : timeval) : ltn_histogram_s :=
  mk_histogram (name ctx) (minValMs ctx) (maxValMs ctx) (bucketMissCount ctx)
    (bucketCount ctx) (buckets ctx) (intervalLast ctx) (cumulativeMs ctx) t.

(** [ltn_histogram_bucket]: the slot index [ms - ctx->minValMs], computed in
    [uint64_t] after [ms] was passed as a [uint32_t]. *)
Definition ltn_histogram_bucket (ctx : ltn_histogram_s) (ms : Z) : Z :=
  to_uint64 (to_uint32 ms - minValMs ctx).

(** [ltn_histogram_timeval_to_ms], returning [int]. *)
Definition ltn_histogram_timeval_to_ms (tv : timeval) : Z :=
  to_int32 (tv_sec tv * 1000 + Z.quot (tv_usec tv) 1000).

(** [ltn_histogram_timeval_subtract (result, x, y)]: yields [result], the
    updated [*y] (the carry is performed on [y] in place) and the returned
    flag. *)
Definition ltn_histogram_timeval_subtract (x y : timeval) : timeval * timeval * Z :=
  let y1 :=
    if tv_usec x <? tv_usec y then
      let nsec := to_int32 (Z.quot (tv_usec y - tv_usec x) 1000000 + 1) in
      mk_timeval (tv_sec y + nsec) (tv_usec y - 1000000 * nsec)
    else y in
  let y2 :=
    if tv_usec x - tv_usec y1 >? 1000000 then
      let nsec := to_int32 (Z.quot (tv_usec x - tv_usec y1) 1000000) in
      mk_timeval (tv_sec y1 - nsec) (tv_usec y1 + 1000000 * nsec)
    else y1 in
  (mk_timeval (tv_sec x - tv_sec y2) (tv_usec x - tv_usec y2),
   y2,
   if tv_sec x <? tv_sec y2 then 1 else 0).

(** [memset(ctx->buckets, 0, sizeof(bucket) * bucketCount)] and the three
    assignments of [ltn_histogram_reset]. *)
Definition ltn_histogram_reset (now : timeval) (ctx : ltn_histogram_s) : option ltn_histogram_s :=
  let n := Z.to_nat (bucketCount ctx) in
  if decide (n ≤ length (buckets ctx))%nat then
    let ctx1 := set_buckets ctx (replicate n zero_bucket ++ drop n (buckets ctx)) in
    let ctx2 := set_intervalLast ctx1 now in
    let ctx3 := set_bucketMissCount ctx2 0 in
    Some (set_cumulativeMs ctx3 0)
  else None.

(** [ltn_histogram_alloc]; [nm] is [None] for a NULL name.  Both [calloc]
    calls are taken to succeed.  The bucket block is [calloc (bucketCount,
    sizeof (struct ltn_histogram_s))] bytes, seen as slots of one bucket each. *)
Definition ltn_histogram_alloc (now : timeval) (nm : option (list Z)) (minVal maxVal : Z)
  : option ltn_histogram_s :=
  if minVal =? maxVal then None
  else if maxVal <? minVal then None
  else if maxVal =? 0 then None
  else match nm with
       | None => None
       | Some s =>
           let bc := to_uint32 (maxVal - minVal) in
           let slots := Z.to_nat (Z.quot (bc * sizeof_ltn_histogram_s) sizeof_ltn_histogram_bucket_s) in
           Some (mk_histogram (take 128 s) minVal maxVal 0 bc
                   (replicate slots zero_bucket) now 0 zero_timeval)
       end.

Definition ltn_histogram_alloc_video_defaults (now : timeval) (nm : option (list Z))
  : option ltn_histogram_s :=
  ltn_histogram_alloc now nm 0 (16 * 1000).

(** The two statements [bucket->lastUpdate = now; bucket->count++] on the slot
    [ltn_histogram_bucket (ctx, ms)] points to. *)
Definition bucket_hit (ctx : ltn_histogram_s) (ms : Z) (now : timeval) : option ltn_histogram_s :=
  let i := Z.to_nat (ltn_histogram_bucket ctx ms) in
  match buckets ctx !! i with
  | Some b => Some (set_buckets ctx (<[i := mk_bucket (to_uint64 (count b + 1)) now]> (buckets ctx)))
  | None => None
  end.

(** [ltn_histogram_interval_update]: the new state and the returned [int]. *)
Definition ltn_histogram_interval_update (now : timeval) (ctx : ltn_histogram_s)
  : option (ltn_histogram_s * Z) :=
  let '(r, _, _) := ltn_histogram_timeval_subtract now (intervalLast ctx) in
  let diffMs := to_uint32 (ltn_histogram_timeval_to_ms r) in
  let ctx1 := set_intervalLast ctx now in
  if (diffMs <? minValMs ctx1) || (diffMs >? maxValMs ctx1) then
    Some (set_bucketMissCount ctx1 (to_uint64 (bucketMissCount ctx1 + 1)), -1)
  else
    match bucket_hit ctx1 diffMs now with
    | Some ctx2 => Some (ctx2, to_int32 diffMs)
    | None => None
    end.

Definition ltn_histogram_cumulative_initialize (ctx : ltn_histogram_s) : ltn_histogram_s :=
  set_cumulativeMs ctx 0.

Definition ltn_histogram_cumulative_begin (now : timeval) (ctx : ltn_histogram_s) : ltn_histogram_s :=
  set_cumulativeLast ctx now.

(** [ltn_histogram_cumulative_end]: [val] is the [int] result of
    [timeval_to_ms] converted to [uint64_t]; the subtraction normalises
    [ctx->cumulativeLast] in place. *)
Definition ltn_histogram_cumulative_end (now : timeval) (ctx : ltn_histogram_s)
  : ltn_histogram_s * Z :=
  let '(r, y', _) := ltn_histogram_timeval_subtract now (cumulativeLast ctx) in
  let ctx1 := set_cumulativeLast ctx y' in
  let val := to_uint64 (ltn_histogram_timeval_to_ms r) in
  (set_cumulativeMs ctx1 (to_uint64 (cumulativeMs ctx1 + val)), val).

(** [ltn_histogram_cumulative_finalize]: the new state and the returned value. *)
Definition ltn_histogram_cumulative_finalize (now : timeval) (ctx : ltn_histogram_s)
  : option (ltn_histogram_s * Z) :=
  if (cumulativeMs ctx <? minValMs ctx) || (cumulativeMs ctx >? maxValMs ctx) then
    Some (set_bucketMissCount ctx (to_uint64 (bucketMissCount ctx + 1)), cumulativeMs ctx)
  else
    match bucket_hit ctx (cumulativeMs ctx) now with
    | Some ctx1 => Some (ctx1, cumulativeMs ctx)
    | None => None
    end.

(** The millisecond difference [ltn_histogram_interval_update] computes for
    a call at [now]. *)
Definition interval_delta (now : timeval) (h : ltn_histogram_s) : Z :=
  to_uint32 (ltn_histogram_timeval_to_ms (fst (fst (ltn_histogram_timeval_subtract now (intervalLast h))))).

(** The count stored in slot [i] of the bucket block (0 outside of it). *)
Definition bucket_count_at (ctx : ltn_histogram_s) (i : nat) : Z :=
  match buckets ctx !! i with Some b => count b | None => 0 end.

(** A histogram as [ltn_histogram_alloc] builds it and the operations keep
    it, with bounds that fit the [uint32_t] the code squeezes them through. *)
Record hist_wf (ctx : ltn_histogram_s) : Prop := mk_hist_wf {
  wf_min : 0 ≤ minValMs ctx;
  wf_lt : minValMs ctx < maxValMs ctx;
  wf_max : maxValMs ctx < 2 ^ 32;
  wf_count : bucketCount ctx = maxValMs ctx - minValMs ctx;
  wf_slots : length (buckets ctx) =
             Z.to_nat (Z.quot (bucketCount ctx * sizeof_ltn_histogram_s) sizeof_ltn_histogram_bucket_s)
}.

(* ===================================================================== *)
(** ** nic_monitor_di.c: byte order, headers and the hash *)
(* ===================================================================== *)

(** [ntohl] and [ntohs] come from the C library and depend on the byte order
    of the host: they swap the bytes on a little-endian host (x86-64, arm64)
    and only convert the type on a big-endian one. *)
Inductive byte_order := LittleEndian | BigEndian.

Definition bswap16 (x : Z) : Z := (x mod 256) * 256 + (x / 256) mod 256.

Definition bswap32 (x : Z) : Z :=
  (x mod 256) * 2 ^ 24 + ((x / 2 ^ 8) mod 256) * 2 ^ 16
  + ((x / 2 ^ 16) mod 256) * 2 ^ 8 + (x / 2 ^ 24) mod 256.

Definition ntohs (host : byte_order) (x : Z) : Z :=
  match host with LittleEndian => bswap16 x | BigEndian => to_uint16 x end.

Definition ntohl (host : byte_order) (x : Z) : Z :=
  match host with LittleEndian => bswap32 x | BigEndian => to_uint32 x end.

Definition htons : byte_order → Z → Z := ntohs.
Definition htonl : byte_order → Z → Z := ntohl.

(** The header fields the registry reads; addresses and ports are kept as
    the host loads them from the packet, that is in network byte order. *)
Record ether_header := mk_ether_header { ether_dhost : Z; ether_shost : Z; ether_type : Z }.
Record iphdr := mk_iphdr { saddr : Z; daddr : Z }.            (* uint32_t each *)
Record udphdr := mk_udphdr { uh_sport : Z; uh_dport : Z }.    (* uint16_t each *)

Definition hash_index_cal_hash (addr port : Z) : Z :=
  to_uint16 (Z.lor (Z.land (to_uint32 (Z.shiftl addr 4)) 0xfff0) (Z.land port 0x000f)).

Definition _compute_stream_hash (host : byte_order) (ip : iphdr) (udp : udphdr) : Z :=
  let dstaddr := ntohl host (daddr ip) in
  let dstport := ntohs host (uh_dport udp) in
  hash_index_cal_hash dstaddr dstport.

(* ===================================================================== *)
(** ** nic_monitor_di.c: flow records and their state flags *)
(* ===================================================================== *)

(** Modelled from the spec: the [DI_STATE_*] masks are defined in
    [nic_monitor.h], which is not part of the sources at hand.  The spec
    describes them as the flags of a bitfield; they are taken as distinct
    single bits, numbered in the order the spec lists them. *)
Definition DI_STATE_DST_DUPLICATE : Z := Z.shiftl 1 0.
Definition DI_STATE_PCAP_RECORDING : Z := Z.shiftl 1 1.
Definition DI_STATE_PCAP_RECORD_START : Z := Z.shiftl 1 2.
Definition DI_STATE_PCAP_RECORD_STOP : Z := Z.shiftl 1 3.
Definition DI_STATE_SELECTED : Z := Z.shiftl 1 4.
Definition DI_STATE_HIDDEN : Z := Z.shiftl 1 5.
Definition DI_STATE_SHOW_PIDS : Z := Z.shiftl 1 6.
Definition DI_STATE_SHOW_TR101290 : Z := Z.shiftl 1 7.
Definition DI_STATE_SHOW_IAT_HISTOGRAM : Z := Z.shiftl 1 8.
Definition DI_STATE_SHOW_STREAMMODEL : Z := Z.shiftl 1 9.

(** [struct discovered_item_s], restricted to the fields the functions below
    read or write.  The ASCII addresses, the analyzer handles, the statistics
    and the per-flow histogram are written once by [discovered_item_alloc] and
    never consulted by the registry operations. *)
Record discovered_item_s := mk_discovered_item {
  di_ethhdr : ether_header;
  di_iphdr : iphdr;
  di_udphdr : udphdr;
  iat_lwm_us : Z;
  iat_hwm_us : Z;
  iat_cur_us : Z;
  state : Z                (* unsigned int *)
}.

Definition set_state (di : discovered_item_s) (s : Z) : discovered_item_s :=
  mk_discovered_item (di_ethhdr di) (di_iphdr di) (di_udphdr di)
    (iat_lwm_us di) (iat_hwm_us di) (iat_cur_us di) s.

Definition discovered_item_state_set (mask : Z) (di : discovered_item_s) : discovered_item_s :=
  set_state di (Z.lor (state di) mask).

Definition discovered_item_state_clr (mask : Z) (di : discovered_item_s) : discovered_item_s :=
  set_state di (Z.land (state di) (to_uint32 (Z.lnot mask))).

Definition discovered_item_state_get (di : discovered_item_s) (mask : Z) : Z :=
  Z.land (state di) mask.

(** A C condition [if (discovered_item_state_get (e, mask))]. *)
Definition state_test (di : discovered_item_s) (mask : Z) : bool :=
  negb (discovered_item_state_get di mask =? 0).

(** [discovered_item_alloc]; [mem] tells whether [calloc] returns memory.
    The failures of the analyzer allocations are tolerated by the code and
    leave no trace in the modelled fields. *)
Definition discovered_item_alloc (mem : bool) (eth : ether_header) (ip : iphdr) (udp : udphdr)
  : option discovered_item_s :=
  if mem then Some (mk_discovered_item eth ip udp 50000000 (-1) 0 0) else None.

#[global] Instance iphdr_eq_dec : EqDecision iphdr.
Proof. solve_decision. Defined.
#[global] Instance udphdr_eq_dec : EqDecision udphdr.
Proof. solve_decision. Defined.

#[global] Instance iphdr_inhabited : Inhabited iphdr := populate (mk_iphdr 0 0).
#[global] Instance udphdr_inhabited : Inhabited udphdr := populate (mk_udphdr 0 0).

#[global] Instance discovered_item_inhabited : Inhabited discovered_item_s :=
  populate (mk_discovered_item (mk_ether_header 0 0 0) (mk_iphdr 0 0) (mk_udphdr 0 0) 0 0 0 0).

(* ===================================================================== *)
(** ** The hash index and the address comparison *)
(* ===================================================================== *)

(** A pointer to a flow record is its position in the registry's store of
    allocated records. *)
Abbreviation ptr := nat (only parsing).

(** Modelled from the spec: [hash_index_get_count], [hash_index_get_enum] and
    [hash_index_set] are declared in a header and implemented in a file that
    are not part of the sources at hand.  Following the spec, the index is an
    array of 65,536 slots, each an ordered collection of pointers; [set]
    appends to the slot and does not insert a value twice, [get_count] is the
    length of the chain, and [get_enum] yields the entry under the cursor and
    advances it, or reports the end. *)
Definition slot (idx : gmap Z (list ptr)) (hash : Z) : list ptr :=
  default [] (idx !! hash).

Definition hash_index_get_count (idx : gmap Z (list ptr)) (hash : Z) : Z :=
  Z.of_nat (length (slot idx hash)).

Definition hash_index_get_enum (idx : gmap Z (list ptr)) (hash : Z) (enumerator : nat)
  : option (nat * ptr) :=
  match slot idx hash !! enumerator with
  | Some item => Some (S enumerator, item)
  | None => None
  end.

Definition hash_index_set (idx : gmap Z (list ptr)) (hash : Z) (value : ptr)
  : gmap Z (list ptr) :=
  if bool_decide (value ∈ slot idx hash) then idx
  else <[hash := slot idx hash ++ [value]]> idx.

(** Modelled from the spec: [network_addr_compare] lives in a file that is
    not part of the sources at hand; the spec describes it as the exact
    comparison of the 4-tuple (srcIP, srcPort, dstIP, dstPort), and the
    caller tests its result against 1. *)
Definition network_addr_compare (ip1 : iphdr) (udp1 : udphdr) (ip2 : iphdr) (udp2 : udphdr) : Z :=
  if (saddr ip1 =? saddr ip2) && (daddr ip1 =? daddr ip2)
     && (uh_sport udp1 =? uh_sport udp2) && (uh_dport udp1 =? uh_dport udp2)
  then 1 else 0.

(* ===================================================================== *)
(** ** nic_monitor_di.c: the registry *)
(* ===================================================================== *)

(** [struct tool_context_s], restricted to what the registry functions use.
    The records live in [store]; the intrusive list [ctx->list] and the hash
    index both hold pointers into it, so a flag set through the list is seen
    through the index as well.  [cacheHitRatio] is a [double] recomputed from
    the two counters and is left out, as are the mutex and the verbosity,
    which only guards diagnostic output. *)
Record tool_context_s := mk_tool_context {
  store : list discovered_item_s;
  ctx_list : list ptr;                    (* ctx->list, head first *)
  hashIndex : gmap Z (list ptr);
  cacheHit : Z;                           (* uint64_t *)
  cacheMiss : Z;                          (* uint64_t *)
  automaticallyRecordStreams : bool
}.

Definition set_store (ctx : tool_context_s) (st : list discovered_item_s) : tool_context_s :=
  mk_tool_context st (ctx_list ctx) (hashIndex ctx) (cacheHit ctx) (cacheMiss ctx)
    (automaticallyRecordStreams ctx).

(** The key the ordered insertion compares: the destination address through
    [ntohl], shifted, or-ed with the [uh_dport] field as it is stored. *)
Definition sort_key (host : byte_order) (di : discovered_item_s) : Z :=
  Z.lor (to_uint64 (Z.shiftl (ntohl host (daddr (di_iphdr di))) 16)) (uh_dport (di_udphdr di)).

(** The loop of [discovered_item_insert] over the entries [l] of the list that
    are still ahead; [di] is already in the store.  The result is the store
    (two records get a flag when the keys are equal) and the list from this
    point on. *)
Fixpoint discovered_item_insert_walk (host : byte_order) (st : list discovered_item_s)
    (di : ptr) (l : list ptr) : list discovered_item_s * list ptr :=
  match l with
  | [] => (st, [di])                                          (* xorg_list_append *)
  | e :: rest =>
      let a := sort_key host (st !!! e) in
      let b := sort_key host (st !!! di) in
      if a <? b then
        let '(st', rest') := discovered_item_insert_walk host st di rest in
        (st', e :: rest')
      else
        let st1 :=
          if a =? b then
            alter (discovered_item_state_set DI_STATE_DST_DUPLICATE) e
              (alter (discovered_item_state_set DI_STATE_DST_DUPLICATE) di st)
          else st in
        (st1, di :: e :: rest)                                (* xorg_list_add (di, e->prev) *)
  end.

Definition discovered_item_insert (host : byte_order) (st : list discovered_item_s)
    (l : list ptr) (di : ptr) : list discovered_item_s * list ptr :=
  discovered_item_insert_walk host st di l.

(** The [while (ret == 0)] loop of [discovered_item_findcreate]: one call of
    [hash_index_get_enum] per round. *)
Fixpoint findcreate_enum (fuel : nat) (st : list discovered_item_s) (idx : gmap Z (list ptr))
    (hash : Z) (ip : iphdr) (udp : udphdr) (enumerator : nat) : option ptr :=
  match fuel with
  | O => None
  | S fuel' =>
      match hash_index_get_enum idx hash enumerator with
      | None => None                                          (* ret != 0 *)
      | Some (enumerator', item) =>
          match st !! item with
          | Some r =>
              if network_addr_compare ip udp (di_iphdr r) (di_udphdr r) =? 1
              then Some item                                  (* found = item; break *)
              else findcreate_enum fuel' st idx hash ip udp enumerator'
          | None => findcreate_enum fuel' st idx hash ip udp enumerator'
          end
      end
  end.

(** The search part of [discovered_item_findcreate]. *)
Definition findcreate_lookup (host : byte_order) (ctx : tool_context_s) (ip : iphdr) (udp : udphdr)
  : option ptr :=
  let hash := _compute_stream_hash host ip udp in
  if 1 <=? hash_index_get_count (hashIndex ctx) hash then
    findcreate_enum (S (length (slot (hashIndex ctx) hash))) (store ctx) (hashIndex ctx)
      hash ip udp 0
  else None.

(** [discovered_item_findcreate]; [mem] tells whether the allocation of a new
    record can succeed.  The result is the new registry and the returned
    pointer ([None] for NULL). *)
Definition discovered_item_findcreate (host : byte_order) (mem : bool) (ctx : tool_context_s)
    (eth : ether_header) (ip : iphdr) (udp : udphdr) : tool_context_s * option ptr :=
  let hash := _compute_stream_hash host ip udp in
  match findcreate_lookup host ctx ip udp with
  | Some found =>
      (mk_tool_context (store ctx) (ctx_list ctx) (hashIndex ctx)
         (to_uint64 (cacheHit ctx + 1)) (cacheMiss ctx) (automaticallyRecordStreams ctx),
       Some found)
  | None =>
      let miss := to_uint64 (cacheMiss ctx + 1) in
      match discovered_item_alloc mem eth ip udp with
      | Some r =>
          let found := length (store ctx) in
          let '(st1, l1) := discovered_item_insert host (store ctx ++ [r]) (ctx_list ctx) found in
          let idx1 := hash_index_set (hashIndex ctx) hash found in
          let st2 :=
            if automaticallyRecordStreams ctx
            then alter (discovered_item_state_set DI_STATE_PCAP_RECORD_START) found st1
            else st1 in
          (mk_tool_context st2 l1 idx1 (cacheHit ctx) miss (automaticallyRecordStreams ctx),
           Some found)
      | None =>
          (mk_tool_context (store ctx) (ctx_list ctx) (hashIndex ctx)
             (cacheHit ctx) miss (automaticallyRecordStreams ctx),
           None)
      end
  end.

(** An empty registry. *)
Definition empty_context (auto : bool) : tool_context_s :=
  mk_tool_context [] [] ∅ 0 0 auto.

(** A packet as the capture thread hands it over. *)
Definition packet : Type := ether_header * iphdr * udphdr.

(** The identity of a flow: (srcIP, srcPort, dstIP, dstPort). *)
Definition four_tuple (ip : iphdr) (udp : udphdr) : Z * Z * Z * Z :=
  (saddr ip, uh_sport udp, daddr ip, uh_dport udp).

Definition packet_tuple (p : packet) : Z * Z * Z * Z :=
  four_tuple (snd (fst p)) (snd p).

(** A run of [discovered_item_findcreate] over a sequence of packets, every
    allocation succeeding: the final registry and the returned pointers. *)
Fixpoint findcreate_all (host : byte_order) (ctx : tool_context_s) (ps : list packet)
  : tool_context_s * list (option ptr) :=
  match ps with
  | [] => (ctx, [])
  | p :: ps' =>
      let '(ctx1, r) := discovered_item_findcreate host true ctx (fst (fst p)) (snd (fst p)) (snd p) in
      let '(ctx2, rs) := findcreate_all host ctx1 ps' in
      (ctx2, r :: rs)
  end.

(* ===================================================================== *)
(** ** nic_monitor_di.c: selection *)
(* ===================================================================== *)

Definition discovered_items_select_first (ctx : tool_context_s) : tool_context_s :=
  match ctx_list ctx with
  | e :: _ => set_store ctx (alter (discovered_item_state_set DI_STATE_SELECTED) e (store ctx))
  | [] => ctx
  end.

(** The loop of [discovered_items_select_next] over the entries still ahead;
    [e->list.next != &ctx->list] holds when an entry follows [e]. *)
Fixpoint select_next_loop (st : list discovered_item_s) (doSelect : bool) (l : list ptr)
  : list discovered_item_s :=
  match l with
  | [] => st
  | e :: rest =>
      if state_test (st !!! e) DI_STATE_HIDDEN then select_next_loop st doSelect rest
      else if state_test (st !!! e) DI_STATE_SELECTED then
        let st1 :=
          match rest with
          | _ :: _ => alter (discovered_item_state_clr DI_STATE_SELECTED) e st
          | [] => st
          end in
        select_next_loop st1 true rest
      else if doSelect then
        alter (discovered_item_state_set DI_STATE_SELECTED) e st          (* break *)
      else select_next_loop st doSelect rest
  end.

Definition discovered_items_select_next (ctx : tool_context_s) : tool_context_s :=
  set_store ctx (select_next_loop (store ctx) false (ctx_list ctx)).

(** The loop of [discovered_items_select_prev]; [p] is the last entry seen
    that is not hidden. *)
Fixpoint select_prev_loop (st : list discovered_item_s) (p : option ptr) (l : list ptr)
  : list discovered_item_s :=
  match l with
  | [] => st
  | e :: rest =>
      if state_test (st !!! e) DI_STATE_HIDDEN then select_prev_loop st p rest
      else
        match p with
        | Some q =>
            if state_test (st !!! e) DI_STATE_SELECTED then
              alter (discovered_item_state_set DI_STATE_SELECTED) q
                (alter (discovered_item_state_clr DI_STATE_SELECTED) e st)  (* break *)
            else select_prev_loop st (Some e) rest
        | None => select_prev_loop st (Some e) rest
        end
  end.

Definition discovered_items_select_prev (ctx : tool_context_s) : tool_context_s :=
  set_store ctx (select_prev_loop (store ctx) None (ctx_list ctx)).

(** A loop that applies [body] to every entry of the list in turn. *)
Definition for_each_entry (body : discovered_item_s → discovered_item_s)
    (st : list discovered_item_s) (l : list ptr) : list discovered_item_s :=
  foldl (λ s e, alter body e s) st l.

Definition discovered_items_select_all (ctx : tool_context_s) : tool_context_s :=
  set_store ctx (for_each_entry (discovered_item_state_set DI_STATE_SELECTED) (store ctx) (ctx_list ctx)).

Definition discovered_items_select_none (ctx : tool_context_s) : tool_context_s :=
  set_store ctx (for_each_entry (discovered_item_state_clr DI_STATE_SELECTED) (store ctx) (ctx_list ctx)).

Definition discovered_items_select_hide (ctx : tool_context_s) : tool_context_s :=
  set_store ctx
    (for_each_entry
       (λ e, if negb (state_test e DI_STATE_SELECTED) then e
             else if state_test e DI_STATE_PCAP_RECORDING then e
             else discovered_item_state_set DI_STATE_HIDDEN e)
       (store ctx) (ctx_list ctx)).

Definition discovered_items_unhide_all (ctx : tool_context_s) : tool_context_s :=
  set_store ctx (for_each_entry (discovered_item_state_clr DI_STATE_HIDDEN) (store ctx) (ctx_list ctx)).

(* ===================================================================== *)
(** ** Vocabulary of the statements *)
(* ===================================================================== *)

(** A [timeval] as [gettimeofday] delivers it. *)
Definition timeval_normal (t : timeval) : Prop := 0 ≤ tv_usec t < 1000000.

(** [x] is an earlier point in time than [y]. *)
Definition timeval_before (x y : timeval) : Prop :=
  tv_sec x < tv_sec y ∨ (tv_sec x = tv_sec y ∧ tv_usec x < tv_usec y).

(** The state of a histogram after one complete cumulative measurement that
    starts at [t0] and ends at [t1]. *)
Definition cumulative_window (t0 t1 : timeval) (h : ltn_histogram_s) : ltn_histogram_s :=
  fst (ltn_histogram_cumulative_end t1
         (ltn_histogram_cumulative_begin t0 (ltn_histogram_cumulative_initialize h))).

(** A run of interval updates at the given times; [None] as soon as one of
    them leaves the bucket block. *)
Fixpoint interval_updates (times : list timeval) (h : ltn_histogram_s) : option ltn_histogram_s :=
  match times with
  | [] => Some h
  | now :: rest =>
      match ltn_histogram_interval_update now h with
      | Some (h', _) => interval_updates rest h'
      | None => None
      end
  end.

(** The two headers that identify the flow of a record. *)
Definition headers (r : discovered_item_s) : iphdr * udphdr := (di_iphdr r, di_udphdr r).

Definition hash_of (host : byte_order) (x : iphdr * udphdr) : Z :=
  _compute_stream_hash host (fst x) (snd x).

(** The pointers, counted from [base], of the records of a store whose
    headers hash to [hash], in the order of their allocation. *)
Fixpoint chain_of (host : byte_order) (hash : Z) (hs : list (iphdr * udphdr)) (base : nat)
  : list ptr :=
  match hs with
  | [] => []
  | x :: rest =>
      if hash_of host x =? hash then base :: chain_of host hash rest (S base)
      else chain_of host hash rest (S base)
  end.

(** The first entry of a chain whose record matches the packet. *)
Fixpoint chain_find (st : list discovered_item_s) (ip : iphdr) (udp : udphdr) (l : list ptr)
  : option ptr :=
  match l with
  | [] => None
  | item :: rest =>
      match st !! item with
      | Some r =>
          if network_addr_compare ip udp (di_iphdr r) (di_udphdr r) =? 1 then Some item
          else chain_find st ip udp rest
      | None => chain_find st ip udp rest
      end
  end.

(** The index and the store agree: no two records have the same headers, and
    every slot holds exactly the records that hash to it. *)
Definition index_inv (host : byte_order) (ctx : tool_context_s) : Prop :=
  NoDup (headers <$> store ctx) ∧
  ∀ h, slot (hashIndex ctx) h = chain_of host h (headers <$> store ctx) 0.

Definition key_at (host : byte_order) (st : list discovered_item_s) (p : ptr) : Z :=
  sort_key host (st !!! p).

Definition flagged (st : list discovered_item_s) (p : ptr) (mask : Z) : Prop :=
  state_test (st !!! p) mask = true.

(** The list holds every record once, in ascending order of the key the code
    compares, and records with equal keys carry the duplicate flag. *)
Record list_inv (host : byte_order) (st : list discovered_item_s) (l : list ptr) : Prop :=
  mk_list_inv {
  li_nodup : NoDup l;
  li_range : ∀ p, p ∈ l ↔ (p < length st)%nat;
  li_sorted : StronglySorted (λ p q, key_at host st p ≤ key_at host st q) l;
  li_dup : ∀ p q, p ∈ l → q ∈ l → p ≠ q → key_at host st p = key_at host st q →
           flagged st p DI_STATE_DST_DUPLICATE ∧ flagged st q DI_STATE_DST_DUPLICATE
}.

(** The invariant of the registry. *)
Definition registry_inv (host : byte_order) (ctx : tool_context_s) : Prop :=
  index_inv host ctx ∧ list_inv host (store ctx) (ctx_list ctx).

(** The two headers of a packet. *)
Definition packet_headers (p : packet) : iphdr * udphdr := (snd (fst p), snd p).

(** From [st] to [st'] the records keep their headers and the flags they
    have; flags may have been added. *)
Definition flags_grow (st st' : list discovered_item_s) : Prop :=
  headers <$> st' = headers <$> st ∧
  ∀ p m, state_test (st !!! p) m = true → state_test (st' !!! p) m = true.

(** The key as the spec words it: address and port both in host order. *)
Definition spec_sort_key (host : byte_order) (di : discovered_item_s) : Z :=
  Z.lor (Z.shiftl (ntohl host (daddr (di_iphdr di))) 16) (ntohs host (uh_dport (di_udphdr di))).

(** A packet of the flow from [srcA:srcP] to [dstA:dstP], all four given in
    host order. *)
Definition flow_packet (host : byte_order) (srcA srcP dstA dstP : Z) : packet :=
  (mk_ether_header 0 0 0x0800,
   mk_iphdr (htonl host srcA) (htonl host dstA),
   mk_udphdr (htons host srcP) (htons host dstP)).

(** One packet for each of the 256 destination ports [P0 .. P0 + 255]. *)
Definition contiguous_flows (host : byte_order) (srcA srcP dstA P0 : Z) : list packet :=
  (λ i, flow_packet host srcA srcP dstA (P0 + Z.of_nat i)) <$> seq 0 256.

(** Three flows from different sources to 10.0.0.1:4000. *)
Definition three_flows_one_destination : list packet :=
  [flow_packet LittleEndian 0xC0A80001 5000 0x0A000001 4000;
   flow_packet LittleEndian 0xC0A80002 5000 0x0A000001 4000;
   flow_packet LittleEndian 0xC0A80003 5000 0x0A000001 4000].

(** How many of the 256 offsets give a port with the low nibble [k], for a
    first port with the low nibble [r]. *)
Definition nibble_count (r k : Z) : nat :=
  length (filter (λ i : nat, (r + Z.of_nat i) mod 16 = k) (seq 0 256)).

(** The keys of the records in the order of the list. *)
Definition list_keys (key : discovered_item_s → Z) (ctx : tool_context_s) : list Z :=
  (λ p, key (store ctx !!! p)) <$> ctx_list ctx.

(** The list of the registry, each record shown by its destination port in
    host order and its flags. *)
Definition list_view (host : byte_order) (ctx : tool_context_s) : list (Z * Z) :=
  (λ p, (ntohs host (uh_dport (di_udphdr (store ctx !!! p))), state (store ctx !!! p)))
    <$> ctx_list ctx.

(* ===================================================================== *)
(** ** histogram.h: the report *)
(* ===================================================================== *)




(** ** More vocabulary for the histogram *)

(** The point in time a [timeval] stands for, in microseconds. *)
Definition timeval_usecs (t : timeval) : Z := tv_sec t * 1000000 + tv_usec t.

(** The sum of the counts of a run of slots. *)
Definition sum_counts (bs : list ltn_histogram_bucket_s) : Z :=
  foldr (λ b acc, count b + acc) 0 bs.

(** Everything a histogram has counted: all slots of the block and the
    misses. *)
Definition hist_total (h : ltn_histogram_s) : Z :=
  sum_counts (buckets h) + bucketMissCount h.

(** A run of cumulative measurements, each from a begin at [fst w] to an end
    at [snd w]. *)
Fixpoint cumulative_windows (ws : list (timeval * timeval)) (h : ltn_histogram_s)
  : ltn_histogram_s :=
  match ws with
  | [] => h
  | w :: rest =>
      cumulative_windows rest
        (fst (ltn_histogram_cumulative_end (snd w) (ltn_histogram_cumulative_begin (fst w) h)))
  end.

(** The whole milliseconds from [t0] to [t1], negative when [t1] is the
    earlier one. *)
Definition elapsed_ms (t0 t1 : timeval) : Z :=
  (timeval_usecs t1 - timeval_usecs t0) / 1000.




(** The whole milliseconds of a run of cumulative measurements, each
    window truncated on its own. *)
Definition windows_ms (ws : list (timeval * timeval)) : Z :=
  foldr (λ w acc, elapsed_ms (fst w) (snd w) + acc) 0 ws.


(* ===================================================================== *)
(** ** nic_monitor_di.c: the remaining commands on the flags *)
(* ===================================================================== *)


Definition discovered_items_record_abort (ctx : tool_context_s) : tool_context_s :=
  set_store ctx
    (for_each_entry
       (λ e, if state_test e DI_STATE_PCAP_RECORDING || state_test e DI_STATE_PCAP_RECORD_START
             then discovered_item_state_set DI_STATE_PCAP_RECORD_STOP e
             else e)
       (store ctx) (ctx_list ctx)).

(** The body the four [discovered_items_select_show_*_toggle] loops share:
    a selected record gets the flag flipped. *)
Definition show_toggle (mask : Z) (e : discovered_item_s) : discovered_item_s :=
  if negb (state_test e DI_STATE_SELECTED) then e
  else if state_test e mask then discovered_item_state_clr mask e
  else discovered_item_state_set mask e.

Definition discovered_items_select_show_pids_toggle (ctx : tool_context_s) : tool_context_s :=
  set_store ctx (for_each_entry (show_toggle DI_STATE_SHOW_PIDS) (store ctx) (ctx_list ctx)).

Definition discovered_items_select_show_tr101290_toggle (ctx : tool_context_s) : tool_context_s :=
  set_store ctx (for_each_entry (show_toggle DI_STATE_SHOW_TR101290) (store ctx) (ctx_list ctx)).

Definition discovered_items_select_show_iats_toggle (ctx : tool_context_s) : tool_context_s :=
  set_store ctx (for_each_entry (show_toggle DI_STATE_SHOW_IAT_HISTOGRAM) (store ctx) (ctx_list ctx)).

Definition discovered_items_select_show_streammodel_toggle (ctx : tool_context_s)
  : tool_context_s :=
  set_store ctx (for_each_entry (show_toggle DI_STATE_SHOW_STREAMMODEL) (store ctx) (ctx_list ctx)).

(** ** More vocabulary for the registry *)

(** The flags of a record fit the [unsigned int] that holds them. *)
Definition state_ok (r : discovered_item_s) : Prop := 0 ≤ state r < 2 ^ 32.

(** The record [p] points to is shown ([visible]) or not, selected or not. *)
Definition hidden (st : list discovered_item_s) (p : ptr) : Prop :=
  state_test (st !!! p) DI_STATE_HIDDEN = true.

Definition selected (st : list discovered_item_s) (p : ptr) : Prop :=
  state_test (st !!! p) DI_STATE_SELECTED = true.

(** No entry of [l] is both shown and selected. *)
Definition no_visible_selection (st : list discovered_item_s) (l : list ptr) : Prop :=
  ∀ p, p ∈ l → hidden st p ∨ ¬ selected st p.


(** A registry for examples: one record per entry of [flags], carrying
    these flags, listed in the order of the store. *)
Definition sample_record (dport flags : Z) : discovered_item_s :=
  mk_discovered_item (mk_ether_header 0 0 0) (mk_iphdr 1 2) (mk_udphdr 3 dport) 0 0 0 flags.

Definition sample_context (flags : list Z) : tool_context_s :=
  mk_tool_context (imap (λ i f, sample_record (Z.of_nat i) f) flags)
    (seq 0 (length flags)) ∅ 0 0 false.


(* ===================================================================== *)
(** * Properties of the histogram *)
(* ===================================================================== *)

Section Histogram.

Implicit Types (h : ltn_histogram_s) (now : timeval).

Lemma to_uint32_small z : 0 ≤ z < 2 ^ 32 → to_uint32 z = z.
Proof. intros; unfold to_uint32; apply Z.mod_small; lia. Qed.

Lemma to_uint64_small z : 0 ≤ z < 2 ^ 64 → to_uint64 z = z.
Proof. intros; unfold to_uint64; apply Z.mod_small; lia. Qed.

Lemma to_int32_small z : - 2 ^ 31 ≤ z < 2 ^ 31 → to_int32 z = z.
Proof. intros; unfold to_int32; rewrite Z.mod_small; lia. Qed.

Lemma to_uint32_range z : 0 ≤ to_uint32 z < 2 ^ 32.
Proof. unfold to_uint32; apply Z.mod_pos_bound; lia. Qed.

Lemma to_uint32_negative z : - 2 ^ 31 ≤ z < 0 → to_uint32 (to_int32 z) = 2 ^ 32 + z.
Proof.
  intros Hz. rewrite to_int32_small by lia. unfold to_uint32.
  symmetry. apply (Z.mod_unique_pos _ _ (-1)); lia.
Qed.

(** The bucket block has room for one slot more than [bucketCount]: the
    allocation uses the size of the histogram struct for each bucket. *)
Lemma wf_room h : hist_wf h → (Z.to_nat (bucketCount h) < length (buckets h))%nat.
Proof.
  intros [Hmin Hlt Hmax Hc Hs]. rewrite Hs.
  unfold sizeof_ltn_histogram_s, sizeof_ltn_histogram_bucket_s.
  rewrite Z.quot_div_nonneg by lia.
  assert (8 * bucketCount h ≤ bucketCount h * 208 / 24).
  { apply Z.div_le_lower_bound; lia. }
  lia.
Qed.

Lemma bucket_index h ms :
  hist_wf h → minValMs h ≤ ms ≤ maxValMs h →
  ltn_histogram_bucket h ms = ms - minValMs h.
Proof.
  intros [Hmin Hlt Hmax _ _] Hr. unfold ltn_histogram_bucket.
  rewrite to_uint32_small by lia. apply to_uint64_small; lia.
Qed.

(** A value the code takes as in range reaches a slot of the block; that
    slot gets the new time and a count one higher. *)
Lemma bucket_hit_some h ms now :
  hist_wf h → minValMs h ≤ ms ≤ maxValMs h →
  ∃ b, buckets h !! Z.to_nat (ms - minValMs h) = Some b ∧
       bucket_hit h ms now =
       Some (set_buckets h (<[Z.to_nat (ms - minValMs h) := mk_bucket (to_uint64 (count b + 1)) now]>
                              (buckets h))).
Proof.
  intros Hwf Hr. pose proof (wf_room h Hwf) as Hroom.
  unfold bucket_hit. rewrite (bucket_index h ms Hwf Hr).
  destruct (lookup_lt_is_Some_2 (buckets h) (Z.to_nat (ms - minValMs h))) as [b Hb].
  { destruct Hwf as [? ? ? Hc _]. lia. }
  exists b. by rewrite Hb.
Qed.

Lemma bucket_count_at_insert h' h i j b b0 :
  buckets h' = <[i := b]> (buckets h) → buckets h !! i = Some b0 →
  bucket_count_at h' j = if decide (j = i) then count b else bucket_count_at h j.
Proof.
  intros Heq Hb. unfold bucket_count_at. rewrite Heq. case_decide as Hij.
  - subst j. rewrite list_lookup_insert_eq; [done|]. by eapply lookup_lt_Some.
  - by rewrite list_lookup_insert_ne.
Qed.

Lemma hist_wf_set_buckets h i b :
  hist_wf h → hist_wf (set_buckets h (<[i := b]> (buckets h))).
Proof. intros [? ? ? ? Hs]. split; simpl; try done. by rewrite length_insert. Qed.

(** What the code does with a difference inside [minValMs, maxValMs]
    (both ends included, as the test of the code has it). *)
Lemma interval_update_hit now h :
  hist_wf h → minValMs h ≤ interval_delta now h ≤ maxValMs h →
  ∃ h', ltn_histogram_interval_update now h = Some (h', to_int32 (interval_delta now h)) ∧
        hist_wf h' ∧
        bucketMissCount h' = bucketMissCount h ∧
        cumulativeMs h' = cumulativeMs h ∧
        intervalLast h' = now ∧
        ∀ j, bucket_count_at h' j =
             if decide (j = Z.to_nat (interval_delta now h - minValMs h))
             then to_uint64 (bucket_count_at h j + 1) else bucket_count_at h j.
Proof.
  intros Hwf Hr. unfold ltn_histogram_interval_update, interval_delta in *.
  destruct (ltn_histogram_timeval_subtract now (intervalLast h)) as [[r y'] f]; simpl in *.
  set (d := to_uint32 (ltn_histogram_timeval_to_ms r)) in *.
  assert (Hwf1 : hist_wf (set_intervalLast h now)) by (destruct Hwf; split; done).
  destruct (bucket_hit_some (set_intervalLast h now) d now Hwf1 Hr) as (b & Hb & Hhit).
  simpl in Hb, Hhit.
  replace ((d <? minValMs h) || (d >? maxValMs h)) with false
    by (symmetry; apply orb_false_iff; split; lia).
  rewrite Hhit. eexists; split; [done|].
  split; [by apply (hist_wf_set_buckets (set_intervalLast h now))|].
  repeat split; try done.
  intros j.
  erewrite (bucket_count_at_insert _ h _ j _ b); [|reflexivity|exact Hb]; simpl.
  case_decide; [subst j|done]. unfold bucket_count_at. by rewrite Hb.
Qed.

(** What the code does with a difference below [minValMs] or above
    [maxValMs]. *)
Lemma interval_update_miss now h :
  interval_delta now h < minValMs h ∨ maxValMs h < interval_delta now h →
  ltn_histogram_interval_update now h =
  Some (set_bucketMissCount (set_intervalLast h now) (to_uint64 (bucketMissCount h + 1)), -1).
Proof.
  intros Hr. unfold ltn_histogram_interval_update, interval_delta in *.
  destruct (ltn_histogram_timeval_subtract now (intervalLast h)) as [[r y'] f]; simpl in *.
  replace ((_ <? minValMs h) || (_ >? maxValMs h)) with true; [done|].
  symmetry; apply orb_true_iff. lia.
Qed.

Lemma cumulative_finalize_hit now h :
  hist_wf h → minValMs h ≤ cumulativeMs h ≤ maxValMs h →
  ∃ h', ltn_histogram_cumulative_finalize now h = Some (h', cumulativeMs h) ∧
        hist_wf h' ∧
        bucketMissCount h' = bucketMissCount h ∧
        cumulativeMs h' = cumulativeMs h ∧
        minValMs h' = minValMs h ∧ maxValMs h' = maxValMs h ∧
        ∀ j, bucket_count_at h' j =
             if decide (j = Z.to_nat (cumulativeMs h - minValMs h))
             then to_uint64 (bucket_count_at h j + 1) else bucket_count_at h j.
Proof.
  intros Hwf Hr. unfold ltn_histogram_cumulative_finalize.
  destruct (bucket_hit_some h (cumulativeMs h) now Hwf Hr) as (b & Hb & Hhit).
  replace ((_ <? minValMs h) || (_ >? maxValMs h)) with false
    by (symmetry; apply orb_false_iff; split; lia).
  rewrite Hhit. eexists; split; [done|].
  split; [by apply hist_wf_set_buckets|].
  repeat split; try done.
  intros j. erewrite (bucket_count_at_insert _ h _ j _ b); [|reflexivity|exact Hb]; simpl.
  case_decide; [subst j|done]. unfold bucket_count_at. by rewrite Hb.
Qed.

Lemma cumulative_finalize_miss now h :
  cumulativeMs h < minValMs h ∨ maxValMs h < cumulativeMs h →
  ltn_histogram_cumulative_finalize now h =
  Some (set_bucketMissCount h (to_uint64 (bucketMissCount h + 1)), cumulativeMs h).
Proof.
  intros Hr. unfold ltn_histogram_cumulative_finalize.
  replace ((_ <? minValMs h) || (_ >? maxValMs h)) with true; [done|].
  symmetry; apply orb_true_iff. lia.
Qed.

End Histogram.

Section HistogramClaims.

Implicit Types (h : ltn_histogram_s) (now : timeval).

Lemma ltn_histogram_alloc_ok now s mn mx :
  0 ≤ mn < mx → mx < 2 ^ 32 →
  ∃ h, ltn_histogram_alloc now (Some s) mn mx = Some h ∧ hist_wf h ∧
       minValMs h = mn ∧ maxValMs h = mx ∧ bucketMissCount h = 0 ∧
       cumulativeMs h = 0 ∧ intervalLast h = now ∧ ∀ j, bucket_count_at h j = 0.
Proof.
  intros Hr Hmx. unfold ltn_histogram_alloc.
  destruct (Z.eqb_spec mn mx); [lia|].
  destruct (Z.ltb_spec mx mn); [lia|].
  destruct (Z.eqb_spec mx 0); [lia|].
  eexists; split; [reflexivity|].
  assert (Hbc : to_uint32 (mx - mn) = mx - mn) by (apply to_uint32_small; lia).
  split; [split; simpl; rewrite ?Hbc, ?length_replicate; lia|].
  repeat split; try done.
  intros j. unfold bucket_count_at; simpl.
  destruct (replicate _ zero_bucket !! j) as [b|] eqn:Hb; [|done].
  apply lookup_replicate in Hb as [-> _]. done.
Qed.

Lemma video_defaults_ok now s :
  ∃ h, ltn_histogram_alloc_video_defaults now (Some s) = Some h ∧ hist_wf h ∧
       minValMs h = 0 ∧ maxValMs h = 16000 ∧ bucketMissCount h = 0 ∧
       cumulativeMs h = 0 ∧ intervalLast h = now ∧ ∀ j, bucket_count_at h j = 0.
Proof. apply ltn_histogram_alloc_ok; lia. Qed.

(** C2 (the code departs from the claim at the upper bound).  On the video
    preset [0, 16000) an observed difference of exactly 16000 ms is not
    counted as a miss, neither by [ltn_histogram_interval_update] nor by
    [ltn_histogram_cumulative_finalize]: [bucketMissCount] stays as it was
    and the count of slot 16000, one past the last bucket, goes up.  The run
    of the spec's differences 3, 7, 7, 15999, 16000 ends with no miss. *)
Theorem C2_delta_equal_to_max_is_not_a_miss :
  (∃ h0, ltn_histogram_alloc_video_defaults (mk_timeval 100 0) (Some []) = Some h0 ∧
    interval_delta (mk_timeval 116 0) h0 = maxValMs h0 ∧
    (∃ h1, ltn_histogram_interval_update (mk_timeval 116 0) h0 = Some (h1, 16000) ∧
           bucketMissCount h1 = bucketMissCount h0 ∧
           bucket_count_at h1 (Z.to_nat 16000) = bucket_count_at h0 (Z.to_nat 16000) + 1) ∧
    cumulativeMs (cumulative_window (mk_timeval 100 0) (mk_timeval 116 0) h0) = maxValMs h0 ∧
    (∃ h2, ltn_histogram_cumulative_finalize (mk_timeval 117 0)
             (cumulative_window (mk_timeval 100 0) (mk_timeval 116 0) h0) = Some (h2, 16000) ∧
           bucketMissCount h2 = bucketMissCount h0 ∧
           bucket_count_at h2 (Z.to_nat 16000) = bucket_count_at h0 (Z.to_nat 16000) + 1)) ∧
  (bucketMissCount <$>
     (ltn_histogram_alloc_video_defaults (mk_timeval 100 0) (Some []) ≫=
      interval_updates
        [mk_timeval 100 3000; mk_timeval 100 10000; mk_timeval 100 17000;
         mk_timeval 116 16000; mk_timeval 132 16000])) = Some 0.
Proof.
  split; [|by vm_compute].
  destruct (video_defaults_ok (mk_timeval 100 0) []) as
    (h0 & Halloc & Hwf & Hmin & Hmax & Hmiss & Hcum & Hlast & Hzero).
  exists h0. split; [done|].
  assert (Hd : interval_delta (mk_timeval 116 0) h0 = 16000).
  { unfold interval_delta. rewrite Hlast. by vm_compute. }
  split; [by rewrite Hd, Hmax|].
  split.
  { destruct (interval_update_hit (mk_timeval 116 0) h0 Hwf) as (h1 & Hup & _ & Hm & _ & _ & Hb).
    { rewrite Hd, Hmin, Hmax. lia. }
    exists h1. rewrite Hd in Hup. split; [exact Hup|]. split; [done|].
    rewrite Hb, Hd, Hmin, Hzero. rewrite decide_True by (f_equal; lia). done. }
  set (hc := cumulative_window (mk_timeval 100 0) (mk_timeval 116 0) h0).
  assert (Hcc : cumulativeMs hc = 16000).
  { unfold hc, cumulative_window, ltn_histogram_cumulative_end; simpl.
    by vm_compute. }
  assert (Hwfc : hist_wf hc).
  { destruct Hwf. split; done. }
  split; [by rewrite Hcc, Hmax|].
  { destruct (cumulative_finalize_hit (mk_timeval 117 0) hc Hwfc) as
      (h2 & Hfin & _ & Hm & _ & _ & _ & Hb).
    { rewrite Hcc. change (minValMs hc) with (minValMs h0).
      change (maxValMs hc) with (maxValMs h0). lia. }
    exists h2. rewrite Hcc in Hfin. split; [exact Hfin|]. split; [done|].
    rewrite Hb, Hcc. change (minValMs hc) with (minValMs h0). rewrite Hmin.
    rewrite decide_True by (f_equal; lia).
    change (bucket_count_at hc) with (bucket_count_at h0). by rewrite Hzero. }
Qed.

(** The result of the subtraction on two values of [gettimeofday]: one
    second is carried when the microseconds of [x] are the smaller ones. *)
Lemma timeval_subtract_normal x y :
  timeval_normal x → timeval_normal y →
  fst (fst (ltn_histogram_timeval_subtract x y)) =
  if tv_usec x <? tv_usec y
  then mk_timeval (tv_sec x - tv_sec y - 1) (tv_usec x - tv_usec y + 1000000)
  else mk_timeval (tv_sec x - tv_sec y) (tv_usec x - tv_usec y).
Proof.
  unfold timeval_normal, ltn_histogram_timeval_subtract.
  destruct x as [xs xu], y as [ys yu]; simpl. intros Hx Hy.
  destruct (Z.ltb_spec xu yu) as [Hlt|Hge]; simpl.
  - rewrite Z.quot_small by lia. change (to_int32 (0 + 1)) with 1.
    destruct (Z.gtb_spec (xu - (yu - 1000000 * 1)) 1000000); [lia|].
    simpl. f_equal; lia.
  - destruct (Z.gtb_spec (xu - yu) 1000000); [lia|]. done.
Qed.

(** A step back of the clock gives a negative [int], which the [uint32_t]
    [diffMs] holds as a value of at least 2^31. *)
Lemma interval_delta_negative now h :
  timeval_normal now → timeval_normal (intervalLast h) →
  timeval_before now (intervalLast h) →
  tv_sec (intervalLast h) - tv_sec now ≤ 2147482 →
  2 ^ 31 ≤ interval_delta now h.
Proof.
  intros Hx Hy Hlt Hbound. unfold interval_delta.
  rewrite (timeval_subtract_normal _ _ Hx Hy).
  unfold timeval_normal, timeval_before, ltn_histogram_timeval_to_ms in *.
  destruct now as [xs xu]; destruct (intervalLast h) as [ys yu]; simpl in *.
  destruct (Z.ltb_spec xu yu) as [Hu|Hu]; simpl.
  - assert (0 ≤ (xu - yu + 1000000) ÷ 1000 ≤ 999).
    { rewrite Z.quot_div_nonneg by lia. split.
      - apply Z.div_pos; lia.
      - apply Z.lt_succ_r. apply Z.div_lt_upper_bound; lia. }
    rewrite to_uint32_negative; lia.
  - assert (0 ≤ (xu - yu) ÷ 1000 ≤ 999).
    { rewrite Z.quot_div_nonneg by lia. split.
      - apply Z.div_pos; lia.
      - apply Z.lt_succ_r. apply Z.div_lt_upper_bound; lia. }
    rewrite to_uint32_negative; lia.
Qed.

(** A call at a time earlier than [intervalLast] takes the branch of the
    misses when [maxValMs] is below 2^31. *)
Lemma interval_update_negative now h :
  timeval_normal now → timeval_normal (intervalLast h) →
  timeval_before now (intervalLast h) →
  tv_sec (intervalLast h) - tv_sec now ≤ 2147482 →
  maxValMs h < 2 ^ 31 →
  ltn_histogram_interval_update now h =
  Some (set_bucketMissCount (set_intervalLast h now) (to_uint64 (bucketMissCount h + 1)), -1).
Proof.
  intros Hx Hy Hlt Hbound Hmax.
  pose proof (interval_delta_negative now h Hx Hy Hlt Hbound) as Hd.
  apply interval_update_miss. lia.
Qed.

(** C7 (amended).  A call of [ltn_histogram_interval_update] at a time
    earlier than [intervalLast] is not taken as an interval of 0: the negative
    millisecond difference becomes an unsigned value of at least 2^31.  For a
    histogram whose [maxValMs] is below 2^31 and a step back of at most
    2147482 seconds, the call counts a miss, changes no bucket and returns
    -1. *)
Theorem C7_negative_interval_is_a_miss now h :
  timeval_normal now → timeval_normal (intervalLast h) →
  timeval_before now (intervalLast h) →
  tv_sec (intervalLast h) - tv_sec now ≤ 2147482 →
  maxValMs h < 2 ^ 31 →
  2 ^ 31 ≤ interval_delta now h ∧
  ∃ h', ltn_histogram_interval_update now h = Some (h', -1) ∧
        bucketMissCount h' = to_uint64 (bucketMissCount h + 1) ∧
        buckets h' = buckets h ∧
        (∀ j, bucket_count_at h' j = bucket_count_at h j) ∧
        intervalLast h' = now.
Proof.
  intros Hx Hy Hlt Hbound Hmax.
  split; [by apply interval_delta_negative|].
  rewrite interval_update_negative by done.
  eexists; split; [reflexivity|]. simpl. repeat split; done.
Qed.

(** C7, an instance of the amended statement: the video preset, one second
    back. *)
Lemma C7_negative_interval_witness :
  ∃ h, ltn_histogram_alloc_video_defaults (mk_timeval 10 0) (Some []) = Some h ∧
  2 ^ 31 ≤ interval_delta (mk_timeval 9 0) h ∧
  ∃ h', ltn_histogram_interval_update (mk_timeval 9 0) h = Some (h', -1) ∧
        bucketMissCount h' = to_uint64 (bucketMissCount h + 1) ∧
        buckets h' = buckets h ∧
        (∀ j, bucket_count_at h' j = bucket_count_at h j) ∧
        intervalLast h' = mk_timeval 9 0.
Proof.
  eexists. split; [reflexivity|].
  apply (C7_negative_interval_is_a_miss (mk_timeval 9 0)).
  - unfold timeval_normal; simpl; lia.
  - unfold timeval_normal; simpl; lia.
  - unfold timeval_before; simpl; lia.
  - simpl; lia.
  - simpl; lia.
Defined.

(** C7 as the spec words it fails: on the video preset (so [minValMs] is 0),
    an update one second before [intervalLast] leaves the count of bucket 0
    at 0 and raises [bucketMissCount] from 0 to 1. *)
Lemma C7_negative_interval_counterexample :
  ∃ h h',
    ltn_histogram_alloc_video_defaults (mk_timeval 10 0) (Some []) = Some h ∧
    minValMs h = 0 ∧
    timeval_before (mk_timeval 9 0) (intervalLast h) ∧
    ltn_histogram_interval_update (mk_timeval 9 0) h = Some (h', -1) ∧
    bucket_count_at h 0 = 0 ∧ bucket_count_at h' 0 = 0 ∧
    bucketMissCount h = 0 ∧ bucketMissCount h' = 1.
Proof.
  destruct (video_defaults_ok (mk_timeval 10 0) []) as
    (h & Halloc & Hwf & Hmin & Hmax & Hmiss & Hcum & Hlast & Hzero).
  exists h. eexists. split; [done|]. split; [done|].
  split; [rewrite Hlast; left; simpl; lia|].
  split.
  { apply interval_update_negative; rewrite ?Hlast, ?Hmax;
      unfold timeval_normal, timeval_before; simpl; lia. }
  split; [apply Hzero|]. split; [apply Hzero|]. split; [done|].
  simpl. by rewrite Hmiss.
Qed.

Lemma cumulative_finalize_frame now h h' r :
  ltn_histogram_cumulative_finalize now h = Some (h', r) →
  cumulativeMs h' = cumulativeMs h ∧ r = cumulativeMs h.
Proof.
  unfold ltn_histogram_cumulative_finalize, bucket_hit.
  destruct (_ || _); [by intros [= <- <-]|].
  destruct (buckets h !! _); [|done]. by intros [= <- <-].
Qed.

Lemma interval_update_frame now h h' r :
  ltn_histogram_interval_update now h = Some (h', r) → cumulativeMs h' = cumulativeMs h.
Proof.
  unfold ltn_histogram_interval_update, bucket_hit.
  destruct (ltn_histogram_timeval_subtract now (intervalLast h)) as [[d y'] f].
  destruct (_ || _); [by intros [= <- _]|]. simpl.
  destruct (buckets h !! _); [|done]. by intros [= <- _].
Qed.

(** C10.  [ltn_histogram_cumulative_finalize] returns [cumulativeMs] and
    leaves it as it is; [ltn_histogram_cumulative_initialize] and
    [ltn_histogram_reset] set the field to 0, begin and the interval update
    keep it, and end adds the measured milliseconds to it.  On a histogram as
    the allocation builds it, a second finalize without an initialize in
    between records the same value once more: two more misses, or two more
    counts in the same bucket. *)
Theorem C10_finalize_keeps_cumulativeMs now1 now2 h :
  (∀ h' r, ltn_histogram_cumulative_finalize now1 h = Some (h', r) →
           cumulativeMs h' = cumulativeMs h ∧ r = cumulativeMs h) ∧
  cumulativeMs (ltn_histogram_cumulative_initialize h) = 0 ∧
  (∀ h', ltn_histogram_reset now1 h = Some h' → cumulativeMs h' = 0) ∧
  cumulativeMs (ltn_histogram_cumulative_begin now1 h) = cumulativeMs h ∧
  (∀ h' r, ltn_histogram_interval_update now1 h = Some (h', r) →
           cumulativeMs h' = cumulativeMs h) ∧
  cumulativeMs (fst (ltn_histogram_cumulative_end now1 h)) =
    to_uint64 (cumulativeMs h + snd (ltn_histogram_cumulative_end now1 h)) ∧
  (hist_wf h →
   is_Some (ltn_histogram_reset now1 h) ∧
   is_Some (ltn_histogram_interval_update now1 h) ∧
   ∃ h1 h2,
     ltn_histogram_cumulative_finalize now1 h = Some (h1, cumulativeMs h) ∧
     ltn_histogram_cumulative_finalize now2 h1 = Some (h2, cumulativeMs h) ∧
     cumulativeMs h2 = cumulativeMs h ∧
     (cumulativeMs h < minValMs h ∨ maxValMs h < cumulativeMs h →
        bucketMissCount h2 = to_uint64 (to_uint64 (bucketMissCount h + 1) + 1) ∧
        buckets h2 = buckets h) ∧
     (minValMs h ≤ cumulativeMs h ≤ maxValMs h →
        bucketMissCount h2 = bucketMissCount h ∧
        ∀ j, bucket_count_at h2 j =
             if decide (j = Z.to_nat (cumulativeMs h - minValMs h))
             then to_uint64 (to_uint64 (bucket_count_at h j + 1) + 1)
             else bucket_count_at h j)).
Proof.
  split; [intros h' r; apply cumulative_finalize_frame|].
  split; [done|].
  split.
  { intros h'. unfold ltn_histogram_reset. case_decide; [|done]. by intros [= <-]. }
  split; [done|].
  split; [intros h' r; apply interval_update_frame|].
  split.
  { unfold ltn_histogram_cumulative_end.
    by destruct (ltn_histogram_timeval_subtract now1 (cumulativeLast h)) as [[r y'] f]. }
  intros Hwf. split; [|split].
  - pose proof (wf_room h Hwf) as Hroom. unfold ltn_histogram_reset.
    by rewrite decide_True by lia.
  - destruct (Z_lt_le_dec (interval_delta now1 h) (minValMs h)) as [Hlo|Hlo];
      [|destruct (Z_lt_le_dec (maxValMs h) (interval_delta now1 h)) as [Hhi|Hhi]].
    1, 2: by rewrite interval_update_miss by lia.
    destruct (interval_update_hit now1 h Hwf) as (h' & -> & _); [lia|done].
  - destruct (Z_lt_le_dec (cumulativeMs h) (minValMs h)) as [Hlo|Hlo];
      [|destruct (Z_lt_le_dec (maxValMs h) (cumulativeMs h)) as [Hhi|Hhi]].
    1, 2: rewrite cumulative_finalize_miss by lia;
      eexists _, _; split; [reflexivity|];
      rewrite cumulative_finalize_miss by (simpl; lia); simpl;
      split; [reflexivity|]; repeat split; try done; lia.
    destruct (cumulative_finalize_hit now1 h Hwf) as
      (h1 & Hf1 & Hwf1 & Hm1 & Hc1 & Hmin1 & Hmax1 & Hb1); [lia|].
    destruct (cumulative_finalize_hit now2 h1 Hwf1) as
      (h2 & Hf2 & Hwf2 & Hm2 & Hc2 & Hmin2 & Hmax2 & Hb2); [lia|].
    exists h1, h2. rewrite Hc1 in Hf2.
    split; [done|]. split; [done|]. split; [congruence|].
    split; [lia|]. intros _. split; [congruence|].
    intros j. rewrite Hb2, Hb1, Hc1, Hmin1. by case_decide.
Qed.

(** C10 on a histogram of sixteen buckets that holds an aggregate of 5 ms. *)
Lemma C10_finalize_twice_witness :
  ∃ h1 h2,
    ltn_histogram_cumulative_finalize (mk_timeval 1 0)
      (mk_histogram [] 0 16 0 16 (replicate 138 zero_bucket) zero_timeval 5 zero_timeval)
      = Some (h1, 5) ∧
    ltn_histogram_cumulative_finalize (mk_timeval 2 0) h1 = Some (h2, 5) ∧
    cumulativeMs h2 = 5 ∧ bucket_count_at h2 5 = 2.
Proof.
  destruct (C10_finalize_keeps_cumulativeMs (mk_timeval 1 0) (mk_timeval 2 0)
              (mk_histogram [] 0 16 0 16 (replicate 138 zero_bucket) zero_timeval 5 zero_timeval))
    as (_ & _ & _ & _ & _ & _ & Hwf).
  destruct Hwf as (_ & _ & h1 & h2 & Hf1 & Hf2 & Hc2 & _ & Hin).
  - split; simpl; try lia. reflexivity.
  - exists h1, h2. split; [exact Hf1|]. split; [exact Hf2|]. split; [exact Hc2|].
    destruct Hin as [_ Hb]; [simpl; lia|]. rewrite Hb. reflexivity.
Defined.

End HistogramClaims.

(* ===================================================================== *)
(** * Properties of the registry: flags and selection *)
(* ===================================================================== *)

Section Flags.

Implicit Types (r : discovered_item_s) (st : list discovered_item_s) (l : list ptr).

Lemma state_test_set m m' r :
  state_test (discovered_item_state_set m r) m' = state_test r m' || negb (Z.land m m' =? 0).
Proof.
  unfold state_test, discovered_item_state_get, discovered_item_state_set; simpl.
  rewrite Z.land_lor_distr_l.
  destruct (Z.eqb_spec (Z.land (state r) m') 0) as [Ha|Ha];
    destruct (Z.eqb_spec (Z.land m m') 0) as [Hb|Hb]; simpl;
    destruct (Z.eqb_spec (Z.lor (Z.land (state r) m') (Z.land m m')) 0) as [Hc|Hc];
    try done.
  - rewrite Ha, Hb in Hc. done.
  - apply Z.lor_eq_0_iff in Hc. lia.
  - apply Z.lor_eq_0_iff in Hc. lia.
  - apply Z.lor_eq_0_iff in Hc. lia.
Qed.

Lemma state_test_set_same m r : m ≠ 0 → state_test (discovered_item_state_set m r) m = true.
Proof.
  intros Hm. rewrite state_test_set, Z.land_diag.
  destruct (Z.eqb_spec m 0); [done|]. apply orb_true_r.
Qed.

Lemma state_test_set_keeps m m' r :
  state_test r m' = true → state_test (discovered_item_state_set m r) m' = true.
Proof. intros H. by rewrite state_test_set, H. Qed.

(** A record that is hidden is left alone by the loop of select_next. *)
Lemma select_next_loop_hidden st doSelect l p r :
  st !! p = Some r → state_test r DI_STATE_HIDDEN = true →
  select_next_loop st doSelect l !! p = Some r.
Proof.
  revert st doSelect. induction l as [|e rest IH]; intros st doSelect Hp Hh; [done|].
  simpl. destruct (state_test (st !!! e) DI_STATE_HIDDEN) eqn:He; [by apply IH|].
  assert (Hne : e ≠ p).
  { intros ->. rewrite (list_lookup_total_correct _ _ _ Hp) in He. congruence. }
  destruct (state_test (st !!! e) DI_STATE_SELECTED).
  - apply IH; [|done]. destruct rest; [done|]. by rewrite list_lookup_alter_ne.
  - destruct doSelect; [by rewrite list_lookup_alter_ne|by apply IH].
Qed.

(** A record that is hidden is left alone by the loop of select_prev, whose
    remembered entry [q] is never a hidden one. *)
Lemma select_prev_loop_hidden st q l p r :
  st !! p = Some r → state_test r DI_STATE_HIDDEN = true →
  (∀ q', q = Some q' → state_test (st !!! q') DI_STATE_HIDDEN = false) →
  select_prev_loop st q l !! p = Some r.
Proof.
  revert q. induction l as [|e rest IH]; intros q Hp Hh Hq; [done|].
  simpl. destruct (state_test (st !!! e) DI_STATE_HIDDEN) eqn:He; [by apply IH|].
  assert (Hne : e ≠ p).
  { intros ->. rewrite (list_lookup_total_correct _ _ _ Hp) in He. congruence. }
  assert (Hnext : select_prev_loop st (Some e) rest !! p = Some r).
  { apply IH; [done|done|]. by intros ? [= <-]. }
  destruct q as [q'|]; [|done].
  destruct (state_test (st !!! e) DI_STATE_SELECTED); [|done].
  assert (q' ≠ p).
  { intros ->. specialize (Hq p eq_refl).
    rewrite (list_lookup_total_correct _ _ _ Hp) in Hq. congruence. }
  by rewrite !list_lookup_alter_ne.
Qed.

End Flags.

Section Selection.

(** C9.  [discovered_items_select_first] sets SELECTED on the record at the
    head of the list whatever its flags are: a hidden head record stays
    hidden and becomes selected.  [discovered_items_select_next] and
    [discovered_items_select_prev] leave every hidden record as it is. *)
Theorem C9_select_first_takes_hidden_head (ctx : tool_context_s) :
  (∀ e rest r,
      ctx_list ctx = e :: rest → store ctx !! e = Some r →
      discovered_items_select_first ctx =
        set_store ctx (alter (discovered_item_state_set DI_STATE_SELECTED) e (store ctx)) ∧
      ∃ r', store (discovered_items_select_first ctx) !! e = Some r' ∧
            state_test r' DI_STATE_SELECTED = true ∧
            state_test r' DI_STATE_HIDDEN = state_test r DI_STATE_HIDDEN) ∧
  (∀ p r,
      store ctx !! p = Some r → state_test r DI_STATE_HIDDEN = true →
      store (discovered_items_select_next ctx) !! p = Some r ∧
      store (discovered_items_select_prev ctx) !! p = Some r).
Proof.
  split.
  - intros e rest r Hl Hr. unfold discovered_items_select_first. rewrite Hl.
    split; [done|]. exists (discovered_item_state_set DI_STATE_SELECTED r).
    split; [simpl; by rewrite list_lookup_alter_eq, Hr|]. split.
    + by apply state_test_set_same.
    + rewrite state_test_set. apply orb_false_r.
  - intros p r Hp Hh. split; simpl.
    + by apply select_next_loop_hidden.
    + by apply select_prev_loop_hidden.
Qed.

(** C9 on a list of one hidden record. *)
Lemma C9_select_first_witness :
  ∃ r', store (discovered_items_select_first
                 (mk_tool_context
                    [mk_discovered_item (mk_ether_header 0 0 0) (mk_iphdr 1 2) (mk_udphdr 3 4)
                       0 0 0 DI_STATE_HIDDEN]
                    [0%nat] ∅ 0 0 false)) !! 0%nat = Some r' ∧
        state_test r' DI_STATE_SELECTED = true ∧
        state_test r' DI_STATE_HIDDEN = true.
Proof.
  destruct (C9_select_first_takes_hidden_head
              (mk_tool_context
                 [mk_discovered_item (mk_ether_header 0 0 0) (mk_iphdr 1 2) (mk_udphdr 3 4)
                    0 0 0 DI_STATE_HIDDEN]
                 [0%nat] ∅ 0 0 false)) as [Hfirst _].
  destruct (Hfirst 0%nat [] _ eq_refl eq_refl) as [_ (r' & Hr' & Hs & Hh)].
  exists r'. split; [exact Hr'|]. split; [exact Hs|]. rewrite Hh. reflexivity.
Defined.

(** C4 (the code departs from the claim when hidden records end the list).
    Two flows to 10.0.0.1, ports 4001 and 4002.  After select_first,
    select_next, select_hide and select_first, the record of port 4001 is
    selected and is the last entry that is not hidden; select_next then
    clears its SELECTED flag and selects nothing else.  With five flows of
    which the second and the fourth are hidden, select_next moves the
    selection from the first to the third. *)
Theorem C4_select_next_loses_selection_before_hidden_tail :
  let flow := flow_packet LittleEndian 0xC0A80001 5000 0x0A000001 in
  let ctx2 := fst (findcreate_all LittleEndian (empty_context false) [flow 4001; flow 4002]) in
  let ctx3 :=
    discovered_items_select_first
      (discovered_items_select_hide
         (discovered_items_select_next (discovered_items_select_first ctx2))) in
  let ctx5 :=
    fst (findcreate_all LittleEndian (empty_context false)
           [flow 4001; flow 4002; flow 4003; flow 4004; flow 4005]) in
  let ctx6 :=
    discovered_items_select_first
      (discovered_items_select_hide
         (discovered_items_select_next
            (discovered_items_select_next
               (discovered_items_select_first
                  (discovered_items_select_hide
                     (discovered_items_select_next (discovered_items_select_first ctx5))))))) in
  list_view LittleEndian ctx3 =
    [(4001, DI_STATE_SELECTED); (4002, Z.lor DI_STATE_SELECTED DI_STATE_HIDDEN)] ∧
  list_view LittleEndian (discovered_items_select_next ctx3) =
    [(4001, 0); (4002, Z.lor DI_STATE_SELECTED DI_STATE_HIDDEN)] ∧
  list_view LittleEndian ctx6 =
    [(4001, DI_STATE_SELECTED); (4002, Z.lor DI_STATE_SELECTED DI_STATE_HIDDEN); (4003, 0);
     (4004, Z.lor DI_STATE_SELECTED DI_STATE_HIDDEN); (4005, 0)] ∧
  list_view LittleEndian (discovered_items_select_next ctx6) =
    [(4001, 0); (4002, Z.lor DI_STATE_SELECTED DI_STATE_HIDDEN); (4003, DI_STATE_SELECTED);
     (4004, Z.lor DI_STATE_SELECTED DI_STATE_HIDDEN); (4005, 0)].
Proof. by vm_compute. Qed.

(** The sibling loop keeps the selection at the other end: with a hidden
    record at the head, select_prev leaves the first visible record selected. *)
Lemma select_prev_keeps_first_visible :
  let flow := flow_packet LittleEndian 0xC0A80001 5000 0x0A000001 in
  let ctx2 := fst (findcreate_all LittleEndian (empty_context false) [flow 4001; flow 4002]) in
  let ctx3 :=
    discovered_items_select_all
      (discovered_items_select_hide (discovered_items_select_first ctx2)) in
  list_view LittleEndian ctx3 =
    [(4001, Z.lor DI_STATE_SELECTED DI_STATE_HIDDEN); (4002, DI_STATE_SELECTED)] ∧
  list_view LittleEndian (discovered_items_select_prev ctx3) = list_view LittleEndian ctx3.
Proof. by vm_compute. Qed.

End Selection.

(* ===================================================================== *)
(** * Properties of the registry: find-or-create *)
(* ===================================================================== *)

Section FindCreate.

Implicit Types (ctx : tool_context_s) (st : list discovered_item_s) (l : list ptr).

(** *** The chains of the index *)

Lemma chain_of_app host h hs x base :
  chain_of host h (hs ++ [x]) base =
  chain_of host h hs base ++ (if hash_of host x =? h then [(base + length hs)%nat] else []).
Proof.
  revert base. induction hs as [|y hs IH]; intros base; simpl.
  - rewrite Nat.add_0_r. by destruct (hash_of host x =? h).
  - rewrite IH. replace (S base + length hs)%nat with (base + S (length hs))%nat by lia.
    by destruct (hash_of host y =? h).
Qed.

Lemma elem_of_chain_of host h hs base p :
  p ∈ chain_of host h hs base ↔
  (base ≤ p)%nat ∧ ∃ x, hs !! (p - base)%nat = Some x ∧ hash_of host x = h.
Proof.
  revert base. induction hs as [|y hs IH]; intros base; simpl.
  - split; [by intros ?%elem_of_nil|]. by intros (_ & x & ? & _).
  - assert (Htail : p ∈ chain_of host h hs (S base) ↔
                    (S base ≤ p)%nat ∧
                    ∃ x, (y :: hs) !! (p - base)%nat = Some x ∧ hash_of host x = h).
    { rewrite IH. split; intros (Hle & x & Hx & Hh); (split; [lia|]); exists x; split; try done.
      - replace (p - base)%nat with (S (p - S base)) by lia. done.
      - replace (p - base)%nat with (S (p - S base)) in Hx by lia. done. }
    destruct (Z.eqb_spec (hash_of host y) h) as [Hy|Hy].
    + rewrite elem_of_cons, Htail. split.
      * intros [->|(Hle & x & Hx & Hh)].
        -- split; [lia|]. exists y. by rewrite Nat.sub_diag.
        -- split; [lia|]. by exists x.
      * intros (Hle & x & Hx & Hh). destruct (decide (p = base)) as [->|Hne]; [by left|].
        right. split; [lia|]. by exists x.
    + rewrite Htail. split.
      * intros (Hle & x & Hx & Hh). split; [lia|]. by exists x.
      * intros (Hle & x & Hx & Hh). destruct (decide (p = base)) as [->|Hne].
        -- rewrite Nat.sub_diag in Hx. simpl in Hx. congruence.
        -- split; [lia|]. by exists x.
Qed.

Lemma length_chain_of host h hs base :
  length (chain_of host h hs base) = length (filter (λ x, hash_of host x = h) hs).
Proof.
  revert base. induction hs as [|y hs IH]; intros base; simpl; [done|].
  rewrite filter_cons. destruct (Z.eqb_spec (hash_of host y) h).
  - rewrite decide_True by done. simpl. by rewrite IH.
  - rewrite decide_False by done. by rewrite IH.
Qed.

(** *** The search *)

Lemma network_addr_compare_headers ip udp r :
  (network_addr_compare ip udp (di_iphdr r) (di_udphdr r) =? 1) = true ↔ headers r = (ip, udp).
Proof.
  unfold network_addr_compare, headers.
  destruct r as [eth [sa da] [sp dp] ? ? ? ?], ip as [sa' da'], udp as [sp' dp']; simpl.
  destruct (Z.eqb_spec sa' sa), (Z.eqb_spec da' da), (Z.eqb_spec sp' sp), (Z.eqb_spec dp' dp);
    simpl; split; try done; try (intros [= ? ? ? ?]; lia).
  intros _. by subst.
Qed.

Lemma four_tuple_headers ip udp ip' udp' :
  four_tuple ip udp = four_tuple ip' udp' ↔ (ip, udp) = (ip', udp').
Proof.
  unfold four_tuple. destruct ip, udp, ip', udp'; simpl.
  split; intros [= ? ? ? ?]; by subst.
Qed.

(** The loop with its fuel is the search of the first match in the part of
    the chain that is still ahead. *)
Lemma findcreate_enum_find fuel st idx hash ip udp k :
  (length (slot idx hash) - k < fuel)%nat →
  findcreate_enum fuel st idx hash ip udp k = chain_find st ip udp (drop k (slot idx hash)).
Proof.
  revert k. induction fuel as [|fuel IH]; intros k Hfuel; [lia|].
  simpl. unfold hash_index_get_enum.
  destruct (slot idx hash !! k) as [item|] eqn:Hk.
  - rewrite (drop_S _ _ _ Hk). simpl.
    apply lookup_lt_Some in Hk.
    destruct (st !! item) as [r|]; [|apply IH; lia].
    destruct (network_addr_compare ip udp (di_iphdr r) (di_udphdr r) =? 1); [done|].
    apply IH; lia.
  - apply lookup_ge_None in Hk. by rewrite drop_ge.
Qed.

Lemma findcreate_lookup_find host ctx ip udp :
  findcreate_lookup host ctx ip udp =
  chain_find (store ctx) ip udp (slot (hashIndex ctx) (_compute_stream_hash host ip udp)).
Proof.
  unfold findcreate_lookup, hash_index_get_count.
  destruct (Z.leb_spec 1 (Z.of_nat (length (slot (hashIndex ctx) (_compute_stream_hash host ip udp)))))
    as [Hc|Hc].
  - rewrite findcreate_enum_find by lia. by rewrite drop_0.
  - destruct (slot (hashIndex ctx) (_compute_stream_hash host ip udp)); [done|simpl in Hc; lia].
Qed.

Lemma chain_find_Some st ip udp l p :
  chain_find st ip udp l = Some p →
  p ∈ l ∧ ∃ r, st !! p = Some r ∧ headers r = (ip, udp).
Proof.
  induction l as [|e l IH]; [done|]. simpl.
  destruct (st !! e) as [r|] eqn:He.
  - destruct (network_addr_compare ip udp (di_iphdr r) (di_udphdr r) =? 1) eqn:Hc.
    + intros [= <-]. split; [by left|]. exists r. split; [done|].
      by apply network_addr_compare_headers.
    + intros [Hin Hr]%IH. split; [by right|done].
  - intros [Hin Hr]%IH. split; [by right|done].
Qed.

Lemma chain_find_complete st ip udp l p r :
  p ∈ l → st !! p = Some r → headers r = (ip, udp) →
  is_Some (chain_find st ip udp l).
Proof.
  intros Hin Hp Hr. induction l as [|e l IH]; [by apply elem_of_nil in Hin|].
  simpl. destruct (st !! e) as [r'|] eqn:He.
  - destruct (network_addr_compare ip udp (di_iphdr r') (di_udphdr r') =? 1) eqn:Hc; [done|].
    apply elem_of_cons in Hin as [->|Hin]; [|by apply IH].
    rewrite Hp in He. injection He as <-.
    apply network_addr_compare_headers in Hr. congruence.
  - apply elem_of_cons in Hin as [->|Hin]; [congruence|by apply IH].
Qed.

(** Under the invariant the search finds the record of the flow when there
    is one, and nothing otherwise. *)
Lemma findcreate_lookup_hit host ctx ip udp p :
  index_inv host ctx → (headers <$> store ctx) !! p = Some (ip, udp) →
  findcreate_lookup host ctx ip udp = Some p.
Proof.
  intros [Hnd Hidx] Hp. rewrite findcreate_lookup_find, Hidx.
  set (h := _compute_stream_hash host ip udp).
  pose proof Hp as Hp'. rewrite list_lookup_fmap in Hp'.
  destruct (store ctx !! p) as [r|] eqn:Hr; [|done].
  assert (Hhr : headers r = (ip, udp)) by (simpl in Hp'; congruence).
  destruct (chain_find_complete (store ctx) ip udp (chain_of host h (headers <$> store ctx) 0) p r)
    as [q Hq]; [|done|done|].
  { apply elem_of_chain_of. split; [lia|]. exists (ip, udp).
    rewrite Nat.sub_0_r. done. }
  rewrite Hq. f_equal.
  apply chain_find_Some in Hq as (_ & r' & Hr' & Hhr').
  eapply (NoDup_lookup _ _ _ _ Hnd); [|exact Hp].
  by rewrite list_lookup_fmap, Hr', <- Hhr'.
Qed.

Lemma findcreate_lookup_miss host ctx ip udp :
  (ip, udp) ∉ headers <$> store ctx → findcreate_lookup host ctx ip udp = None.
Proof.
  intros Hnot. rewrite findcreate_lookup_find.
  destruct (chain_find _ _ _ _) as [p|] eqn:Hf; [|done].
  apply chain_find_Some in Hf as (_ & r & Hr & Hhr).
  exfalso. apply Hnot. rewrite <- Hhr. apply list_elem_of_fmap_2.
  apply list_elem_of_lookup. by exists p.
Qed.

(** *** The ordered insertion *)

Lemma flags_grow_refl st : flags_grow st st.
Proof. by split. Qed.

Lemma flags_grow_trans st1 st2 st3 :
  flags_grow st1 st2 → flags_grow st2 st3 → flags_grow st1 st3.
Proof. intros [H1 F1] [H2 F2]. split; [congruence|]. eauto. Qed.

Lemma flags_grow_alter st p m :
  flags_grow st (alter (discovered_item_state_set m) p st).
Proof.
  split.
  - rewrite (list_fmap_alter headers (discovered_item_state_set m) id).
    + by apply list_alter_id.
    + by apply Forall_true.
  - intros q m' Hq. rewrite list_lookup_total_alter. case_decide as Hd; [|done].
    destruct Hd as [-> _]. by apply state_test_set_keeps.
Qed.

Lemma flags_grow_length st st' : flags_grow st st' → length st' = length st.
Proof. intros [H _]. by rewrite <- (length_fmap headers st'), H, length_fmap. Qed.

Lemma flags_grow_headers st st' p :
  flags_grow st st' → headers (st' !!! p) = headers (st !!! p).
Proof.
  intros Hg. pose proof (flags_grow_length _ _ Hg) as Hlen. destruct Hg as [Hh _].
  destruct (decide (p < length st)%nat) as [Hp|Hp].
  - rewrite <- (list_lookup_total_fmap headers st' p) by lia.
    rewrite <- (list_lookup_total_fmap headers st p) by lia. by rewrite Hh.
  - rewrite !list_lookup_total_alt, !lookup_ge_None_2 by lia. done.
Qed.

Lemma flags_grow_key host st st' p :
  flags_grow st st' → key_at host st' p = key_at host st p.
Proof.
  intros Hg. pose proof (flags_grow_headers _ _ p Hg) as Hh.
  unfold key_at, sort_key. unfold headers in Hh. by injection Hh as -> ->.
Qed.

(** Where the walk puts the new record: after the entries with a smaller
    key, before the first entry whose key is not smaller, and with the
    duplicate flag on both when the two keys are equal. *)
Lemma discovered_item_insert_walk_spec host st di l :
  ∃ l1 l2,
    l = l1 ++ l2 ∧
    snd (discovered_item_insert_walk host st di l) = l1 ++ di :: l2 ∧
    (∀ e, e ∈ l1 → key_at host st e < key_at host st di) ∧
    match l2 with
    | [] => fst (discovered_item_insert_walk host st di l) = st
    | e :: _ =>
        key_at host st di ≤ key_at host st e ∧
        fst (discovered_item_insert_walk host st di l) =
          if key_at host st e =? key_at host st di
          then alter (discovered_item_state_set DI_STATE_DST_DUPLICATE) e
                 (alter (discovered_item_state_set DI_STATE_DST_DUPLICATE) di st)
          else st
    end.
Proof.
  induction l as [|e rest IH]; simpl.
  - exists [], []. repeat split; try done. by intros ? ?%elem_of_nil.
  - fold (key_at host st e) (key_at host st di).
    destruct (Z.ltb_spec (key_at host st e) (key_at host st di)) as [Hlt|Hge].
    + destruct IH as (l1 & l2 & -> & Hsnd & Hsmall & Hhead).
      destruct (discovered_item_insert_walk host st di (l1 ++ l2)) as [st' rest'].
      simpl in *. exists (e :: l1), l2. repeat split; try done.
      * by rewrite Hsnd.
      * intros x [->|Hx]%elem_of_cons; [done|by apply Hsmall].
    + exists [], (e :: rest). simpl.
      repeat split; try done; try lia. by intros ? ?%elem_of_nil.
Qed.

Lemma discovered_item_insert_walk_grow host st di l :
  flags_grow st (fst (discovered_item_insert_walk host st di l)).
Proof.
  destruct (discovered_item_insert_walk_spec host st di l) as (l1 & l2 & _ & _ & _ & Hst).
  destruct l2 as [|e l2]; [rewrite Hst; apply flags_grow_refl|].
  destruct Hst as [_ ->]. destruct (_ =? _); [|apply flags_grow_refl].
  eapply flags_grow_trans; apply flags_grow_alter.
Qed.

Lemma StronglySorted_weaken {A} (R R' : A → A → Prop) (l : list A) :
  (∀ x y, R x y → R' x y) → StronglySorted R l → StronglySorted R' l.
Proof.
  intros HR. induction 1 as [|x l _ IH Hall]; constructor; [done|].
  eapply Forall_impl; [exact Hall|]. auto.
Qed.

Lemma list_inv_flags_grow host st st' l :
  list_inv host st l → flags_grow st st' → list_inv host st' l.
Proof.
  intros [Hnd Hr Hs Hd] Hg. split.
  - done.
  - intros p. rewrite (flags_grow_length _ _ Hg). apply Hr.
  - eapply StronglySorted_weaken; [|exact Hs]. simpl; intros p q.
    by rewrite !(flags_grow_key host st st' _ Hg).
  - intros p q Hp Hq Hne Hk. rewrite !(flags_grow_key host st st' _ Hg) in Hk.
    destruct (Hd p q Hp Hq Hne Hk) as [Fp Fq]. destruct Hg as [_ Hf].
    split; by apply Hf.
Qed.

Lemma StronglySorted_weaken_in {A} (R R' : A → A → Prop) (l : list A) :
  (∀ x y, x ∈ l → y ∈ l → R x y → R' x y) → StronglySorted R l → StronglySorted R' l.
Proof.
  intros HR Hs. induction Hs as [|x l Hs IH Hall]; constructor.
  - apply IH. intros y z Hy Hz. apply HR; by right.
  - apply Forall_forall. intros y Hy. apply HR; [by left|by right|].
    by eapply Forall_forall in Hall.
Qed.

Lemma DI_STATE_DST_DUPLICATE_nonzero : DI_STATE_DST_DUPLICATE ≠ 0.
Proof. done. Qed.

(** The ordered insertion of a freshly allocated record keeps the list
    invariant. *)
Lemma discovered_item_insert_inv host st r l :
  list_inv host st l →
  list_inv host (fst (discovered_item_insert host (st ++ [r]) l (length st)))
                (snd (discovered_item_insert host (st ++ [r]) l (length st))).
Proof.
  intros [Hnd Hr Hs Hd]. unfold discovered_item_insert.
  set (st0 := st ++ [r]). set (di := length st).
  pose proof (discovered_item_insert_walk_grow host st0 di l) as Hg.
  destruct (discovered_item_insert_walk_spec host st0 di l)
    as (l1 & l2 & Hl & Hsnd & Hsmall & Hhead).
  set (st' := fst (discovered_item_insert_walk host st0 di l)) in *.
  rewrite Hsnd. clear Hsnd.
  assert (Hold : ∀ p, p ∈ l → st0 !!! p = st !!! p).
  { intros p Hp%Hr. unfold st0. by rewrite lookup_total_app_l. }
  assert (Hkey : ∀ p, p ∈ l → key_at host st0 p = key_at host st p).
  { intros p Hp. unfold key_at. by rewrite Hold. }
  assert (Hdi : di ∉ l) by (intros Hin%Hr; unfold di in Hin; lia).
  assert (Hlen0 : length st0 = S di) by (unfold st0, di; rewrite length_app; simpl; lia).
  assert (Hs0 : StronglySorted (λ p q, key_at host st0 p ≤ key_at host st0 q) l).
  { eapply StronglySorted_weaken_in; [|exact Hs]. simpl. intros x y Hx Hy.
    by rewrite !Hkey. }
  subst l.
  apply NoDup_app in Hnd as (Hnd1 & Hnd12 & Hnd2).
  apply StronglySorted_app in Hs0 as (Hs12 & Hs1 & Hs2).
  assert (Hl2 : ∀ y, y ∈ l2 → key_at host st0 di ≤ key_at host st0 y).
  { destruct l2 as [|e l2']; [by intros ? ?%elem_of_nil|].
    destruct Hhead as [Hle _]. apply StronglySorted_cons in Hs2 as [Hall _].
    intros y [->|Hy]%elem_of_cons; [done|].
    eapply Forall_forall in Hall; [|exact Hy]. simpl in Hall. lia. }
  assert (Hpair : ∀ q, q ∈ l1 ++ l2 → key_at host st0 q = key_at host st0 di →
                       flagged st' di DI_STATE_DST_DUPLICATE ∧
                       flagged st' q DI_STATE_DST_DUPLICATE).
  { intros q Hq Hk. apply elem_of_app in Hq as [Hq|Hq].
    { specialize (Hsmall q Hq). lia. }
    destruct l2 as [|e l2']; [by apply elem_of_nil in Hq|].
    destruct Hhead as [Hle Hst].
    assert (Hek : key_at host st0 e = key_at host st0 di).
    { apply StronglySorted_cons in Hs2 as [Hall _].
      apply elem_of_cons in Hq as [->|Hq]; [done|].
      eapply Forall_forall in Hall; [|exact Hq]. simpl in Hall. lia. }
    rewrite Hek, Z.eqb_refl in Hst.
    assert (Hne : e ≠ di) by (intros ->; apply Hdi, elem_of_app; right; by left).
    assert (Hfdi : flagged st' di DI_STATE_DST_DUPLICATE).
    { unfold flagged. rewrite Hst, list_lookup_total_alter_ne by done.
      rewrite list_lookup_total_alter_eq by lia.
      apply state_test_set_same, DI_STATE_DST_DUPLICATE_nonzero. }
    assert (Hfe : flagged st' e DI_STATE_DST_DUPLICATE).
    { unfold flagged. rewrite Hst, list_lookup_total_alter_eq.
      - apply state_test_set_same, DI_STATE_DST_DUPLICATE_nonzero.
      - rewrite length_alter, Hlen0.
        assert (e ∈ l1 ++ e :: l2') as He%Hr by (apply elem_of_app; right; by left).
        unfold di. lia. }
    split; [done|].
    destruct (decide (q = e)) as [->|Hqe]; [done|].
    assert (Hq' : q ∈ l1 ++ e :: l2') by (apply elem_of_app; by right).
    assert (He' : e ∈ l1 ++ e :: l2') by (apply elem_of_app; right; by left).
    destruct (Hd q e Hq' He' Hqe) as [Fq _].
    { rewrite <- !Hkey by done. lia. }
    destruct Hg as [_ Hf]. apply Hf. unfold flagged in Fq. by rewrite Hold. }
  split.
  - apply NoDup_app. split; [done|]. split.
    + intros x Hx [->|Hx2]%elem_of_cons.
      * apply Hdi, elem_of_app. by left.
      * by apply (Hnd12 x).
    + apply NoDup_cons. split; [|done]. intros Hin. apply Hdi, elem_of_app. by right.
  - intros p. rewrite (flags_grow_length _ _ Hg), Hlen0.
    rewrite elem_of_app, elem_of_cons. specialize (Hr p).
    rewrite elem_of_app in Hr. unfold di in *. split.
    + intros [H1|[->|H2]]; [|lia|]; assert (p < length st)%nat by (apply Hr; auto); lia.
    + intros Hp. destruct (decide (p = length st)) as [->|Hne]; [auto|].
      destruct (proj2 Hr) as [?|?]; [lia|auto|auto].
  - eapply (StronglySorted_weaken (λ p q, key_at host st0 p ≤ key_at host st0 q)).
    { intros x y. by rewrite !(flags_grow_key host st0 st' _ Hg). }
    apply StronglySorted_app. split; [|split; [done|]].
    + intros x1 x2 Hx1 [->|Hx2]%elem_of_cons.
      * specialize (Hsmall x1 Hx1). lia.
      * by apply Hs12.
    + apply StronglySorted_cons. split; [|done]. by apply Forall_forall.
  - intros p q Hp Hq Hne Hk.
    rewrite !(flags_grow_key host st0 st' _ Hg) in Hk.
    rewrite elem_of_app, elem_of_cons in Hp, Hq.
    destruct (decide (p = di)) as [->|Hpd]; [|destruct (decide (q = di)) as [->|Hqd]].
    + apply Hpair; [|done]. rewrite elem_of_app.
      destruct Hq as [?|[?|?]]; [by left|congruence|by right].
    + apply and_comm. apply Hpair; [|done]. rewrite elem_of_app.
      destruct Hp as [?|[?|?]]; [by left|congruence|by right].
    + assert (Hp' : p ∈ l1 ++ l2).
      { rewrite elem_of_app. destruct Hp as [?|[?|?]]; [by left|congruence|by right]. }
      assert (Hq' : q ∈ l1 ++ l2).
      { rewrite elem_of_app. destruct Hq as [?|[?|?]]; [by left|congruence|by right]. }
      destruct (Hd p q Hp' Hq' Hne) as [Fp Fq].
      { rewrite <- !Hkey by done. done. }
      destruct Hg as [_ Hf]. unfold flagged in *.
      split; apply Hf; by rewrite Hold.
Qed.

(** *** One call of find-or-create *)

Lemma registry_inv_empty host auto : registry_inv host (empty_context auto).
Proof.
  split; [split|split]; simpl.
  - constructor.
  - done.
  - constructor.
  - intros p. split; [by intros ?%elem_of_nil|lia].
  - constructor.
  - by intros p q ?%elem_of_nil.
Qed.

Lemma findcreate_hit host mem ctx eth ip udp p :
  index_inv host ctx → (headers <$> store ctx) !! p = Some (ip, udp) →
  discovered_item_findcreate host mem ctx eth ip udp =
  (mk_tool_context (store ctx) (ctx_list ctx) (hashIndex ctx)
     (to_uint64 (cacheHit ctx + 1)) (cacheMiss ctx) (automaticallyRecordStreams ctx),
   Some p).
Proof.
  intros Hinv Hp. unfold discovered_item_findcreate.
  by rewrite (findcreate_lookup_hit host ctx ip udp p Hinv Hp).
Qed.

Lemma slot_hash_index_set_fresh idx h0 v h :
  v ∉ slot idx h0 →
  slot (hash_index_set idx h0 v) h = if decide (h0 = h) then slot idx h0 ++ [v] else slot idx h.
Proof.
  intros Hv. unfold hash_index_set. rewrite bool_decide_eq_false_2 by done.
  unfold slot at 1. rewrite lookup_insert. by case_decide.
Qed.

Lemma findcreate_miss host ctx eth ip udp :
  registry_inv host ctx → (ip, udp) ∉ headers <$> store ctx →
  ∃ ctx', discovered_item_findcreate host true ctx eth ip udp = (ctx', Some (length (store ctx))) ∧
          headers <$> store ctx' = (headers <$> store ctx) ++ [(ip, udp)] ∧
          registry_inv host ctx' ∧
          cacheMiss ctx' = to_uint64 (cacheMiss ctx + 1) ∧
          cacheHit ctx' = cacheHit ctx ∧
          automaticallyRecordStreams ctx' = automaticallyRecordStreams ctx.
Proof.
  intros [[Hnd Hidx] Hlist] Hnot. unfold discovered_item_findcreate.
  rewrite (findcreate_lookup_miss host ctx ip udp Hnot). simpl.
  set (r := mk_discovered_item eth ip udp 50000000 (-1) 0 0).
  pose proof (discovered_item_insert_inv host (store ctx) r (ctx_list ctx) Hlist) as Hl1.
  pose proof (discovered_item_insert_walk_grow host (store ctx ++ [r]) (length (store ctx))
                (ctx_list ctx)) as Hg1.
  unfold discovered_item_insert in *.
  destruct (discovered_item_insert_walk host (store ctx ++ [r]) (length (store ctx)) (ctx_list ctx))
    as [st1 l1]. simpl in Hl1, Hg1.
  set (st2 := if automaticallyRecordStreams ctx
              then alter (discovered_item_state_set DI_STATE_PCAP_RECORD_START)
                     (length (store ctx)) st1
              else st1).
  assert (Hg2 : flags_grow st1 st2).
  { unfold st2. destruct (automaticallyRecordStreams ctx);
      [apply flags_grow_alter|apply flags_grow_refl]. }
  assert (Hh : headers <$> st2 = (headers <$> store ctx) ++ [(ip, udp)]).
  { destruct Hg2 as [-> _]. destruct Hg1 as [-> _]. by rewrite fmap_app. }
  eexists; split; [reflexivity|]. simpl. split; [exact Hh|].
  split; [|done]. split; [split|]; simpl.
  - rewrite Hh. apply NoDup_app. split; [done|]. split; [|apply NoDup_singleton].
    intros x Hx ->%list_elem_of_singleton. done.
  - intros h. rewrite Hh, chain_of_app, slot_hash_index_set_fresh.
    + rewrite length_fmap. simpl. unfold hash_of; simpl.
      destruct (Z.eqb_spec (_compute_stream_hash host ip udp) h) as [->|Hne].
      * by rewrite decide_True, Hidx.
      * by rewrite decide_False, Hidx, app_nil_r.
    + rewrite Hidx. intros (_ & x & Hx & _)%elem_of_chain_of.
      apply lookup_lt_Some in Hx. rewrite length_fmap in Hx. lia.
  - by eapply list_inv_flags_grow.
Qed.

(** *** A run of find-or-create *)

Lemma findcreate_all_spec host ps ctx :
  registry_inv host ctx →
  ∃ ctx' rs,
    findcreate_all host ctx ps = (ctx', rs) ∧
    registry_inv host ctx' ∧
    (∃ ext, headers <$> store ctx' = (headers <$> store ctx) ++ ext) ∧
    ∀ i pk, ps !! i = Some pk →
            ∃ a, rs !! i = Some (Some a) ∧
                 (headers <$> store ctx') !! a = Some (packet_headers pk).
Proof.
  revert ctx. induction ps as [|[[eth ip] udp] ps IH]; intros ctx Hinv.
  - exists ctx, []. split; [done|]. split; [done|]. split; [exists []; by rewrite app_nil_r|].
    intros i pk Hi. done.
  - simpl.
    assert (Hstep : ∃ ctx1 a,
               discovered_item_findcreate host true ctx eth ip udp = (ctx1, Some a) ∧
               registry_inv host ctx1 ∧
               (∃ ext, headers <$> store ctx1 = (headers <$> store ctx) ++ ext) ∧
               (headers <$> store ctx1) !! a = Some (ip, udp)).
    { destruct (decide ((ip, udp) ∈ headers <$> store ctx)) as [Hin|Hnot].
      - apply list_elem_of_lookup in Hin as [a Ha].
        rewrite (findcreate_hit host true ctx eth ip udp a (proj1 Hinv) Ha).
        eexists _, a. split; [reflexivity|]. simpl. split; [by destruct Hinv|].
        split; [exists []; by rewrite app_nil_r|done].
      - destruct (findcreate_miss host ctx eth ip udp Hinv Hnot)
          as (ctx1 & Hfc & Hh & Hinv1 & _).
        exists ctx1, (length (store ctx)). split; [done|]. split; [done|].
        split; [by exists [(ip, udp)]|].
        rewrite Hh, lookup_app_r; rewrite length_fmap; [|lia].
        by rewrite Nat.sub_diag. }
    destruct Hstep as (ctx1 & a & -> & Hinv1 & [ext1 Hext1] & Ha).
    destruct (IH ctx1 Hinv1) as (ctx' & rs & -> & Hinv' & [ext Hext] & Hrs).
    exists ctx', (Some a :: rs). split; [done|]. split; [done|].
    split; [exists (ext1 ++ ext); by rewrite Hext, Hext1, app_assoc|].
    intros [|i] pk Hi; simpl in Hi.
    + injection Hi as <-. exists a. split; [done|].
      rewrite Hext. apply lookup_app_l_Some. exact Ha.
    + by apply Hrs.
Qed.

(** C1.  Over any run of [discovered_item_findcreate] from the empty
    registry in which every allocation succeeds, each call returns a record
    whose 4-tuple is the one of its packet, and two calls return the same
    record if and only if the 4-tuples of their packets are equal. *)
Theorem C1_same_record_iff_same_four_tuple host auto ps :
  ∃ ctx rs,
    findcreate_all host (empty_context auto) ps = (ctx, rs) ∧
    (∀ i pk, ps !! i = Some pk →
             ∃ a r, rs !! i = Some (Some a) ∧ store ctx !! a = Some r ∧
                    four_tuple (di_iphdr r) (di_udphdr r) = packet_tuple pk) ∧
    (∀ i j pi pj, ps !! i = Some pi → ps !! j = Some pj →
                  ∃ a b, rs !! i = Some (Some a) ∧ rs !! j = Some (Some b) ∧
                         (a = b ↔ packet_tuple pi = packet_tuple pj)).
Proof.
  destruct (findcreate_all_spec host ps (empty_context auto) (registry_inv_empty host auto))
    as (ctx & rs & Hrun & [[Hnd _] _] & _ & Hrs).
  exists ctx, rs. split; [done|]. split.
  - intros i pk Hi. destruct (Hrs i pk Hi) as (a & Ha & Hh). exists a.
    rewrite list_lookup_fmap in Hh. destruct (store ctx !! a) as [r|]; [|done].
    exists r. split; [done|]. split; [done|].
    apply four_tuple_headers. unfold headers, packet_headers in Hh. simpl in Hh. congruence.
  - intros i j pi pj Hi Hj.
    destruct (Hrs i pi Hi) as (a & Ha & Hha). destruct (Hrs j pj Hj) as (b & Hb & Hhb).
    exists a, b. split; [done|]. split; [done|].
    unfold packet_tuple. rewrite four_tuple_headers. split.
    + intros ->. rewrite Hha in Hhb. unfold packet_headers in Hhb. congruence.
    + intros Heq. eapply (NoDup_lookup _ _ _ _ Hnd); [exact Hha|].
      rewrite Hhb. unfold packet_headers. by rewrite Heq.
Qed.

(** The list is in ascending order of the key the code compares. *)
Lemma registry_list_sorted host auto ps :
  StronglySorted Z.le
    (list_keys (sort_key host) (fst (findcreate_all host (empty_context auto) ps))).
Proof.
  destruct (findcreate_all_spec host ps (empty_context auto) (registry_inv_empty host auto))
    as (ctx & rs & -> & [_ [_ _ Hs _]] & _). simpl.
  unfold list_keys. induction Hs as [|p l _ IH Hall]; [constructor|].
  rewrite fmap_cons. constructor; [done|].
  apply Forall_fmap. eapply Forall_impl; [exact Hall|]. done.
Qed.

(** C5.  After any run of [discovered_item_findcreate] from the empty
    registry, two distinct records of the list with the same destination
    address and the same destination port both carry DST_DUPLICATE. *)
Theorem C5_same_destination_flagged_duplicate host auto ps p q r1 r2 :
  let ctx := fst (findcreate_all host (empty_context auto) ps) in
  p ∈ ctx_list ctx → q ∈ ctx_list ctx → p ≠ q →
  store ctx !! p = Some r1 → store ctx !! q = Some r2 →
  daddr (di_iphdr r1) = daddr (di_iphdr r2) →
  uh_dport (di_udphdr r1) = uh_dport (di_udphdr r2) →
  state_test r1 DI_STATE_DST_DUPLICATE = true ∧ state_test r2 DI_STATE_DST_DUPLICATE = true.
Proof.
  destruct (findcreate_all_spec host ps (empty_context auto) (registry_inv_empty host auto))
    as (ctx & rs & -> & [_ [_ _ _ Hd]] & _). simpl.
  intros Hp Hq Hne Hr1 Hr2 Ha Hport.
  destruct (Hd p q Hp Hq Hne) as [Fp Fq].
  - unfold key_at. rewrite (list_lookup_total_correct _ _ _ Hr1),
      (list_lookup_total_correct _ _ _ Hr2). unfold sort_key. by rewrite Ha, Hport.
  - unfold flagged in *. by rewrite (list_lookup_total_correct _ _ _ Hr1) in Fp;
      rewrite (list_lookup_total_correct _ _ _ Hr2) in Fq.
Qed.

(** C5 on three flows from different sources to 10.0.0.1:4000. *)
Lemma C5_same_destination_witness :
  let ctx := fst (findcreate_all LittleEndian (empty_context true) three_flows_one_destination) in
  (0%nat ∈ ctx_list ctx ∧ 2%nat ∈ ctx_list ctx) ∧
  state_test (store ctx !!! 0%nat) DI_STATE_DST_DUPLICATE = true ∧
  state_test (store ctx !!! 2%nat) DI_STATE_DST_DUPLICATE = true.
Proof.
  intros ctx.
  assert (H0 : (0%nat ∈ ctx_list ctx)).
  { vm_compute. apply list_elem_of_In. simpl. tauto. }
  assert (H2 : (2%nat ∈ ctx_list ctx)).
  { vm_compute. apply list_elem_of_In. simpl. tauto. }
  split; [by split|].
  apply (C5_same_destination_flagged_duplicate LittleEndian true three_flows_one_destination
           0%nat 2%nat (store ctx !!! 0%nat) (store ctx !!! 2%nat)).
  - exact H0.
  - exact H2.
  - lia.
  - vm_compute. reflexivity.
  - vm_compute. reflexivity.
  - vm_compute. reflexivity.
  - vm_compute. reflexivity.
Defined.

(** C3 (the code departs from the claim on a little-endian host).  The key
    of the code takes [uh_dport] as it is stored, in network byte order.
    Flows to 10.0.0.1 with the ports 255 and 256, inserted in this order on a
    little-endian host, end up as 256 before 255: the keys of the spec, with
    the port in host order, descend along the list.  Ports 4001 and 4002 end
    up in ascending order, and so do 255 and 256 on a big-endian host. *)
Theorem C3_list_not_sorted_by_host_order_port :
  let run host d1 d2 :=
    fst (findcreate_all host (empty_context false)
           [flow_packet host 0xC0A80001 5000 0x0A000001 d1;
            flow_packet host 0xC0A80001 5000 0x0A000001 d2]) in
  list_view LittleEndian (run LittleEndian 255 256) = [(256, 0); (255, 0)] ∧
  list_keys (spec_sort_key LittleEndian) (run LittleEndian 255 256)
    = [0x0A0000010100; 0x0A00000100FF] ∧
  list_keys (sort_key LittleEndian) (run LittleEndian 255 256)
    = [0x0A0000010001; 0x0A000001FF00] ∧
  list_view LittleEndian (run LittleEndian 4001 4002) = [(4001, 0); (4002, 0)] ∧
  list_view BigEndian (run BigEndian 255 256) = [(255, 0); (256, 0)].
Proof. by vm_compute. Qed.

(** *** Byte order and the hash *)

Lemma bswap16_involutive x : 0 ≤ x < 2 ^ 16 → bswap16 (bswap16 x) = x.
Proof. intros Hx. unfold bswap16. Z.div_mod_to_equations; lia. Qed.

Lemma bytes_digits a b c d :
  0 ≤ a < 256 → 0 ≤ b < 256 → 0 ≤ c < 256 → 0 ≤ d < 256 →
  let v := a * 2 ^ 24 + b * 2 ^ 16 + c * 2 ^ 8 + d in
  v mod 256 = d ∧ (v / 2 ^ 8) mod 256 = c ∧ (v / 2 ^ 16) mod 256 = b ∧ (v / 2 ^ 24) mod 256 = a.
Proof.
  intros Ha Hb Hc Hd v.
  assert (H1 : v / 2 ^ 8 = a * 2 ^ 16 + b * 2 ^ 8 + c).
  { symmetry. apply (Z.div_unique _ _ _ d); lia. }
  assert (H2 : v / 2 ^ 16 = a * 2 ^ 8 + b).
  { symmetry. apply (Z.div_unique _ _ _ (c * 2 ^ 8 + d)); lia. }
  assert (H3 : v / 2 ^ 24 = a).
  { symmetry. apply (Z.div_unique _ _ _ (b * 2 ^ 16 + c * 2 ^ 8 + d)); lia. }
  rewrite H1, H2, H3. repeat split.
  - symmetry. apply (Z.mod_unique _ _ (a * 2 ^ 16 + b * 2 ^ 8 + c)); lia.
  - symmetry. apply (Z.mod_unique _ _ (a * 2 ^ 8 + b)); lia.
  - symmetry. apply (Z.mod_unique _ _ a); lia.
  - apply Z.mod_small; lia.
Qed.

Lemma bytes_sum x :
  0 ≤ x < 2 ^ 32 →
  x = ((x / 2 ^ 24) mod 256) * 2 ^ 24 + ((x / 2 ^ 16) mod 256) * 2 ^ 16
      + ((x / 2 ^ 8) mod 256) * 2 ^ 8 + x mod 256.
Proof.
  intros Hx.
  pose proof (Z.div_mod x 256 ltac:(lia)).
  pose proof (Z.div_mod (x / 2 ^ 8) 256 ltac:(lia)).
  pose proof (Z.div_mod (x / 2 ^ 16) 256 ltac:(lia)).
  assert (x / 2 ^ 16 = x / 2 ^ 8 / 256) by (rewrite Z.div_div by lia; done).
  assert (x / 2 ^ 24 = x / 2 ^ 16 / 256) by (rewrite Z.div_div by lia; done).
  assert ((x / 2 ^ 24) mod 256 = x / 2 ^ 24).
  { apply Z.mod_small. split; [apply Z.div_pos; lia|apply Z.div_lt_upper_bound; lia]. }
  change (2 ^ 8) with 256 in *. lia.
Qed.

Lemma bswap32_involutive x : 0 ≤ x < 2 ^ 32 → bswap32 (bswap32 x) = x.
Proof.
  intros Hx. unfold bswap32 at 1.
  assert (Hb : ∀ y, 0 ≤ y mod 256 < 256) by (intros; apply Z.mod_pos_bound; lia).
  destruct (bytes_digits (x mod 256) ((x / 2 ^ 8) mod 256) ((x / 2 ^ 16) mod 256)
              ((x / 2 ^ 24) mod 256)) as (H0 & H1 & H2 & H3); try apply Hb.
  fold (bswap32 x) in H0, H1, H2, H3. rewrite H0, H1, H2, H3.
  rewrite (bytes_sum x Hx) at 5. lia.
Qed.

Lemma ntohs_htons host x : 0 ≤ x < 2 ^ 16 → ntohs host (htons host x) = x.
Proof.
  intros Hx. unfold htons, ntohs. destruct host.
  - by apply bswap16_involutive.
  - unfold to_uint16. rewrite !(Z.mod_small x) by lia. done.
Qed.

Lemma ntohl_htonl host x : 0 ≤ x < 2 ^ 32 → ntohl host (htonl host x) = x.
Proof.
  intros Hx. unfold htonl, ntohl. destruct host.
  - by apply bswap32_involutive.
  - unfold to_uint32. rewrite !(Z.mod_small x) by lia. done.
Qed.

(** The low four bits of the hash are the low four bits of the port. *)
Lemma hash_low_nibble A P : hash_index_cal_hash A P mod 16 = P mod 16.
Proof.
  rewrite <- !(Z.land_ones _ 4) by lia. change (Z.ones 4) with 15.
  unfold hash_index_cal_hash, to_uint16.
  rewrite <- (Z.land_ones _ 16) by lia.
  rewrite <- !Z.land_assoc. change (Z.land (Z.ones 16) 15) with 15.
  rewrite Z.land_lor_distr_l, <- !Z.land_assoc.
  change (Z.land 0xfff0 15) with 0. change (Z.land 0x000f 15) with 15.
  by rewrite Z.land_0_r, Z.lor_0_l.
Qed.

Lemma nibble_count_16 r k : 0 ≤ r < 16 → 0 ≤ k < 16 → nibble_count r k = 16%nat.
Proof.
  intros Hr Hk.
  assert (Hall : forallb (λ r, forallb (λ k, Nat.eqb (nibble_count r k) 16) (seqZ 0 16))
                   (seqZ 0 16) = true) by (vm_compute; reflexivity).
  rewrite forallb_forall in Hall.
  assert (Hr' : In r (seqZ 0 16)) by (apply list_elem_of_In, elem_of_seqZ; lia).
  specialize (Hall r Hr'). cbv beta in Hall. rewrite forallb_forall in Hall.
  assert (Hk' : In k (seqZ 0 16)) by (apply list_elem_of_In, elem_of_seqZ; lia).
  by apply Nat.eqb_eq, Hall.
Qed.

Lemma length_filter_fmap_le {A B} (f : A → B) (P : B → Prop) (Q : A → Prop)
    `{!∀ x, Decision (P x)} `{!∀ x, Decision (Q x)} (l : list A) :
  (∀ x, x ∈ l → P (f x) → Q x) →
  (length (filter P (f <$> l)) ≤ length (filter Q l))%nat.
Proof.
  induction l as [|x l IH]; intros HPQ; [done|].
  rewrite fmap_cons, !filter_cons.
  assert (IH' : (length (filter P (f <$> l)) ≤ length (filter Q l))%nat).
  { apply IH. intros y Hy. apply HPQ. by right. }
  destruct (decide (P (f x))) as [HP|HP].
  - rewrite decide_True by (apply HPQ; [by left|done]). simpl. lia.
  - destruct (decide (Q x)); simpl; lia.
Qed.

Lemma length_filter_le {A} (P Q : A → Prop)
    `{!∀ x, Decision (P x)} `{!∀ x, Decision (Q x)} (l : list A) :
  (∀ x, x ∈ l → P x → Q x) → (length (filter P l) ≤ length (filter Q l))%nat.
Proof.
  intros HPQ. pose proof (length_filter_fmap_le id P Q l HPQ) as Hle.
  by rewrite list_fmap_id in Hle.
Qed.

(** Of 256 consecutive ports at most 16 share a hash. *)
Lemma contiguous_ports_per_hash A P0 h :
  (length (filter (λ i : nat, hash_index_cal_hash A (P0 + Z.of_nat i) = h) (seq 0 256)) ≤ 16)%nat.
Proof.
  etransitivity;
    [|apply Nat.eq_le_incl, (nibble_count_16 (P0 mod 16) (h mod 16)); apply Z.mod_pos_bound; lia].
  unfold nibble_count.
  apply (length_filter_le (λ i : nat, hash_index_cal_hash A (P0 + Z.of_nat i) = h)
           (λ i : nat, (P0 mod 16 + Z.of_nat i) mod 16 = h mod 16)).
  intros i _ <-.
  rewrite hash_low_nibble. by rewrite Zplus_mod_idemp_l.
Qed.

(** *** Runs of misses and runs of hits *)

Lemma to_uint64_succ c n : to_uint64 (to_uint64 (c + 1) + n) = to_uint64 (c + (1 + n)).
Proof. unfold to_uint64. rewrite Zplus_mod_idemp_l. f_equal; lia. Qed.

(** Packets of flows that are new and pairwise different: every call
    allocates, in the order of the packets. *)
Lemma findcreate_all_misses host ps ctx :
  registry_inv host ctx →
  NoDup ((headers <$> store ctx) ++ (packet_headers <$> ps)) →
  0 ≤ cacheMiss ctx < 2 ^ 64 →
  ∃ ctx',
    findcreate_all host ctx ps = (ctx', Some <$> seq (length (store ctx)) (length ps)) ∧
    registry_inv host ctx' ∧
    headers <$> store ctx' = (headers <$> store ctx) ++ (packet_headers <$> ps) ∧
    cacheMiss ctx' = to_uint64 (cacheMiss ctx + Z.of_nat (length ps)) ∧
    cacheHit ctx' = cacheHit ctx.
Proof.
  revert ctx. induction ps as [|[[eth ip] udp] ps IH]; intros ctx Hinv Hnd Hrange.
  - exists ctx. simpl. rewrite app_nil_r, Z.add_0_r, to_uint64_small by done. done.
  - simpl in *. change (packet_headers (eth, ip, udp)) with (ip, udp) in Hnd.
    assert (Hnot : (ip, udp) ∉ headers <$> store ctx).
    { apply NoDup_app in Hnd as (_ & Hdisj & _). intros Hin.
      apply (Hdisj _ Hin). by left. }
    destruct (findcreate_miss host ctx eth ip udp Hinv Hnot)
      as (ctx1 & -> & Hh1 & Hinv1 & Hm1 & Hc1 & _).
    assert (Hlen1 : length (store ctx1) = S (length (store ctx))).
    { rewrite <- (length_fmap headers (store ctx1)), Hh1, length_app, length_fmap. simpl. lia. }
    destruct (IH ctx1 Hinv1) as (ctx' & -> & Hinv' & Hh' & Hm' & Hc').
    { rewrite Hh1, <- app_assoc. done. }
    { rewrite Hm1. unfold to_uint64. apply Z.mod_pos_bound. lia. }
    exists ctx'. rewrite Hlen1. split; [done|]. split; [done|].
    split; [by rewrite Hh', Hh1, <- app_assoc|].
    split; [|congruence].
    rewrite Hm', Hm1, to_uint64_succ. f_equal. lia.
Qed.

(** Packets of flows the registry holds at the positions [base], [base+1],
    ...: every call is a hit and nothing but [cacheHit] changes. *)
Lemma findcreate_all_hits host ps ctx base :
  index_inv host ctx →
  (∀ i pk, ps !! i = Some pk →
           (headers <$> store ctx) !! (base + i)%nat = Some (packet_headers pk)) →
  0 ≤ cacheHit ctx < 2 ^ 64 →
  ∃ ctx',
    findcreate_all host ctx ps = (ctx', Some <$> seq base (length ps)) ∧
    store ctx' = store ctx ∧ ctx_list ctx' = ctx_list ctx ∧
    hashIndex ctx' = hashIndex ctx ∧ cacheMiss ctx' = cacheMiss ctx ∧
    cacheHit ctx' = to_uint64 (cacheHit ctx + Z.of_nat (length ps)).
Proof.
  revert ctx base. induction ps as [|[[eth ip] udp] ps IH]; intros ctx base Hinv Hps Hrange.
  - exists ctx. simpl. rewrite Z.add_0_r, to_uint64_small by done. done.
  - simpl.
    rewrite (findcreate_hit host true ctx eth ip udp base Hinv).
    2:{ specialize (Hps 0%nat _ eq_refl). by rewrite Nat.add_0_r in Hps. }
    set (ctx1 := mk_tool_context _ _ _ _ _ _).
    destruct (IH ctx1 (S base)) as (ctx' & -> & Hs & Hl & Hi & Hm & Hc).
    { done. }
    { intros i pk Hi. specialize (Hps (S i) pk Hi).
      by replace (S base + i)%nat with (base + S i)%nat by lia. }
    { simpl. unfold to_uint64. apply Z.mod_pos_bound. lia. }
    exists ctx'. repeat split; try done.
    rewrite Hc. simpl. rewrite to_uint64_succ. f_equal. lia.
Qed.

Lemma hash_of_flow_packet host srcA srcP A P :
  0 ≤ A < 2 ^ 32 → 0 ≤ P < 2 ^ 16 →
  hash_of host (packet_headers (flow_packet host srcA srcP A P)) = hash_index_cal_hash A P.
Proof.
  intros HA HP. unfold hash_of, _compute_stream_hash; simpl.
  by rewrite ntohl_htonl, ntohs_htons.
Qed.

Lemma contiguous_flows_NoDup host srcA srcP A P0 :
  0 ≤ P0 → P0 + 255 < 2 ^ 16 →
  NoDup (packet_headers <$> contiguous_flows host srcA srcP A P0).
Proof.
  intros HP0 HP1. unfold contiguous_flows. rewrite <- list_fmap_compose.
  apply NoDup_fmap_2_strong; [|apply NoDup_seq].
  intros i j Hi%elem_of_seq Hj%elem_of_seq Heq. simpl in Heq.
  unfold packet_headers, flow_packet in Heq. simpl in Heq.
  injection Heq as Heq.
  apply (f_equal (ntohs host)) in Heq. rewrite !ntohs_htons in Heq by lia. lia.
Qed.

(** C6.  For a destination address [A] and the 256 destination ports
    [P0 .. P0 + 255], at most 16 of the ports share a value of the hash.
    After one flow per port was entered into the empty registry, no chain of
    the hash index is longer than 16; a second pass over the same packets
    returns the records of the first pass with 256 hits and no further miss. *)
Theorem C6_contiguous_ports_fill_chains_evenly host auto srcA srcP A P0 :
  0 ≤ A < 2 ^ 32 → 0 ≤ P0 → P0 + 255 < 2 ^ 16 →
  let flows := contiguous_flows host srcA srcP A P0 in
  let pass1 := findcreate_all host (empty_context auto) flows in
  let pass2 := findcreate_all host (fst pass1) flows in
  (∀ h, (length (filter (λ i : nat, hash_index_cal_hash A (P0 + Z.of_nat i) = h) (seq 0 256))
         ≤ 16)%nat) ∧
  (∀ h, hash_index_get_count (hashIndex (fst pass1)) h ≤ 16) ∧
  snd pass1 = Some <$> seq 0 256 ∧
  cacheMiss (fst pass1) = 256 ∧ cacheHit (fst pass1) = 0 ∧
  snd pass2 = snd pass1 ∧
  cacheMiss (fst pass2) = 256 ∧ cacheHit (fst pass2) = 256 ∧
  hashIndex (fst pass2) = hashIndex (fst pass1) ∧ store (fst pass2) = store (fst pass1).
Proof.
  intros HA HP0 HP1 flows pass1 pass2.
  assert (Hlen : length flows = 256%nat) by (unfold flows, contiguous_flows; by rewrite length_fmap).
  destruct (findcreate_all_misses host flows (empty_context auto) (registry_inv_empty host auto))
    as (ctx1 & Hrun1 & Hinv1 & Hh1 & Hm1 & Hc1).
  { simpl. by apply contiguous_flows_NoDup. }
  { simpl. lia. }
  rewrite Hlen in Hrun1, Hm1.
  change (headers <$> store ctx1 = packet_headers <$> flows) in Hh1.
  change (cacheHit ctx1 = 0) in Hc1.
  change (cacheMiss ctx1 = 256) in Hm1.
  change (findcreate_all host (empty_context auto) flows = (ctx1, Some <$> seq 0 256)) in Hrun1.
  destruct (findcreate_all_hits host flows ctx1 0 (proj1 Hinv1))
    as (ctx2 & Hrun2 & Hs2 & Hl2 & Hi2 & Hm2 & Hc2).
  { intros i pk Hi. rewrite Hh1. change (0 + i)%nat with i.
    by rewrite list_lookup_fmap, Hi. }
  { rewrite Hc1. lia. }
  rewrite Hlen, Hc1 in Hc2. change (cacheHit ctx2 = 256) in Hc2. rewrite Hlen in Hrun2.
  subst pass2. subst pass1. rewrite Hrun1. cbn [fst snd]. rewrite Hrun2. cbn [fst snd].
  split; [apply contiguous_ports_per_hash|].
  split; [|by repeat split; try congruence].
  intros h. unfold hash_index_get_count.
  destruct Hinv1 as [[_ Hidx] _]. rewrite Hidx, Hh1, length_chain_of.
  unfold flows, contiguous_flows. rewrite <- list_fmap_compose.
  apply (Nat2Z.inj_le _ 16).
  etransitivity; [|apply (contiguous_ports_per_hash A P0 h)].
  apply (length_filter_fmap_le _ (λ x, hash_of host x = h)
           (λ i : nat, hash_index_cal_hash A (P0 + Z.of_nat i) = h)).
  intros i Hi%elem_of_seq. simpl. rewrite hash_of_flow_packet by lia. done.
Qed.

(** C6 for the flows of the spec: destinations 10.0.0.1:4000 .. 4255. *)
Lemma C6_contiguous_ports_witness :
  let flows := contiguous_flows LittleEndian 0xC0A80001 5000 0x0A000001 4000 in
  let pass1 := findcreate_all LittleEndian (empty_context false) flows in
  let pass2 := findcreate_all LittleEndian (fst pass1) flows in
  (∀ h, hash_index_get_count (hashIndex (fst pass1)) h ≤ 16) ∧
  snd pass2 = Some <$> seq 0 256 ∧
  cacheMiss (fst pass2) = 256 ∧ cacheHit (fst pass2) = 256.
Proof.
  intros flows pass1 pass2.
  destruct (C6_contiguous_ports_fill_chains_evenly LittleEndian false 0xC0A80001 5000
              0x0A000001 4000) as (_ & Hchain & Hr1 & _ & _ & Hr2 & Hm2 & Hh2 & _).
  - lia.
  - lia.
  - lia.
  - split; [exact Hchain|]. split; [|split; [exact Hm2|exact Hh2]].
    fold flows pass1 pass2 in Hr1, Hr2. rewrite Hr2. exact Hr1.
Defined.


(** C8.  When the search finds no record and the allocation fails,
    [discovered_item_findcreate] returns NULL; the store, the ordered list and
    the hash index are the ones it was given, [cacheHit] keeps its value and
    [cacheMiss] has been incremented. *)
Theorem C8_failed_allocation_counts_as_miss host ctx eth ip udp :
  findcreate_lookup host ctx ip udp = None →
  ∃ ctx', discovered_item_findcreate host false ctx eth ip udp = (ctx', None) ∧
          ctx_list ctx' = ctx_list ctx ∧ hashIndex ctx' = hashIndex ctx ∧
          store ctx' = store ctx ∧ cacheHit ctx' = cacheHit ctx ∧
          cacheMiss ctx' = to_uint64 (cacheMiss ctx + 1).
Proof.
  intros Hnone. unfold discovered_item_findcreate. rewrite Hnone. simpl.
  eexists; split; [reflexivity|]. done.
Qed.

(** C8 on a registry that holds one flow, for a packet of another flow. *)
Lemma C8_failed_allocation_witness :
  let flow := flow_packet LittleEndian 0xC0A80001 5000 0x0A000001 in
  let ctx := fst (findcreate_all LittleEndian (empty_context false) [flow 4001]) in
  ∃ ctx', discovered_item_findcreate LittleEndian false ctx
            (fst (fst (flow 4017))) (snd (fst (flow 4017))) (snd (flow 4017)) = (ctx', None) ∧
          ctx_list ctx' = ctx_list ctx ∧ hashIndex ctx' = hashIndex ctx ∧
          store ctx' = store ctx ∧ cacheHit ctx' = cacheHit ctx ∧
          cacheMiss ctx' = 2.
Proof.
  intros flow ctx.
  destruct (C8_failed_allocation_counts_as_miss LittleEndian ctx
              (fst (fst (flow 4017))) (snd (fst (flow 4017))) (snd (flow 4017)))
    as (ctx' & Hfc & Hl & Hi & Hs & Hh & Hm).
  - vm_compute. reflexivity.
  - exists ctx'. split; [exact Hfc|]. split; [exact Hl|]. split; [exact Hi|].
    split; [exact Hs|]. split; [exact Hh|]. rewrite Hm. vm_compute. reflexivity.
Defined.

End FindCreate.

(* ===================================================================== *)
(** * Further properties of the histogram *)
(* ===================================================================== *)

Section HistogramMore.

Implicit Types (h : ltn_histogram_s) (now : timeval).



(** The subtraction on two values of [gettimeofday], with the carried copy
    of [y] and the flag. *)
Lemma timeval_subtract_normal_full x y :
  timeval_normal x → timeval_normal y →
  ltn_histogram_timeval_subtract x y =
  if tv_usec x <? tv_usec y
  then (mk_timeval (tv_sec x - tv_sec y - 1) (tv_usec x - tv_usec y + 1000000),
        mk_timeval (tv_sec y + 1) (tv_usec y - 1000000),
        if tv_sec x <? tv_sec y + 1 then 1 else 0)
  else (mk_timeval (tv_sec x - tv_sec y) (tv_usec x - tv_usec y), y,
        if tv_sec x <? tv_sec y then 1 else 0).
Proof.
  unfold timeval_normal, ltn_histogram_timeval_subtract.
  destruct x as [xs xu], y as [ys yu]; simpl. intros Hx Hy.
  destruct (Z.ltb_spec xu yu) as [Hlt|Hge]; simpl.
  - rewrite Z.quot_small by lia. change (to_int32 (0 + 1)) with 1.
    destruct (Z.gtb_spec (xu - (yu - 1000000 * 1)) 1000000); [lia|].
    cbn [tv_sec tv_usec].
    replace (yu - 1000000 * 1) with (yu - 1000000) by lia.
    replace (xs - (ys + 1)) with (xs - ys - 1) by lia.
    replace (xu - (yu - 1000000)) with (xu - yu + 1000000) by lia. done.
  - destruct (Z.gtb_spec (xu - yu) 1000000); [lia|]. done.
Qed.

(** X2.  On two values of [gettimeofday], [ltn_histogram_timeval_subtract]
    yields the exact difference with microseconds in [0, 1000000), returns 1
    exactly when [x] is the earlier time, and the carry it performs on [y] in
    place does not change the time [y] stands for. *)
Theorem X2_timeval_subtract_exact x y :
  timeval_normal x → timeval_normal y →
  ∃ r y' f,
    ltn_histogram_timeval_subtract x y = (r, y', f) ∧
    timeval_normal r ∧
    timeval_usecs r = timeval_usecs x - timeval_usecs y ∧
    timeval_usecs y' = timeval_usecs y ∧
    (f = 1 ↔ timeval_before x y) ∧ (f = 0 ↔ ¬ timeval_before x y).
Proof.
  intros Hx Hy. rewrite (timeval_subtract_normal_full x y Hx Hy).
  unfold timeval_normal, timeval_before, timeval_usecs in *.
  destruct x as [xs xu], y as [ys yu]; simpl in *.
  destruct (Z.ltb_spec xu yu) as [Hlt|Hge].
  - eexists _, _, _. split; [reflexivity|]. simpl.
    destruct (Z.ltb_spec xs (ys + 1)); repeat split; try lia; intros; try lia.
  - eexists _, _, _. split; [reflexivity|]. simpl.
    destruct (Z.ltb_spec xs ys); repeat split; try lia; intros; try lia.
Qed.

(** X2 on 9.2 s minus 10.7 s. *)
Lemma X2_timeval_subtract_witness :
  ∃ r y' f,
    ltn_histogram_timeval_subtract (mk_timeval 9 200000) (mk_timeval 10 700000) = (r, y', f) ∧
    timeval_usecs r = -1500000 ∧ f = 1.
Proof.
  destruct (X2_timeval_subtract_exact (mk_timeval 9 200000) (mk_timeval 10 700000))
    as (r & y' & f & Hs & _ & Hr & _ & Hf & _).
  - unfold timeval_normal; simpl; lia.
  - unfold timeval_normal; simpl; lia.
  - exists r, y', f. split; [exact Hs|]. split; [exact Hr|].
    apply Hf. left. simpl. lia.
Defined.

(** The [int] of milliseconds of a normalised difference is the floor of
    the microseconds over 1000, squeezed into 32 bits. *)
Lemma timeval_to_ms_subtract x y :
  timeval_normal x → timeval_normal y →
  ltn_histogram_timeval_to_ms (fst (fst (ltn_histogram_timeval_subtract x y))) =
  to_int32 (elapsed_ms y x).
Proof.
  intros Hx Hy. rewrite (timeval_subtract_normal_full x y Hx Hy).
  unfold timeval_normal, elapsed_ms, timeval_usecs, ltn_histogram_timeval_to_ms in *.
  destruct x as [xs xu], y as [ys yu]; simpl in *. f_equal.
  destruct (Z.ltb_spec xu yu) as [Hlt|Hge]; simpl.
  - rewrite Z.quot_div_nonneg by lia.
    replace (xs * 1000000 + xu - (ys * 1000000 + yu))
      with ((xu - yu + 1000000) + (xs - ys - 1) * 1000 * 1000) by lia.
    rewrite Z.div_add by lia. lia.
  - rewrite Z.quot_div_nonneg by lia.
    replace (xs * 1000000 + xu - (ys * 1000000 + yu))
      with ((xu - yu) + (xs - ys) * 1000 * 1000) by lia.
    rewrite Z.div_add by lia. lia.
Qed.

Lemma to_uint32_to_int32 z : to_uint32 (to_int32 z) = to_uint32 z.
Proof.
  unfold to_uint32, to_int32.
  rewrite <- (Zminus_mod_idemp_l ((z + 2 ^ 31) mod 2 ^ 32)), Z.mod_mod by lia.
  rewrite Zminus_mod_idemp_l. f_equal. lia.
Qed.

(** X3.  With [now] and [intervalLast] as [gettimeofday] delivers them, the
    value [ltn_histogram_interval_update] files is the floor of the elapsed
    microseconds over 1000, modulo 2^32; the call stores [now] in
    [intervalLast], and on a well-formed histogram it returns that value when
    it lies within [minValMs, maxValMs] and below 2^31, and -1 when it lies
    outside. *)
Theorem X3_interval_update_files_elapsed_ms now h :
  timeval_normal now → timeval_normal (intervalLast h) →
  interval_delta now h = to_uint32 (elapsed_ms (intervalLast h) now) ∧
  (hist_wf h →
   ∃ h' r, ltn_histogram_interval_update now h = Some (h', r) ∧
           intervalLast h' = now ∧
           (interval_delta now h < minValMs h ∨ maxValMs h < interval_delta now h → r = -1) ∧
           (minValMs h ≤ interval_delta now h ≤ maxValMs h → interval_delta now h < 2 ^ 31 →
            r = interval_delta now h)).
Proof.
  intros Hx Hy. split.
  { unfold interval_delta. by rewrite timeval_to_ms_subtract, to_uint32_to_int32. }
  intros Hwf.
  destruct (Z_lt_le_dec (interval_delta now h) (minValMs h)) as [Hlo|Hlo];
    [|destruct (Z_lt_le_dec (maxValMs h) (interval_delta now h)) as [Hhi|Hhi]].
  1, 2: rewrite interval_update_miss by lia; eexists _, _; split; [reflexivity|];
    simpl; repeat split; try done; lia.
  destruct (interval_update_hit now h Hwf) as (h' & Hup & _ & _ & _ & Hl & _); [lia|].
  exists h', (to_int32 (interval_delta now h)). split; [done|]. split; [done|].
  split; [lia|]. intros _ Hsmall. apply to_int32_small.
  pose proof (to_uint32_range (ltn_histogram_timeval_to_ms
    (fst (fst (ltn_histogram_timeval_subtract now (intervalLast h)))))) as Hr.
  fold (interval_delta now h) in Hr. lia.
Qed.

(** X3 on a sixteen-bucket histogram, 1.9995 s after [intervalLast]. *)
Lemma X3_interval_update_witness :
  interval_delta (mk_timeval 3 500)
    (mk_histogram [] 0 16 0 16 (replicate 138 zero_bucket) (mk_timeval 1 1000) 0 zero_timeval)
  = 1999.
Proof.
  destruct (X3_interval_update_files_elapsed_ms (mk_timeval 3 500)
              (mk_histogram [] 0 16 0 16 (replicate 138 zero_bucket) (mk_timeval 1 1000) 0
                 zero_timeval)) as [Hd _].
  - unfold timeval_normal; simpl; lia.
  - unfold timeval_normal; simpl; lia.
  - rewrite Hd. reflexivity.
Defined.

(** *** Counting *)


Lemma sum_counts_insert l i b b' :
  l !! i = Some b → sum_counts (<[i := b']> l) = sum_counts l - count b + count b'.
Proof.
  revert i. induction l as [|x l IH]; intros [|i] Hi; try done; simpl in *.
  - injection Hi as ->. unfold sum_counts; simpl. lia.
  - unfold sum_counts in *; simpl. rewrite (IH i Hi). lia.
Qed.


Lemma to_uint64_add_r a b : to_uint64 (a + to_uint64 b) = to_uint64 (a + b).
Proof. unfold to_uint64. by rewrite Zplus_mod_idemp_r. Qed.

Lemma to_uint64_add_l a b : to_uint64 (to_uint64 a + b) = to_uint64 (a + b).
Proof. unfold to_uint64. by rewrite Zplus_mod_idemp_l. Qed.

(** One observation [ms] within the bounds of the code: the slot it reaches
    is one of the first [bucketCount + 1], and the total grows by one. *)
Lemma bucket_hit_total h ms now :
  hist_wf h → minValMs h ≤ ms ≤ maxValMs h →
  ∃ h', bucket_hit h ms now = Some h' ∧ hist_wf h' ∧
        to_uint64 (hist_total h') = to_uint64 (hist_total h + 1) ∧
        minValMs h' = minValMs h ∧ maxValMs h' = maxValMs h ∧
        bucketCount h' = bucketCount h ∧ bucketMissCount h' = bucketMissCount h ∧
        (∀ j, (Z.to_nat (bucketCount h) < j)%nat → buckets h' !! j = buckets h !! j).
Proof.
  intros Hwf Hr. destruct (bucket_hit_some h ms now Hwf Hr) as (b & Hb & ->).
  eexists; split; [reflexivity|]. split; [by apply hist_wf_set_buckets|].
  split.
  { unfold hist_total; simpl. rewrite (sum_counts_insert _ _ _ _ Hb); simpl.
    replace (sum_counts (buckets h) - count b + to_uint64 (count b + 1) + bucketMissCount h)
      with ((sum_counts (buckets h) - count b + bucketMissCount h) + to_uint64 (count b + 1))
      by lia.
    rewrite to_uint64_add_r. f_equal. lia. }
  repeat split; try done. intros j Hj. simpl.
  apply list_lookup_insert_ne. destruct Hwf as [? ? ? Hc _]. lia.
Qed.

Lemma interval_update_total now h :
  hist_wf h →
  ∃ h' r, ltn_histogram_interval_update now h = Some (h', r) ∧ hist_wf h' ∧
          to_uint64 (hist_total h') = to_uint64 (hist_total h + 1) ∧
          minValMs h' = minValMs h ∧ maxValMs h' = maxValMs h ∧
          bucketCount h' = bucketCount h ∧
          (∀ j, (Z.to_nat (bucketCount h) < j)%nat → buckets h' !! j = buckets h !! j).
Proof.
  intros Hwf.
  destruct (Z_lt_le_dec (interval_delta now h) (minValMs h)) as [Hlo|Hlo];
    [|destruct (Z_lt_le_dec (maxValMs h) (interval_delta now h)) as [Hhi|Hhi]].
  1, 2: rewrite interval_update_miss by lia; eexists _, _; split; [reflexivity|];
    (split; [by destruct Hwf; split|]); split; [|done];
    unfold hist_total; simpl; rewrite to_uint64_add_r; f_equal; lia.
  assert (Hwf1 : hist_wf (set_intervalLast h now)) by (destruct Hwf; split; done).
  destruct (bucket_hit_total (set_intervalLast h now) (interval_delta now h) now Hwf1)
    as (h' & Hhit & Hwf' & Ht & Hmin & Hmax & Hbc & _ & Hrest); [simpl; lia|].
  unfold ltn_histogram_interval_update. unfold interval_delta in *.
  destruct (ltn_histogram_timeval_subtract now (intervalLast h)) as [[r y'] f]; simpl in *.
  replace ((_ <? minValMs h) || (_ >? maxValMs h)) with false
    by (symmetry; apply orb_false_iff; split; lia).
  rewrite Hhit. eexists _, _. split; [reflexivity|]. done.
Qed.

Lemma interval_updates_total times h :
  hist_wf h →
  ∃ h', interval_updates times h = Some h' ∧ hist_wf h' ∧
        to_uint64 (hist_total h') = to_uint64 (hist_total h + Z.of_nat (length times)) ∧
        minValMs h' = minValMs h ∧ maxValMs h' = maxValMs h ∧
        (∀ j, (Z.to_nat (bucketCount h) < j)%nat → buckets h' !! j = buckets h !! j).
Proof.
  revert h. induction times as [|now times IH]; intros h Hwf.
  - exists h. simpl. rewrite Z.add_0_r. done.
  - destruct (interval_update_total now h Hwf) as (h1 & r & Hup & Hwf1 & Ht1 & Hmin1 & Hmax1 & Hbc1 & Hrest1).
    destruct (IH h1 Hwf1) as (h' & Hrun & Hwf' & Ht & Hmin & Hmax & Hrest).
    exists h'. cbn [interval_updates]. rewrite Hup. split; [done|]. split; [done|].
    split; [|split; [congruence|split; [congruence|]]].
    + rewrite Ht, <- to_uint64_add_l, Ht1, to_uint64_add_l.
      f_equal. cbn [length]. lia.
    + intros j Hj. rewrite Hrest by (rewrite Hbc1; lia). by apply Hrest1.
Qed.

(** X4.  On a well-formed histogram every interval update succeeds and
    adds exactly one, modulo 2^64, to the sum of all counts of the bucket
    block and the misses: no observation is dropped or counted twice.  The
    slots behind index [bucketCount] are never written. *)
Theorem X4_interval_updates_count_every_observation times h :
  hist_wf h →
  ∃ h', interval_updates times h = Some h' ∧ hist_wf h' ∧
        to_uint64 (hist_total h') = to_uint64 (hist_total h + Z.of_nat (length times)) ∧
        minValMs h' = minValMs h ∧ maxValMs h' = maxValMs h ∧
        (∀ j, (Z.to_nat (bucketCount h) < j)%nat → buckets h' !! j = buckets h !! j).
Proof. apply interval_updates_total. Qed.

(** X4 on a sixteen-bucket histogram and three updates. *)
Lemma X4_interval_updates_witness :
  ∃ h', interval_updates [mk_timeval 0 5000; mk_timeval 0 5000; mk_timeval 9 0]
          (mk_histogram [] 0 16 0 16 (replicate 138 zero_bucket) zero_timeval 0 zero_timeval)
        = Some h' ∧
        to_uint64 (hist_total h') = 3.
Proof.
  destruct (X4_interval_updates_count_every_observation
              [mk_timeval 0 5000; mk_timeval 0 5000; mk_timeval 9 0]
              (mk_histogram [] 0 16 0 16 (replicate 138 zero_bucket) zero_timeval 0 zero_timeval))
    as (h' & Hrun & _ & Ht & _).
  - split; simpl; try lia. reflexivity.
  - exists h'. split; [exact Hrun|]. rewrite Ht. reflexivity.
Defined.

(** *** Reset *)

(** X5.  [ltn_histogram_reset] on a well-formed histogram clears the first
    [bucketCount] slots, the misses and [cumulativeMs] and stores [now] in
    [intervalLast]; the bounds stay, and so does every slot from index
    [bucketCount] on, the one that differences equal to [maxValMs] are counted
    in included. *)
Theorem X5_reset_clears_the_buckets_only now h :
  hist_wf h →
  ∃ h', ltn_histogram_reset now h = Some h' ∧ hist_wf h' ∧
        bucketMissCount h' = 0 ∧ cumulativeMs h' = 0 ∧ intervalLast h' = now ∧
        minValMs h' = minValMs h ∧ maxValMs h' = maxValMs h ∧
        (∀ j, (j < Z.to_nat (bucketCount h))%nat → buckets h' !! j = Some zero_bucket) ∧
        (∀ j, (Z.to_nat (bucketCount h) ≤ j)%nat → buckets h' !! j = buckets h !! j).
Proof.
  intros Hwf. pose proof (wf_room h Hwf) as Hroom. unfold ltn_histogram_reset.
  rewrite decide_True by lia. eexists; split; [reflexivity|]. simpl.
  split.
  { destruct Hwf as [? ? ? ? Hs]. split; simpl; try done.
    rewrite length_app, length_replicate, length_drop. lia. }
  do 5 (split; [done|]). split.
  - intros j Hj. rewrite lookup_app_l by (rewrite length_replicate; lia).
    by apply lookup_replicate_2.
  - intros j Hj. rewrite lookup_app_r by (rewrite length_replicate; lia).
    rewrite length_replicate, lookup_drop. f_equal. lia.
Qed.

(** X5 on a sixteen-bucket histogram that has counted one difference of
    16 ms in slot 16 and one of 3 ms in bucket 3. *)
Lemma X5_reset_witness :
  ∃ h', ltn_histogram_reset (mk_timeval 50 0)
          (mk_histogram [] 0 16 0 16
             (<[16%nat := mk_bucket 1 zero_timeval]>
                (<[3%nat := mk_bucket 1 zero_timeval]> (replicate 138 zero_bucket)))
             zero_timeval 0 zero_timeval) = Some h' ∧
        bucket_count_at h' 3 = 0 ∧ bucket_count_at h' 16 = 1.
Proof.
  destruct (X5_reset_clears_the_buckets_only (mk_timeval 50 0)
              (mk_histogram [] 0 16 0 16
                 (<[16%nat := mk_bucket 1 zero_timeval]>
                    (<[3%nat := mk_bucket 1 zero_timeval]> (replicate 138 zero_bucket)))
                 zero_timeval 0 zero_timeval))
    as (h' & Hr & _ & _ & _ & _ & _ & _ & Hlow & Hhigh).
  - split; simpl; try lia. reflexivity.
  - exists h'. split; [exact Hr|]. unfold bucket_count_at. split.
    + rewrite (Hlow 3%nat); [reflexivity|simpl; lia].
    + rewrite (Hhigh 16%nat); [reflexivity|simpl; lia].
Defined.

(** *** The report *)









(** *** The cumulative mode *)

Lemma to_int32_range z : - 2 ^ 31 ≤ to_int32 z < 2 ^ 31.
Proof.
  unfold to_int32. pose proof (Z.mod_pos_bound (z + 2 ^ 31) (2 ^ 32) ltac:(lia)). lia.
Qed.

(** One measurement from a begin at [t0] to an end at [t1]. *)
Lemma cumulative_end_begin t0 t1 h :
  timeval_normal t0 → timeval_normal t1 →
  ∃ h', ltn_histogram_cumulative_end t1 (ltn_histogram_cumulative_begin t0 h) =
          (h', to_uint64 (to_int32 (elapsed_ms t0 t1))) ∧
        cumulativeMs h' = to_uint64 (cumulativeMs h + to_int32 (elapsed_ms t0 t1)) ∧
        buckets h' = buckets h ∧ bucketMissCount h' = bucketMissCount h ∧
        intervalLast h' = intervalLast h ∧
        minValMs h' = minValMs h ∧ maxValMs h' = maxValMs h ∧
        bucketCount h' = bucketCount h.
Proof.
  intros H0 H1. unfold ltn_histogram_cumulative_end, ltn_histogram_cumulative_begin.
  pose proof (timeval_to_ms_subtract t1 t0 H1 H0) as Hms. simpl in *.
  destruct (ltn_histogram_timeval_subtract t1 t0) as [[r y'] f]. simpl in *.
  rewrite Hms. eexists; split; [reflexivity|]. simpl.
  split; [apply to_uint64_add_r|done].
Qed.

Lemma cumulative_windows_total ws h :
  Forall (λ w, timeval_normal (fst w) ∧ timeval_normal (snd w) ∧
               - 2 ^ 31 ≤ elapsed_ms (fst w) (snd w) < 2 ^ 31) ws →
  to_uint64 (cumulativeMs (cumulative_windows ws h)) = to_uint64 (cumulativeMs h + windows_ms ws) ∧
  (ws ≠ [] → 0 ≤ cumulativeMs (cumulative_windows ws h) < 2 ^ 64) ∧
  buckets (cumulative_windows ws h) = buckets h ∧
  bucketMissCount (cumulative_windows ws h) = bucketMissCount h ∧
  intervalLast (cumulative_windows ws h) = intervalLast h.
Proof.
  intros Hws. revert h. induction Hws as [|w ws (H0 & H1 & Hr) Hws IH]; intros h.
  - simpl. rewrite Z.add_0_r. done.
  - destruct (cumulative_end_begin (fst w) (snd w) h H0 H1)
      as (h1 & Heq & Hc & Hb & Hm & Hl & _).
    cbn [cumulative_windows]. rewrite Heq. cbn [fst].
    destruct (IH h1) as (Hc' & Hrange & Hb' & Hm' & Hl').
    split; [|split; [|split; [congruence|split; congruence]]].
    + rewrite Hc', Hc, to_uint64_add_l, to_int32_small by done.
      unfold windows_ms; simpl. f_equal. lia.
    + intros _. destruct ws as [|w' ws'].
      * simpl. rewrite Hc. unfold to_uint64. apply Z.mod_pos_bound. lia.
      * by apply Hrange.
Qed.

(** X8.  After [ltn_histogram_cumulative_initialize] and any run of
    begin/end pairs on values of [gettimeofday] (each less than 2^31 ms
    apart), [cumulativeMs] is the sum, modulo 2^64, of the whole milliseconds
    of the single windows: every window is truncated on its own, and a window
    that ends before it began takes its milliseconds off the sum.  Buckets,
    misses and [intervalLast] are not touched before the finalize. *)
Theorem X8_cumulative_windows_add_whole_milliseconds ws h :
  Forall (λ w, timeval_normal (fst w) ∧ timeval_normal (snd w) ∧
               - 2 ^ 31 ≤ elapsed_ms (fst w) (snd w) < 2 ^ 31) ws →
  cumulativeMs (cumulative_windows ws (ltn_histogram_cumulative_initialize h)) =
    to_uint64 (windows_ms ws) ∧
  buckets (cumulative_windows ws (ltn_histogram_cumulative_initialize h)) = buckets h ∧
  bucketMissCount (cumulative_windows ws (ltn_histogram_cumulative_initialize h)) =
    bucketMissCount h ∧
  intervalLast (cumulative_windows ws (ltn_histogram_cumulative_initialize h)) = intervalLast h.
Proof.
  intros Hws.
  destruct (cumulative_windows_total ws (ltn_histogram_cumulative_initialize h) Hws)
    as (Hc & Hrange & Hb & Hm & Hl).
  split; [|done].
  change (cumulativeMs (ltn_histogram_cumulative_initialize h)) with 0 in Hc.
  rewrite Z.add_0_l in Hc. rewrite <- Hc.
  destruct ws as [|w ws]; [done|]. symmetry. apply to_uint64_small. by apply Hrange.
Qed.

(** X8 on two windows of 2.5 ms and 0.9 ms: 2 ms are recorded. *)
Lemma X8_cumulative_windows_witness :
  cumulativeMs
    (cumulative_windows [(mk_timeval 1 0, mk_timeval 1 2500); (mk_timeval 2 0, mk_timeval 2 900)]
       (ltn_histogram_cumulative_initialize
          (mk_histogram [] 0 16 0 16 (replicate 138 zero_bucket) zero_timeval 7 zero_timeval)))
  = 2.
Proof.
  destruct (X8_cumulative_windows_add_whole_milliseconds
              [(mk_timeval 1 0, mk_timeval 1 2500); (mk_timeval 2 0, mk_timeval 2 900)]
              (mk_histogram [] 0 16 0 16 (replicate 138 zero_bucket) zero_timeval 7 zero_timeval))
    as [Hc _].
  - constructor; [|constructor; [|constructor]];
      unfold timeval_normal; simpl; repeat split;
      first [lia | apply Z.leb_le; reflexivity | apply Z.ltb_lt; reflexivity].
  - rewrite Hc. reflexivity.
Defined.

(** X9.  Windows shorter than one millisecond never add up: after the
    initialize and any number of begin/end pairs that each span less than
    1000 microseconds, [cumulativeMs] is still 0. *)
Theorem X9_short_windows_leave_cumulativeMs_at_zero ws h :
  Forall (λ w, timeval_normal (fst w) ∧ timeval_normal (snd w) ∧
               0 ≤ timeval_usecs (snd w) - timeval_usecs (fst w) < 1000) ws →
  cumulativeMs (cumulative_windows ws (ltn_histogram_cumulative_initialize h)) = 0.
Proof.
  intros Hws.
  assert (Hz : Forall (λ w, elapsed_ms (fst w) (snd w) = 0) ws).
  { eapply Forall_impl; [exact Hws|]. intros w (_ & _ & Hr).
    unfold elapsed_ms. apply Z.div_small. lia. }
  destruct (cumulative_windows_total ws (ltn_histogram_cumulative_initialize h))
    as (Hc & Hrange & _).
  { apply Forall_forall. intros w Hw.
    pose proof (proj1 (Forall_forall _ _) Hws w Hw) as (H0 & H1 & _).
    pose proof (proj1 (Forall_forall _ _) Hz w Hw) as Hzero. cbn beta in Hzero.
    rewrite Hzero. split; [exact H0|split; [exact H1|lia]]. }
  assert (Hsum : windows_ms ws = 0).
  { clear -Hz. induction Hz as [|w ws Hw _ IH]; [done|].
    unfold windows_ms in *; simpl. rewrite Hw, IH. done. }
  change (cumulativeMs (ltn_histogram_cumulative_initialize h)) with 0 in Hc.
  rewrite Hsum in Hc. destruct ws as [|w ws]; [done|].
  rewrite <- (to_uint64_small (cumulativeMs _)) by (by apply Hrange). by rewrite Hc.
Qed.

(** X9 on three windows of 0.9 ms each. *)
Lemma X9_short_windows_witness :
  cumulativeMs
    (cumulative_windows
       [(mk_timeval 1 0, mk_timeval 1 900); (mk_timeval 2 100, mk_timeval 2 1000);
        (mk_timeval 2 999500, mk_timeval 3 400)]
       (ltn_histogram_cumulative_initialize
          (mk_histogram [] 0 16 0 16 (replicate 138 zero_bucket) zero_timeval 7 zero_timeval)))
  = 0.
Proof.
  apply X9_short_windows_leave_cumulativeMs_at_zero.
  constructor; [|constructor; [|constructor; [|constructor]]];
    unfold timeval_normal, timeval_usecs; simpl; lia.
Defined.

End HistogramMore.

(* ===================================================================== *)
(** * Further properties of the registry *)
(* ===================================================================== *)

Section HashMore.

Lemma lor_disjoint_add a b : 0 ≤ b < 16 → Z.lor (a * 16) b = a * 16 + b.
Proof.
  intros Hb.
  assert (Hd : Z.land (a * 16) b = 0).
  { assert (Hb' : b = Z.land (Z.ones 4) b).
    { rewrite Z.land_comm, Z.land_ones by lia. symmetry. apply Z.mod_small.
      change (2 ^ 4) with 16. lia. }
    rewrite Hb', Z.land_assoc, Z.land_ones by lia. change (2 ^ 4) with 16.
    by rewrite Z.mod_mul, Z.land_0_l by lia. }
  by rewrite <- Z.lxor_lor, <- Z.add_nocarry_lxor.
Qed.

(** The hash in closed form: twelve bits of the address above four bits of
    the port. *)
Lemma hash_index_cal_hash_closed A P :
  hash_index_cal_hash A P = (A mod 4096) * 16 + P mod 16.
Proof.
  unfold hash_index_cal_hash, to_uint16, to_uint32.
  rewrite <- (Z.land_ones _ 32), <- Z.land_assoc by lia.
  change (Z.land (Z.ones 32) 0xfff0) with (Z.shiftl (Z.ones 12) 4).
  rewrite <- Z.shiftl_land, (Z.land_ones A 12), Z.shiftl_mul_pow2 by lia.
  change (0x000f) with (Z.ones 4). rewrite (Z.land_ones P 4) by lia.
  change (2 ^ 12) with 4096. change (2 ^ 4) with 16.
  pose proof (Z.mod_pos_bound A 4096 ltac:(lia)).
  pose proof (Z.mod_pos_bound P 16 ltac:(lia)).
  rewrite lor_disjoint_add by done. apply Z.mod_small. lia.
Qed.

(** X10.  [hash_index_cal_hash] keeps the low twelve bits of the address
    and the low four bits of the port and nothing else: its value is
    [(A mod 4096) * 16 + P mod 16], it lies in [0, 65536), and two
    address/port pairs collide exactly when they agree on those sixteen
    bits. *)
Theorem X10_hash_keeps_twelve_address_bits_and_four_port_bits A P A' P' :
  hash_index_cal_hash A P = (A mod 4096) * 16 + P mod 16 ∧
  0 ≤ hash_index_cal_hash A P < 2 ^ 16 ∧
  (hash_index_cal_hash A P = hash_index_cal_hash A' P' ↔
   A mod 4096 = A' mod 4096 ∧ P mod 16 = P' mod 16).
Proof.
  rewrite !hash_index_cal_hash_closed.
  pose proof (Z.mod_pos_bound A 4096 ltac:(lia)).
  pose proof (Z.mod_pos_bound P 16 ltac:(lia)).
  pose proof (Z.mod_pos_bound A' 4096 ltac:(lia)).
  pose proof (Z.mod_pos_bound P' 16 ltac:(lia)).
  split; [done|]. split; [lia|]. split; [lia|]. intros [-> ->]. done.
Qed.

End HashMore.

Section FlagsMore.

Implicit Types (r : discovered_item_s) (st : list discovered_item_s) (l : list ptr).

Lemma testbit_uint32_lnot m n :
  0 ≤ n → Z.testbit (to_uint32 (Z.lnot m)) n = (n <? 32) && negb (Z.testbit m n).
Proof.
  intros Hn. unfold to_uint32. destruct (Z.ltb_spec n 32).
  - rewrite Z.mod_pow2_bits_low, Z.lnot_spec by lia. done.
  - by rewrite Z.mod_pow2_bits_high by lia.
Qed.

Lemma testbit_above_32 z n : 0 ≤ z < 2 ^ 32 → 32 ≤ n → Z.testbit z n = false.
Proof.
  intros Hz Hn. rewrite <- (Z.mod_small z (2 ^ 32)) by done.
  by rewrite Z.mod_pow2_bits_high by lia.
Qed.

Lemma below_2_32 z :
  0 ≤ z → (∀ n, 32 ≤ n → Z.testbit z n = false) → 0 ≤ z < 2 ^ 32.
Proof.
  intros Hz Hhigh. replace z with (z mod 2 ^ 32); [apply Z.mod_pos_bound; lia|].
  apply Z.bits_inj'. intros n Hn. destruct (Z.ltb_spec n 32).
  - by rewrite Z.mod_pow2_bits_low by lia.
  - rewrite Z.mod_pow2_bits_high by lia. symmetry. by apply Hhigh.
Qed.

Lemma disjoint_bits m m' n :
  Z.land m m' = 0 → Z.testbit m n && Z.testbit m' n = false.
Proof. intros H. by rewrite <- Z.land_spec, H, Z.bits_0. Qed.

Lemma state_set_ok m r : 0 ≤ m < 2 ^ 32 → state_ok r → state_ok (discovered_item_state_set m r).
Proof.
  intros Hm Hr. unfold state_ok in *. simpl. apply below_2_32.
  - apply Z.lor_nonneg. lia.
  - intros n Hn. by rewrite Z.lor_spec, !testbit_above_32.
Qed.

Lemma state_clr_ok m r : state_ok r → state_ok (discovered_item_state_clr m r).
Proof.
  intros Hr. unfold state_ok in *. simpl. apply below_2_32.
  - apply Z.land_nonneg. left. lia.
  - intros n Hn. by rewrite Z.land_spec, testbit_above_32.
Qed.

(** Clearing a mask that was absent and has just been set gives the record
    back, and so does setting a mask that was present and has just been
    cleared. *)
Lemma state_clr_set m r :
  state_ok r → Z.land (state r) m = 0 →
  discovered_item_state_clr m (discovered_item_state_set m r) = r.
Proof.
  intros Hr Hd. unfold discovered_item_state_clr, discovered_item_state_set; simpl.
  destruct r as [e i u a b c s]; simpl in *. unfold set_state; simpl. f_equal.
  apply Z.bits_inj'. intros n Hn.
  rewrite Z.land_spec, Z.lor_spec, testbit_uint32_lnot by done.
  pose proof (disjoint_bits s m n Hd) as Hb.
  destruct (Z.ltb_spec n 32).
  - destruct (Z.testbit s n), (Z.testbit m n); simpl in *; congruence.
  - rewrite (testbit_above_32 s n) by (done || lia). by rewrite andb_false_r.
Qed.

Lemma state_set_clr m r :
  state_ok r → Z.land (state r) m = m →
  discovered_item_state_set m (discovered_item_state_clr m r) = r.
Proof.
  intros Hr Hd. unfold discovered_item_state_clr, discovered_item_state_set; simpl.
  destruct r as [e i u a b c s]; simpl in *. unfold set_state; simpl. f_equal.
  apply Z.bits_inj'. intros n Hn.
  rewrite Z.lor_spec, Z.land_spec, testbit_uint32_lnot by done.
  assert (Hb : Z.testbit s n && Z.testbit m n = Z.testbit m n) by (by rewrite <- Z.land_spec, Hd).
  destruct (Z.ltb_spec n 32).
  - destruct (Z.testbit s n), (Z.testbit m n); simpl in *; congruence.
  - rewrite (testbit_above_32 s n) in * by (done || lia).
    destruct (Z.testbit m n); simpl in *; congruence.
Qed.

Lemma state_get_clr_other m m' r :
  0 ≤ m' < 2 ^ 32 → Z.land m m' = 0 →
  discovered_item_state_get (discovered_item_state_clr m r) m' = discovered_item_state_get r m'.
Proof.
  intros Hm' Hd. unfold discovered_item_state_get, discovered_item_state_clr; simpl.
  apply Z.bits_inj'. intros n Hn.
  rewrite !Z.land_spec, testbit_uint32_lnot by done.
  pose proof (disjoint_bits m m' n Hd) as Hb.
  destruct (Z.ltb_spec n 32).
  - destruct (Z.testbit (state r) n), (Z.testbit m n), (Z.testbit m' n); simpl in *; congruence.
  - rewrite (testbit_above_32 m' n) by (done || lia). by rewrite !andb_false_r.
Qed.

Lemma state_get_set_other m m' r :
  Z.land m m' = 0 →
  discovered_item_state_get (discovered_item_state_set m r) m' = discovered_item_state_get r m'.
Proof.
  intros Hd. unfold discovered_item_state_get, discovered_item_state_set; simpl.
  by rewrite Z.land_lor_distr_l, Hd, Z.lor_0_r.
Qed.

(** X11.  The three flag operations on a 32-bit mask [m]: after
    [discovered_item_state_set] the get of [m] is [m], after
    [discovered_item_state_clr] it is 0; neither changes what the get of a
    mask disjoint from [m] returns; the flags stay within 32 bits; and a set
    followed by a clear, or a clear followed by a set, gives back a record
    in which the mask was absent, respectively present. *)
Theorem X11_state_set_clr_get m m' r :
  0 ≤ m < 2 ^ 32 → 0 ≤ m' < 2 ^ 32 → Z.land m m' = 0 → state_ok r →
  discovered_item_state_get (discovered_item_state_set m r) m = m ∧
  discovered_item_state_get (discovered_item_state_clr m r) m = 0 ∧
  discovered_item_state_get (discovered_item_state_set m r) m' = discovered_item_state_get r m' ∧
  discovered_item_state_get (discovered_item_state_clr m r) m' = discovered_item_state_get r m' ∧
  state_ok (discovered_item_state_set m r) ∧ state_ok (discovered_item_state_clr m r) ∧
  (discovered_item_state_get r m = 0 →
   discovered_item_state_clr m (discovered_item_state_set m r) = r) ∧
  (discovered_item_state_get r m = m →
   discovered_item_state_set m (discovered_item_state_clr m r) = r).
Proof.
  intros Hm Hm' Hd Hr.
  split.
  { unfold discovered_item_state_get, discovered_item_state_set; simpl.
    apply Z.bits_inj'. intros n Hn. rewrite Z.land_spec, Z.lor_spec.
    destruct (Z.testbit (state r) n), (Z.testbit m n); done. }
  split.
  { unfold discovered_item_state_get, discovered_item_state_clr; simpl.
    apply Z.bits_inj'. intros n Hn.
    rewrite !Z.land_spec, testbit_uint32_lnot, Z.bits_0 by done.
    destruct (Z.testbit (state r) n), (Z.testbit m n), (n <? 32); done. }
  split; [by apply state_get_set_other|].
  split; [by apply state_get_clr_other|].
  split; [by apply state_set_ok|].
  split; [by apply state_clr_ok|].
  split; [by apply state_clr_set|by apply state_set_clr].
Qed.

(** X11 on SELECTED and HIDDEN for a record that is hidden. *)
Lemma X11_state_witness :
  discovered_item_state_get
    (discovered_item_state_set DI_STATE_SELECTED
       (mk_discovered_item (mk_ether_header 0 0 0) (mk_iphdr 1 2) (mk_udphdr 3 4) 0 0 0
          DI_STATE_HIDDEN)) DI_STATE_HIDDEN
  = DI_STATE_HIDDEN.
Proof.
  destruct (X11_state_set_clr_get DI_STATE_SELECTED DI_STATE_HIDDEN
              (mk_discovered_item (mk_ether_header 0 0 0) (mk_iphdr 1 2) (mk_udphdr 3 4) 0 0 0
                 DI_STATE_HIDDEN)) as (_ & _ & Hother & _).
  - vm_compute. split; [discriminate|reflexivity].
  - vm_compute. split; [discriminate|reflexivity].
  - reflexivity.
  - vm_compute. split; [discriminate|reflexivity].
  - rewrite Hother. reflexivity.
Defined.

(** *** Loops over the list *)

(** A loop over a list without repetition applies its body once to every
    listed record and leaves the others alone. *)
Lemma for_each_entry_lookup body st l p :
  NoDup l →
  for_each_entry body st l !! p = if decide (p ∈ l) then body <$> st !! p else st !! p.
Proof.
  intros Hnd. revert st. induction Hnd as [|e l He Hnd IH]; intros st.
  - destruct (decide (p ∈ [])) as [Hin|_]; [by apply elem_of_nil in Hin|done].
  - change (for_each_entry body st (e :: l)) with (for_each_entry body (alter body e st) l).
    rewrite IH. destruct (decide (p ∈ l)) as [Hp|Hp].
    + rewrite decide_True by (by right).
      rewrite list_lookup_alter_ne; [done|]. by intros ->.
    + destruct (decide (p = e)) as [->|Hne].
      * rewrite decide_True by (by left). apply list_lookup_alter_eq.
      * rewrite decide_False by (intros [?|?]%elem_of_cons; done).
        by rewrite list_lookup_alter_ne.
Qed.

Lemma state_test_get r m : state_test r m = negb (discovered_item_state_get r m =? 0).
Proof. done. Qed.

Lemma state_test_set_other m m' r :
  Z.land m m' = 0 → state_test (discovered_item_state_set m r) m' = state_test r m'.
Proof. intros Hd. by rewrite !state_test_get, state_get_set_other. Qed.

Lemma state_test_clr_other m m' r :
  0 ≤ m' < 2 ^ 32 → Z.land m m' = 0 →
  state_test (discovered_item_state_clr m r) m' = state_test r m'.
Proof. intros Hm Hd. by rewrite !state_test_get, state_get_clr_other. Qed.

Lemma state_test_clr_same m r : state_test (discovered_item_state_clr m r) m = false.
Proof.
  rewrite state_test_get.
  replace (discovered_item_state_get (discovered_item_state_clr m r) m) with 0; [done|].
  unfold discovered_item_state_get, discovered_item_state_clr; simpl. symmetry.
  apply Z.bits_inj'. intros n Hn.
  rewrite !Z.land_spec, testbit_uint32_lnot, Z.bits_0 by done.
  destruct (Z.testbit (state r) n), (Z.testbit m n), (n <? 32); done.
Qed.

(** X12.  On a list without repetition [discovered_items_select_all] sets
    SELECTED on every listed record and [discovered_items_select_none]
    clears it on every listed record; records that are not listed and all
    other flags stay as they are. *)
Theorem X12_select_all_and_select_none ctx p r :
  NoDup (ctx_list ctx) → store ctx !! p = Some r →
  ∃ ra rn,
    store (discovered_items_select_all ctx) !! p = Some ra ∧
    store (discovered_items_select_none ctx) !! p = Some rn ∧
    (p ∉ ctx_list ctx → ra = r ∧ rn = r) ∧
    (p ∈ ctx_list ctx →
     state_test ra DI_STATE_SELECTED = true ∧ state_test rn DI_STATE_SELECTED = false) ∧
    headers ra = headers r ∧ headers rn = headers r ∧
    (∀ m, 0 ≤ m < 2 ^ 32 → Z.land DI_STATE_SELECTED m = 0 →
          state_test ra m = state_test r m ∧ state_test rn m = state_test r m).
Proof.
  intros Hnd Hr. unfold discovered_items_select_all, discovered_items_select_none. simpl.
  rewrite !for_each_entry_lookup, Hr by done.
  destruct (decide (p ∈ ctx_list ctx)) as [Hp|Hp]; simpl.
  - eexists _, _. split; [done|]. split; [done|]. split; [done|]. split.
    + intros _. split; [by apply state_test_set_same|apply state_test_clr_same].
    + split; [done|]. split; [done|]. intros m Hm Hd.
      split; [by apply state_test_set_other|by apply state_test_clr_other].
  - exists r, r. repeat split; done.
Qed.

(** X12 on a store of two records of which the first is listed. *)
Lemma X12_select_all_witness :
  ∃ ra, store (discovered_items_select_all
                 (mk_tool_context
                    [mk_discovered_item (mk_ether_header 0 0 0) (mk_iphdr 1 2) (mk_udphdr 3 4)
                       0 0 0 DI_STATE_HIDDEN;
                     mk_discovered_item (mk_ether_header 0 0 0) (mk_iphdr 1 2) (mk_udphdr 3 5)
                       0 0 0 0]
                    [0%nat] ∅ 0 0 false)) !! 0%nat = Some ra ∧
        state_test ra DI_STATE_SELECTED = true.
Proof.
  destruct (X12_select_all_and_select_none
              (mk_tool_context
                 [mk_discovered_item (mk_ether_header 0 0 0) (mk_iphdr 1 2) (mk_udphdr 3 4)
                    0 0 0 DI_STATE_HIDDEN;
                  mk_discovered_item (mk_ether_header 0 0 0) (mk_iphdr 1 2) (mk_udphdr 3 5)
                    0 0 0 0]
                 [0%nat] ∅ 0 0 false) 0%nat
              (mk_discovered_item (mk_ether_header 0 0 0) (mk_iphdr 1 2) (mk_udphdr 3 4)
                 0 0 0 DI_STATE_HIDDEN))
    as (ra & rn & Ha & _ & _ & Hin & _).
  - simpl. apply NoDup_singleton.
  - reflexivity.
  - exists ra. split; [exact Ha|]. apply Hin. simpl. apply list_elem_of_singleton. reflexivity.
Defined.

(** What [discovered_items_select_hide] does to one record. *)
Lemma select_hide_lookup ctx p r :
  NoDup (ctx_list ctx) → store ctx !! p = Some r →
  ∃ r', store (discovered_items_select_hide ctx) !! p = Some r' ∧
        (p ∈ ctx_list ctx → state_test r DI_STATE_SELECTED = true →
         state_test r DI_STATE_PCAP_RECORDING = false →
         state_test r' DI_STATE_HIDDEN = true) ∧
        (p ∉ ctx_list ctx ∨ state_test r DI_STATE_SELECTED = false
         ∨ state_test r DI_STATE_PCAP_RECORDING = true → r' = r) ∧
        (∀ m, Z.land DI_STATE_HIDDEN m = 0 → state_test r' m = state_test r m).
Proof.
  intros Hnd Hr. unfold discovered_items_select_hide. simpl.
  rewrite for_each_entry_lookup, Hr by done.
  destruct (decide (p ∈ ctx_list ctx)) as [Hp|Hp]; simpl; [|exists r; by repeat split].
  destruct (state_test r DI_STATE_SELECTED) eqn:Hs; simpl;
    [|exists r; by repeat split].
  destruct (state_test r DI_STATE_PCAP_RECORDING) eqn:Hrec;
    [exists r; by repeat split|].
  eexists; split; [done|]. split; [|split].
  - intros _ _ _. by apply state_test_set_same.
  - intros [?|[?|?]]; done.
  - intros m Hd. by apply state_test_set_other.
Qed.

(** X13.  [discovered_items_select_hide] sets HIDDEN on the listed records
    that are selected and not PCAP_RECORDING; a record that is being
    recorded, one that is not selected and one that is not listed are left
    exactly as they are, and no other flag changes. *)
Theorem X13_select_hide_spares_recording ctx p r :
  NoDup (ctx_list ctx) → store ctx !! p = Some r →
  ∃ r', store (discovered_items_select_hide ctx) !! p = Some r' ∧
        (p ∈ ctx_list ctx → state_test r DI_STATE_SELECTED = true →
         state_test r DI_STATE_PCAP_RECORDING = false →
         state_test r' DI_STATE_HIDDEN = true) ∧
        (p ∉ ctx_list ctx ∨ state_test r DI_STATE_SELECTED = false
         ∨ state_test r DI_STATE_PCAP_RECORDING = true → r' = r) ∧
        (∀ m, Z.land DI_STATE_HIDDEN m = 0 → state_test r' m = state_test r m).
Proof. apply select_hide_lookup. Qed.

(** X13 on a list of one record that is selected and being recorded. *)
Lemma X13_select_hide_witness :
  store (discovered_items_select_hide
           (mk_tool_context
              [mk_discovered_item (mk_ether_header 0 0 0) (mk_iphdr 1 2) (mk_udphdr 3 4) 0 0 0
                 (Z.lor DI_STATE_SELECTED DI_STATE_PCAP_RECORDING)]
              [0%nat] ∅ 0 0 false)) !! 0%nat
  = Some (mk_discovered_item (mk_ether_header 0 0 0) (mk_iphdr 1 2) (mk_udphdr 3 4) 0 0 0
            (Z.lor DI_STATE_SELECTED DI_STATE_PCAP_RECORDING)).
Proof.
  destruct (X13_select_hide_spares_recording
              (mk_tool_context
                 [mk_discovered_item (mk_ether_header 0 0 0) (mk_iphdr 1 2) (mk_udphdr 3 4) 0 0 0
                    (Z.lor DI_STATE_SELECTED DI_STATE_PCAP_RECORDING)]
                 [0%nat] ∅ 0 0 false) 0%nat
              (mk_discovered_item (mk_ether_header 0 0 0) (mk_iphdr 1 2) (mk_udphdr 3 4) 0 0 0
                 (Z.lor DI_STATE_SELECTED DI_STATE_PCAP_RECORDING)))
    as (r' & Hr' & _ & Hsame & _).
  - simpl. apply NoDup_singleton.
  - reflexivity.
  - rewrite Hr'. f_equal. apply Hsame. right. right. reflexivity.
Defined.

(** X14.  [discovered_items_unhide_all] clears HIDDEN on every listed
    record and changes no other flag; run after
    [discovered_items_select_hide] it brings every listed record back to the
    flags it had, HIDDEN cleared. *)
Theorem X14_unhide_all_shows_every_record ctx p r :
  NoDup (ctx_list ctx) → p ∈ ctx_list ctx → store ctx !! p = Some r →
  ∃ r1 r2,
    store (discovered_items_unhide_all ctx) !! p = Some r1 ∧
    store (discovered_items_unhide_all (discovered_items_select_hide ctx)) !! p = Some r2 ∧
    state_test r1 DI_STATE_HIDDEN = false ∧ state_test r2 DI_STATE_HIDDEN = false ∧
    (∀ m, 0 ≤ m < 2 ^ 32 → Z.land DI_STATE_HIDDEN m = 0 →
          state_test r1 m = state_test r m ∧ state_test r2 m = state_test r m).
Proof.
  intros Hnd Hp Hr.
  destruct (select_hide_lookup ctx p r Hnd Hr) as (rh & Hrh & _ & _ & Hoth).
  unfold discovered_items_unhide_all.
  change (ctx_list (discovered_items_select_hide ctx)) with (ctx_list ctx).
  cbn [store set_store].
  rewrite !for_each_entry_lookup by done. rewrite !decide_True by done.
  rewrite Hrh, Hr. simpl.
  eexists _, _. split; [done|]. split; [done|].
  split; [apply state_test_clr_same|]. split; [apply state_test_clr_same|].
  intros m Hm Hd. rewrite !state_test_clr_other by done. split; [done|by apply Hoth].
Qed.

(** X14 on a record that is selected and hidden. *)
Lemma X14_unhide_all_witness :
  ∃ r1, store (discovered_items_unhide_all
                 (sample_context [Z.lor DI_STATE_SELECTED DI_STATE_HIDDEN])) !! 0%nat = Some r1 ∧
        state_test r1 DI_STATE_HIDDEN = false ∧ state_test r1 DI_STATE_SELECTED = true.
Proof.
  destruct (X14_unhide_all_shows_every_record
              (sample_context [Z.lor DI_STATE_SELECTED DI_STATE_HIDDEN]) 0%nat
              (sample_record 0 (Z.lor DI_STATE_SELECTED DI_STATE_HIDDEN)))
    as (r1 & r2 & H1 & _ & Hh & _ & Hoth).
  - apply NoDup_seq.
  - apply elem_of_seq. simpl. lia.
  - reflexivity.
  - exists r1. split; [exact H1|]. split; [exact Hh|].
    destruct (Hoth DI_STATE_SELECTED) as [Hs _].
    + vm_compute. split; [discriminate|reflexivity].
    + reflexivity.
    + rewrite Hs. reflexivity.
Defined.

(** *** Toggles *)

Lemma land_single_bit s k :
  0 ≤ k → Z.land s (Z.shiftl 1 k) = if Z.testbit s k then Z.shiftl 1 k else 0.
Proof.
  intros Hk. apply Z.bits_inj'. intros n Hn.
  rewrite Z.land_spec, Z.shiftl_1_l, Z.pow2_bits_eqb by done.
  destruct (Z.eqb_spec k n) as [->|Hne].
  - destruct (Z.testbit s n); [|by rewrite Z.bits_0].
    by rewrite Z.pow2_bits_eqb, Z.eqb_refl.
  - rewrite andb_false_r. destruct (Z.testbit s k); [|by rewrite Z.bits_0].
    rewrite Z.pow2_bits_eqb by done. symmetry. by apply Z.eqb_neq.
Qed.

(** Flipping a one-bit flag of a record twice gives the record back. *)
Lemma show_toggle_involutive k r :
  0 ≤ k < 32 → Z.land (Z.shiftl 1 k) DI_STATE_SELECTED = 0 → state_ok r →
  show_toggle (Z.shiftl 1 k) (show_toggle (Z.shiftl 1 k) r) = r.
Proof.
  intros Hk Hd Hr. set (m := Z.shiftl 1 k) in *.
  assert (Hm : 0 ≤ m < 2 ^ 32).
  { unfold m. rewrite Z.shiftl_1_l. split; [lia|]. apply Z.pow_lt_mono_r; lia. }
  assert (Hnz : m ≠ 0) by (unfold m; rewrite Z.shiftl_1_l; lia).
  unfold show_toggle at 2.
  destruct (state_test r DI_STATE_SELECTED) eqn:Hs; simpl;
    [|unfold show_toggle; by rewrite Hs].
  pose proof (land_single_bit (state r) k ltac:(lia)) as Hbit. fold m in Hbit.
  destruct (state_test r m) eqn:Ht.
  - unfold show_toggle.
    rewrite state_test_clr_other, Hs by (done || vm_compute; split; congruence). simpl.
    rewrite state_test_clr_same. apply state_set_clr; [done|].
    rewrite state_test_get in Ht. unfold discovered_item_state_get in Ht.
    destruct (Z.testbit (state r) k); [done|]. rewrite Hbit in Ht. done.
  - unfold show_toggle. rewrite state_test_set_other, Hs by done. simpl.
    rewrite state_test_set_same by done. apply state_clr_set; [done|].
    rewrite state_test_get in Ht. unfold discovered_item_state_get in Ht.
    by destruct (Z.eqb_spec (Z.land (state r) m) 0).
Qed.

Lemma for_each_entry_twice body st l :
  NoDup l → (∀ p r, p ∈ l → st !! p = Some r → body (body r) = r) →
  for_each_entry body (for_each_entry body st l) l = st.
Proof.
  intros Hnd Hbody. apply list_eq. intros p.
  rewrite !for_each_entry_lookup by done.
  destruct (decide (p ∈ l)) as [Hp|Hp]; [|done].
  destruct (st !! p) as [r|] eqn:Hr; [|done]. simpl. f_equal. by eapply Hbody.
Qed.

Lemma set_store_store ctx : set_store ctx (store ctx) = ctx.
Proof. by destruct ctx. Qed.

Lemma set_store_set_store ctx st st' : set_store (set_store ctx st) st' = set_store ctx st'.
Proof. done. Qed.

(** X15.  Each of the four show toggles is its own inverse: on a list
    without repetition whose records keep their flags within 32 bits, running
    [discovered_items_select_show_pids_toggle] (or the TR 101 290, IAT or
    stream-model one) twice gives the registry back. *)
Theorem X15_show_toggles_are_involutions ctx :
  NoDup (ctx_list ctx) →
  (∀ p r, store ctx !! p = Some r → state_ok r) →
  discovered_items_select_show_pids_toggle (discovered_items_select_show_pids_toggle ctx) = ctx ∧
  discovered_items_select_show_tr101290_toggle
    (discovered_items_select_show_tr101290_toggle ctx) = ctx ∧
  discovered_items_select_show_iats_toggle (discovered_items_select_show_iats_toggle ctx) = ctx ∧
  discovered_items_select_show_streammodel_toggle
    (discovered_items_select_show_streammodel_toggle ctx) = ctx.
Proof.
  intros Hnd Hok.
  assert (Hall : ∀ k, 0 ≤ k < 32 → Z.land (Z.shiftl 1 k) DI_STATE_SELECTED = 0 →
            set_store (set_store ctx (for_each_entry (show_toggle (Z.shiftl 1 k)) (store ctx)
                                        (ctx_list ctx)))
              (for_each_entry (show_toggle (Z.shiftl 1 k))
                 (for_each_entry (show_toggle (Z.shiftl 1 k)) (store ctx) (ctx_list ctx))
                 (ctx_list ctx)) = ctx).
  { intros k Hk Hd. rewrite for_each_entry_twice.
    - by destruct ctx.
    - done.
    - intros p r _ Hr. apply show_toggle_involutive; eauto. }
  split; [apply (Hall 6); [lia|done]|].
  split; [apply (Hall 7); [lia|done]|].
  split; [apply (Hall 8); [lia|done]|apply (Hall 9); [lia|done]].
Qed.

(** X15 on two records, the first of them selected. *)
Lemma X15_show_toggles_witness :
  discovered_items_select_show_pids_toggle
    (discovered_items_select_show_pids_toggle (sample_context [DI_STATE_SELECTED; 0]))
  = sample_context [DI_STATE_SELECTED; 0].
Proof.
  destruct (X15_show_toggles_are_involutions (sample_context [DI_STATE_SELECTED; 0]))
    as [Hpids _].
  - apply NoDup_seq.
  - intros [|[|p]] r Hr; simpl in Hr; try discriminate Hr;
      injection Hr as <-; vm_compute; split; congruence.
  - exact Hpids.
Defined.

(** *** Recording requests *)

Lemma state_set_idem m r :
  discovered_item_state_set m (discovered_item_state_set m r) = discovered_item_state_set m r.
Proof.
  unfold discovered_item_state_set, set_state; simpl.
  by rewrite <- Z.lor_assoc, Z.lor_diag.
Qed.

Lemma for_each_entry_idem body st l :
  NoDup l → (∀ r, body (body r) = body r) →
  for_each_entry body (for_each_entry body st l) l = for_each_entry body st l.
Proof.
  intros Hnd Hbody. apply list_eq. intros p.
  rewrite !for_each_entry_lookup by done.
  destruct (decide (p ∈ l)) as [Hp|Hp]; [|done].
  destruct (st !! p) as [r|]; [|done]. simpl. by rewrite Hbody.
Qed.

(** X16.  [discovered_items_record_abort] asks every listed record that is
    recording or about to record to stop: afterwards the record has
    PCAP_RECORD_STOP exactly when it had it before or had PCAP_RECORDING or
    PCAP_RECORD_START, every other flag is as before, and a second abort
    changes nothing more. *)
Theorem X16_record_abort_requests_stop ctx p r :
  NoDup (ctx_list ctx) → p ∈ ctx_list ctx → store ctx !! p = Some r →
  ∃ r', store (discovered_items_record_abort ctx) !! p = Some r' ∧
        state_test r' DI_STATE_PCAP_RECORD_STOP
        = state_test r DI_STATE_PCAP_RECORD_STOP
          || state_test r DI_STATE_PCAP_RECORDING || state_test r DI_STATE_PCAP_RECORD_START ∧
        (∀ m, Z.land DI_STATE_PCAP_RECORD_STOP m = 0 → state_test r' m = state_test r m) ∧
        discovered_items_record_abort (discovered_items_record_abort ctx)
        = discovered_items_record_abort ctx.
Proof.
  intros Hnd Hp Hr. unfold discovered_items_record_abort at 1. cbn [store set_store].
  rewrite for_each_entry_lookup, decide_True, Hr by done. simpl.
  eexists. split; [done|]. split; [|split].
  - destruct (state_test r DI_STATE_PCAP_RECORDING) eqn:H1;
      destruct (state_test r DI_STATE_PCAP_RECORD_START) eqn:H2; simpl;
      rewrite ?state_test_set_same, ?orb_true_r, ?orb_false_r by done; done.
  - intros m Hm.
    destruct (state_test r DI_STATE_PCAP_RECORDING || state_test r DI_STATE_PCAP_RECORD_START);
      [by apply state_test_set_other|done].
  - unfold discovered_items_record_abort.
    change (ctx_list (set_store ctx ?x)) with (ctx_list ctx). cbn [store set_store].
    rewrite for_each_entry_idem; [done|done|].
    intros r0.
    destruct (state_test r0 DI_STATE_PCAP_RECORDING || state_test r0 DI_STATE_PCAP_RECORD_START)
      eqn:Ht; [|by rewrite Ht].
    rewrite !state_test_set_other, Ht by done. apply state_set_idem.
Qed.

(** X16 on one record that is recording. *)
Lemma X16_record_abort_witness :
  ∃ r', store (discovered_items_record_abort (sample_context [DI_STATE_PCAP_RECORDING]))
          !! 0%nat = Some r' ∧
        state_test r' DI_STATE_PCAP_RECORD_STOP = true ∧
        state_test r' DI_STATE_PCAP_RECORDING = true.
Proof.
  destruct (X16_record_abort_requests_stop (sample_context [DI_STATE_PCAP_RECORDING]) 0%nat
              (sample_record 0 DI_STATE_PCAP_RECORDING))
    as (r' & H1 & Hstop & Hoth & _).
  - apply NoDup_seq.
  - apply elem_of_seq. simpl. lia.
  - reflexivity.
  - exists r'. split; [exact H1|]. split; [rewrite Hstop; reflexivity|].
    rewrite Hoth; reflexivity.
Defined.



(** *** Moving the selection *)

Lemma select_next_loop_skip st l1 rest :
  no_visible_selection st l1 →
  select_next_loop st false (l1 ++ rest) = select_next_loop st false rest.
Proof.
  induction l1 as [|e l1 IH]; intros Hno; [done|].
  assert (Hl1 : no_visible_selection st l1).
  { intros p Hp. apply Hno, elem_of_cons. by right. }
  specialize (Hno e ltac:(apply elem_of_cons; by left)).
  unfold hidden, selected in Hno. simpl.
  destruct (state_test (st !!! e) DI_STATE_HIDDEN); [by apply IH|].
  destruct (state_test (st !!! e) DI_STATE_SELECTED); [|by apply IH].
  by destruct Hno.
Qed.

Lemma select_next_loop_hidden_skip st b hid rest :
  (∀ p, p ∈ hid → hidden st p) →
  select_next_loop st b (hid ++ rest) = select_next_loop st b rest.
Proof.
  induction hid as [|e hid IH]; intros Hh; [done|].
  simpl. rewrite (Hh e) by (apply elem_of_cons; by left).
  apply IH. intros p Hp. apply Hh, elem_of_cons. by right.
Qed.

Lemma select_prev_loop_skip st p l1 rest :
  no_visible_selection st l1 →
  ∃ p', select_prev_loop st p (l1 ++ rest) = select_prev_loop st p' rest.
Proof.
  revert p. induction l1 as [|e l1 IH]; intros p Hno; [by exists p|].
  assert (Hl1 : no_visible_selection st l1).
  { intros x Hx. apply Hno, elem_of_cons. by right. }
  specialize (Hno e ltac:(apply elem_of_cons; by left)).
  unfold hidden, selected in Hno. simpl.
  destruct (state_test (st !!! e) DI_STATE_HIDDEN); [by apply IH|].
  destruct (state_test (st !!! e) DI_STATE_SELECTED); [by destruct Hno|].
  destruct p; by apply IH.
Qed.

Lemma select_prev_loop_hidden_skip st p hid rest :
  (∀ x, x ∈ hid → hidden st x) →
  select_prev_loop st p (hid ++ rest) = select_prev_loop st p rest.
Proof.
  induction hid as [|e hid IH]; intros Hh; [done|].
  simpl. rewrite (Hh e) by (apply elem_of_cons; by left).
  apply IH. intros x Hx. apply Hh, elem_of_cons. by right.
Qed.

Lemma select_next_loop_move st l1 e hid n l2 :
  no_visible_selection st l1 →
  ¬ hidden st e → selected st e →
  (∀ p, p ∈ hid → hidden st p) →
  ¬ hidden st n → ¬ selected st n →
  select_next_loop st false (l1 ++ e :: hid ++ n :: l2)
  = alter (discovered_item_state_set DI_STATE_SELECTED) n
      (alter (discovered_item_state_clr DI_STATE_SELECTED) e st).
Proof.
  intros Hl1 Heh Hes Hhid Hnh Hns. rewrite select_next_loop_skip by done.
  unfold hidden, selected in *.
  assert (Hne : e ≠ n) by (intros ->; done).
  set (st1 := alter (discovered_item_state_clr DI_STATE_SELECTED) e st).
  assert (Hstep : select_next_loop st false (e :: hid ++ n :: l2)
                  = select_next_loop st1 true (hid ++ n :: l2)).
  { simpl. apply not_true_is_false in Heh. rewrite Heh, Hes. by destruct hid. }
  rewrite Hstep, select_next_loop_hidden_skip.
  - assert (Hn1 : st1 !!! n = st !!! n) by (unfold st1; by rewrite list_lookup_total_alter_ne).
    apply not_true_is_false in Hnh, Hns. simpl. by rewrite Hn1, Hnh, Hns.
  - intros p Hp. unfold hidden, st1.
    rewrite list_lookup_total_alter_ne; [by apply Hhid|].
    intros ->. by apply Heh, Hhid.
Qed.

Lemma select_prev_loop_move st l1 q hid e l2 :
  no_visible_selection st l1 →
  ¬ hidden st q → ¬ selected st q →
  (∀ p, p ∈ hid → hidden st p) →
  ¬ hidden st e → selected st e →
  select_prev_loop st None (l1 ++ q :: hid ++ e :: l2)
  = alter (discovered_item_state_set DI_STATE_SELECTED) q
      (alter (discovered_item_state_clr DI_STATE_SELECTED) e st).
Proof.
  intros Hl1 Hqh Hqs Hhid Heh Hes.
  destruct (select_prev_loop_skip st None l1 (q :: hid ++ e :: l2) Hl1) as [p' ->].
  unfold hidden, selected in *.
  apply not_true_is_false in Hqh, Hqs, Heh.
  assert (Hstep : select_prev_loop st p' (q :: hid ++ e :: l2)
                  = select_prev_loop st (Some q) (hid ++ e :: l2)).
  { simpl. rewrite Hqh. destruct p'; [by rewrite Hqs|done]. }
  rewrite Hstep, select_prev_loop_hidden_skip by done.
  simpl. by rewrite Heh, Hes.
Qed.

(** X18.  [discovered_items_select_next] moves the selection to the next
    record that is shown: when the list reads [l1 ++ e :: hid ++ n :: l2]
    with no shown selected record in [l1], [e] shown and selected, all of
    [hid] hidden and [n] shown and not selected, the call clears SELECTED on
    [e], sets it on [n] and touches nothing else. *)
Theorem X18_select_next_moves_to_next_shown ctx l1 e hid n l2 :
  ctx_list ctx = l1 ++ e :: hid ++ n :: l2 →
  no_visible_selection (store ctx) l1 →
  ¬ hidden (store ctx) e → selected (store ctx) e →
  (∀ p, p ∈ hid → hidden (store ctx) p) →
  ¬ hidden (store ctx) n → ¬ selected (store ctx) n →
  discovered_items_select_next ctx
  = set_store ctx
      (alter (discovered_item_state_set DI_STATE_SELECTED) n
         (alter (discovered_item_state_clr DI_STATE_SELECTED) e (store ctx))).
Proof.
  intros Hl Hl1 Heh Hes Hhid Hnh Hns. unfold discovered_items_select_next.
  by rewrite Hl, select_next_loop_move.
Qed.

(** X19.  [discovered_items_select_prev] moves the selection to the previous
    record that is shown: when the list reads [l1 ++ q :: hid ++ e :: l2]
    with no shown selected record in [l1], [q] shown and not selected, all of
    [hid] hidden and [e] shown and selected, the call clears SELECTED on [e],
    sets it on [q] and touches nothing else. *)
Theorem X19_select_prev_moves_to_previous_shown ctx l1 q hid e l2 :
  ctx_list ctx = l1 ++ q :: hid ++ e :: l2 →
  no_visible_selection (store ctx) l1 →
  ¬ hidden (store ctx) q → ¬ selected (store ctx) q →
  (∀ p, p ∈ hid → hidden (store ctx) p) →
  ¬ hidden (store ctx) e → selected (store ctx) e →
  discovered_items_select_prev ctx
  = set_store ctx
      (alter (discovered_item_state_set DI_STATE_SELECTED) q
         (alter (discovered_item_state_clr DI_STATE_SELECTED) e (store ctx))).
Proof.
  intros Hl Hl1 Hqh Hqs Hhid Heh Hes. unfold discovered_items_select_prev.
  by rewrite Hl, select_prev_loop_move.
Qed.

(** X18 on five records, the second selected and the third hidden. *)
Lemma X18_select_next_witness :
  discovered_items_select_next (sample_context [0; DI_STATE_SELECTED; DI_STATE_HIDDEN; 0; 0])
  = sample_context [0; 0; DI_STATE_HIDDEN; DI_STATE_SELECTED; 0].
Proof.
  etransitivity;
    [apply (X18_select_next_moves_to_next_shown
              (sample_context [0; DI_STATE_SELECTED; DI_STATE_HIDDEN; 0; 0])
              [0%nat] 1%nat [2%nat] 3%nat [4%nat])|reflexivity].
  - reflexivity.
  - intros p Hp. apply elem_of_cons in Hp as [->|Hp]; [|by apply elem_of_nil in Hp].
    right. unfold selected. vm_compute. discriminate.
  - unfold hidden. vm_compute. discriminate.
  - reflexivity.
  - intros p Hp. apply elem_of_cons in Hp as [->|Hp]; [|by apply elem_of_nil in Hp].
    reflexivity.
  - unfold hidden. vm_compute. discriminate.
  - unfold selected. vm_compute. discriminate.
Defined.

(** X19 on five records, the fourth selected and the third hidden. *)
Lemma X19_select_prev_witness :
  discovered_items_select_prev (sample_context [0; 0; DI_STATE_HIDDEN; DI_STATE_SELECTED; 0])
  = sample_context [0; DI_STATE_SELECTED; DI_STATE_HIDDEN; 0; 0].
Proof.
  etransitivity;
    [apply (X19_select_prev_moves_to_previous_shown
              (sample_context [0; 0; DI_STATE_HIDDEN; DI_STATE_SELECTED; 0])
              [0%nat] 1%nat [2%nat] 3%nat [4%nat])|reflexivity].
  - reflexivity.
  - intros p Hp. apply elem_of_cons in Hp as [->|Hp]; [|by apply elem_of_nil in Hp].
    right. unfold selected. vm_compute. discriminate.
  - unfold hidden. vm_compute. discriminate.
  - unfold selected. vm_compute. discriminate.
  - intros p Hp. apply elem_of_cons in Hp as [->|Hp]; [|by apply elem_of_nil in Hp].
    reflexivity.
  - unfold hidden. vm_compute. discriminate.
  - reflexivity.
Defined.

Lemma state_test_true_land r k :
  0 ≤ k → state_test r (Z.shiftl 1 k) = true → Z.land (state r) (Z.shiftl 1 k) = Z.shiftl 1 k.
Proof.
  intros Hk Ht. rewrite state_test_get in Ht. unfold discovered_item_state_get in Ht.
  rewrite land_single_bit in * by done.
  destruct (Z.testbit (state r) k); done.
Qed.

Lemma state_test_false_land r m : state_test r m = false → Z.land (state r) m = 0.
Proof.
  intros Ht. rewrite state_test_get in Ht. unfold discovered_item_state_get in Ht.
  by destruct (Z.eqb_spec (Z.land (state r) m) 0).
Qed.

(** X20.  [discovered_items_select_prev] undoes [discovered_items_select_next]:
    on a list without repetition whose entries are records with 32-bit flags,
    in the situation of X18 (the selection moves from [e] to [n]) the two
    calls one after the other give the registry back. *)
Theorem X20_select_prev_undoes_select_next ctx l1 e hid n l2 :
  NoDup (ctx_list ctx) →
  (∀ p, p ∈ ctx_list ctx → ∃ r, store ctx !! p = Some r ∧ state_ok r) →
  ctx_list ctx = l1 ++ e :: hid ++ n :: l2 →
  no_visible_selection (store ctx) l1 →
  ¬ hidden (store ctx) e → selected (store ctx) e →
  (∀ p, p ∈ hid → hidden (store ctx) p) →
  ¬ hidden (store ctx) n → ¬ selected (store ctx) n →
  discovered_items_select_prev (discovered_items_select_next ctx) = ctx.
Proof.
  intros Hnd Hrec Hl Hl1 Heh Hes Hhid Hnh Hns.
  unfold discovered_items_select_prev, discovered_items_select_next.
  change (ctx_list (set_store ctx ?x)) with (ctx_list ctx). cbn [store set_store].
  rewrite Hl, select_next_loop_move by done.
  set (st := store ctx) in *.
  set (st1 := alter (discovered_item_state_set DI_STATE_SELECTED) n
                (alter (discovered_item_state_clr DI_STATE_SELECTED) e st)).
  destruct (Hrec e) as (re & Hre & Hreok); [rewrite Hl; set_solver|].
  destruct (Hrec n) as (rn & Hrn & Hrnok); [rewrite Hl; set_solver|].
  unfold hidden, selected in *.
  rewrite (list_lookup_total_correct _ _ _ Hre) in Heh, Hes.
  rewrite (list_lookup_total_correct _ _ _ Hrn) in Hnh, Hns.
  apply not_true_is_false in Heh, Hnh, Hns.
  assert (Hne : e ≠ n) by (intros ->; congruence).
  assert (He1 : st1 !! e = Some (discovered_item_state_clr DI_STATE_SELECTED re)).
  { unfold st1. by rewrite list_lookup_alter_ne, list_lookup_alter_eq, Hre. }
  assert (Hn1 : st1 !! n = Some (discovered_item_state_set DI_STATE_SELECTED rn)).
  { unfold st1. by rewrite list_lookup_alter_eq, list_lookup_alter_ne, Hrn. }
  assert (Hother : ∀ p, p ≠ e → p ≠ n → st1 !!! p = st !!! p).
  { intros p H1 H2. unfold st1. by rewrite !list_lookup_total_alter_ne. }
  rewrite Hl in Hnd. apply NoDup_app in Hnd as (_ & Hl1n & _).
  rewrite select_prev_loop_move.
  - transitivity (set_store ctx st); [|apply set_store_store].
    rewrite set_store_set_store. f_equal. apply list_eq. intros p.
    destruct (decide (p = e)) as [->|Hpe].
    + rewrite list_lookup_alter_eq, list_lookup_alter_ne, He1 by done. simpl.
      rewrite state_set_clr; [done|done|]. by apply (state_test_true_land re 4).
    + rewrite list_lookup_alter_ne by done. destruct (decide (p = n)) as [->|Hpn].
      * rewrite list_lookup_alter_eq, Hn1. simpl.
        rewrite state_clr_set; [done|done|]. by apply state_test_false_land.
      * unfold st1. by rewrite !list_lookup_alter_ne.
  - intros p Hp. unfold hidden, selected. rewrite Hother; [by apply Hl1| |].
    + intros ->. apply (Hl1n e Hp). set_solver.
    + intros ->. apply (Hl1n n Hp). set_solver.
  - unfold hidden. rewrite (list_lookup_total_correct _ _ _ He1).
    rewrite state_test_clr_other, Heh; [done|by vm_compute|done].
  - unfold selected. rewrite (list_lookup_total_correct _ _ _ He1).
    by rewrite state_test_clr_same.
  - intros p Hp. unfold hidden. specialize (Hhid p Hp). rewrite Hother; [done| |].
    + intros ->. rewrite (list_lookup_total_correct _ _ _ Hre) in Hhid. congruence.
    + intros ->. rewrite (list_lookup_total_correct _ _ _ Hrn) in Hhid. congruence.
  - unfold hidden. rewrite (list_lookup_total_correct _ _ _ Hn1).
    by rewrite state_test_set_other, Hnh.
  - unfold selected. rewrite (list_lookup_total_correct _ _ _ Hn1).
    by apply state_test_set_same.
Qed.

(** X20 on five records, the second selected and the third hidden. *)
Lemma X20_select_prev_next_witness :
  discovered_items_select_prev
    (discovered_items_select_next
       (sample_context [0; DI_STATE_SELECTED; DI_STATE_HIDDEN; 0; 0]))
  = sample_context [0; DI_STATE_SELECTED; DI_STATE_HIDDEN; 0; 0].
Proof.
  apply (X20_select_prev_undoes_select_next
           (sample_context [0; DI_STATE_SELECTED; DI_STATE_HIDDEN; 0; 0])
           [0%nat] 1%nat [2%nat] 3%nat [4%nat]).
  - apply NoDup_seq.
  - intros p Hp. apply elem_of_seq in Hp. simpl in Hp.
    destruct p as [|[|[|[|[|p]]]]]; [..|lia];
      (eexists; split; [reflexivity|vm_compute; split; congruence]).
  - reflexivity.
  - intros p Hp. apply elem_of_cons in Hp as [->|Hp]; [|by apply elem_of_nil in Hp].
    right. unfold selected. vm_compute. discriminate.
  - unfold hidden. vm_compute. discriminate.
  - reflexivity.
  - intros p Hp. apply elem_of_cons in Hp as [->|Hp]; [|by apply elem_of_nil in Hp].
    reflexivity.
  - unfold hidden. vm_compute. discriminate.
  - unfold selected. vm_compute. discriminate.
Defined.

Lemma select_prev_loop_no_selection st p l :
  no_visible_selection st l → select_prev_loop st p l = st.
Proof.
  intros Hno. destruct (select_prev_loop_skip st p l [] Hno) as [p' H].
  by rewrite app_nil_r in H.
Qed.

(** X21.  The selection does not wrap around and is not invented.  With no
    shown selected record in the list, [discovered_items_select_next] and
    [discovered_items_select_prev] change nothing.  When the only record that
    may be shown and selected is the last entry of the list, select_next
    changes nothing; when it is the first shown entry, select_prev changes
    nothing. *)
Theorem X21_selection_stops_at_the_ends ctx :
  (no_visible_selection (store ctx) (ctx_list ctx) →
   discovered_items_select_next ctx = ctx ∧ discovered_items_select_prev ctx = ctx) ∧
  (∀ l1 e, ctx_list ctx = l1 ++ [e] → no_visible_selection (store ctx) l1 →
           discovered_items_select_next ctx = ctx) ∧
  (∀ hid e l2, ctx_list ctx = hid ++ e :: l2 →
               (∀ p, p ∈ hid → hidden (store ctx) p) → ¬ hidden (store ctx) e →
               no_visible_selection (store ctx) l2 →
               discovered_items_select_prev ctx = ctx).
Proof.
  unfold discovered_items_select_next, discovered_items_select_prev.
  split; [|split].
  - intros Hno. split.
    + rewrite <- (app_nil_r (ctx_list ctx)), select_next_loop_skip by done.
      apply set_store_store.
    + rewrite select_prev_loop_no_selection by done. apply set_store_store.
  - intros l1 e Hl Hno. rewrite Hl, select_next_loop_skip by done. simpl.
    destruct (state_test (store ctx !!! e) DI_STATE_HIDDEN); [apply set_store_store|].
    destruct (state_test (store ctx !!! e) DI_STATE_SELECTED); apply set_store_store.
  - intros hid e l2 Hl Hhid He Hno. rewrite Hl, select_prev_loop_hidden_skip by done.
    unfold hidden in He. apply not_true_is_false in He. simpl. rewrite He.
    rewrite select_prev_loop_no_selection by done. apply set_store_store.
Qed.

(** X21 on three records, the last of them selected. *)
Lemma X21_selection_ends_witness :
  discovered_items_select_next (sample_context [0; 0; DI_STATE_SELECTED])
  = sample_context [0; 0; DI_STATE_SELECTED].
Proof.
  destruct (X21_selection_stops_at_the_ends (sample_context [0; 0; DI_STATE_SELECTED]))
    as (_ & Hlast & _).
  apply (Hlast [0%nat; 1%nat] 2%nat).
  - reflexivity.
  - intros p Hp. right. unfold selected.
    apply elem_of_cons in Hp as [->|Hp]; [vm_compute; discriminate|].
    apply elem_of_cons in Hp as [->|Hp]; [vm_compute; discriminate|].
    by apply elem_of_nil in Hp.
Defined.

End FlagsMore.

(* ===================================================================== *)
(** * More on the registry: linking and creating records *)
(* ===================================================================== *)

Section RegistryMore.

Implicit Types (ctx : tool_context_s) (st : list discovered_item_s) (l : list ptr).

(** X22.  [discovered_item_insert] links the new record in front of the first
    entry whose key is not smaller than its own: the entries keep their
    order, those ahead of the new record all have a smaller key, the one
    right behind it has not, and in the store no header changes and no flag
    is cleared. *)
Theorem X22_insert_links_before_first_not_smaller host st l di :
  ∃ l1 l2,
    l = l1 ++ l2 ∧
    snd (discovered_item_insert host st l di) = l1 ++ di :: l2 ∧
    (∀ e, e ∈ l1 → key_at host st e < key_at host st di) ∧
    (∀ e, head l2 = Some e → key_at host st di ≤ key_at host st e) ∧
    flags_grow st (fst (discovered_item_insert host st l di)).
Proof.
  unfold discovered_item_insert.
  destruct (discovered_item_insert_walk_spec host st di l) as (l1 & l2 & Hl & Hsnd & Hlt & Hhd).
  exists l1, l2. split; [done|]. split; [done|]. split; [done|]. split.
  - intros e He. destruct l2 as [|e' l2]; [done|]. injection He as ->. by destruct Hhd.
  - apply discovered_item_insert_walk_grow.
Qed.

(** X23.  [discovered_item_insert] keeps the list in order: when the list
    holds every record of the store once, ascending in the key the code
    compares and with the duplicate flag on records of equal key, the same
    holds after a new record is put at the end of the store and inserted. *)
Theorem X23_insert_keeps_the_list_sorted host st r l :
  list_inv host st l →
  list_inv host (fst (discovered_item_insert host (st ++ [r]) l (length st)))
                (snd (discovered_item_insert host (st ++ [r]) l (length st))).
Proof. apply discovered_item_insert_inv. Qed.

(** X23 on a list of one record and a new record with a smaller key. *)
Lemma X23_insert_witness :
  list_inv LittleEndian
    (fst (discovered_item_insert LittleEndian [sample_record 7 0; sample_record 5 0]
            [0%nat] 1%nat))
    (snd (discovered_item_insert LittleEndian [sample_record 7 0; sample_record 5 0]
            [0%nat] 1%nat)).
Proof.
  apply (X23_insert_keeps_the_list_sorted LittleEndian [sample_record 7 0] (sample_record 5 0)
           [0%nat]).
  split.
  - apply NoDup_singleton.
  - intros p. rewrite elem_of_cons, elem_of_nil. simpl. lia.
  - repeat constructor.
  - intros p q Hp Hq Hne.
    apply elem_of_cons in Hp as [->|Hp]; [|by apply elem_of_nil in Hp].
    apply elem_of_cons in Hq as [->|Hq]; [|by apply elem_of_nil in Hq].
    by destruct Hne.
Defined.

(** The walk changes a record in one way only: it adds the duplicate flag. *)
Lemma discovered_item_insert_walk_cases host st di l p :
  fst (discovered_item_insert_walk host st di l) !! p = st !! p ∨
  fst (discovered_item_insert_walk host st di l) !! p
  = discovered_item_state_set DI_STATE_DST_DUPLICATE <$> st !! p.
Proof.
  destruct (discovered_item_insert_walk_spec host st di l) as (l1 & l2 & _ & _ & _ & Hst).
  destruct l2 as [|e l2]; [left; by rewrite Hst|].
  destruct Hst as [_ ->]. destruct (_ =? _); [|by left].
  destruct (decide (e = p)) as [->|Hep].
  - rewrite list_lookup_alter_eq. destruct (decide (di = p)) as [->|Hdp].
    + right. rewrite list_lookup_alter_eq. destruct (st !! p); [|done].
      simpl. by rewrite state_set_idem.
    + right. by rewrite list_lookup_alter_ne.
  - rewrite list_lookup_alter_ne by done. destruct (decide (di = p)) as [->|Hdp].
    + right. by rewrite list_lookup_alter_eq.
    + left. by rewrite list_lookup_alter_ne.
Qed.

(** X24.  The duplicate flag of [discovered_item_insert] is exact on a list
    in order: the new record, allocated without the flag, carries
    DST_DUPLICATE after the insertion if and only if a record of the list has
    the same key, and a record of the list that carries the flag afterwards
    either had it before or has the key of the new record. *)
Theorem X24_insert_flags_duplicates_exactly host st r l :
  list_inv host st l → state_test r DI_STATE_DST_DUPLICATE = false →
  let st' := fst (discovered_item_insert host (st ++ [r]) l (length st)) in
  (state_test (st' !!! length st) DI_STATE_DST_DUPLICATE = true ↔
   ∃ e, e ∈ l ∧ sort_key host (st !!! e) = sort_key host r) ∧
  (∀ e, e ∈ l → state_test (st' !!! e) DI_STATE_DST_DUPLICATE = true →
        state_test (st !!! e) DI_STATE_DST_DUPLICATE = true ∨
        sort_key host (st !!! e) = sort_key host r).
Proof.
  intros Hinv Hr st'. unfold discovered_item_insert in st'.
  destruct (discovered_item_insert_walk_spec host (st ++ [r]) (length st) l)
    as (l1 & l2 & Hl & _ & Hlt & Hhd).
  fold st' in Hhd.
  assert (Hold : ∀ e, e ∈ l → (st ++ [r]) !!! e = st !!! e).
  { intros e He. apply (li_range _ _ _ Hinv) in He. by apply lookup_total_app_l. }
  assert (Hfresh : ∀ e, e ∈ l → length st ≠ e).
  { intros e He. apply (li_range _ _ _ Hinv) in He. lia. }
  assert (Hnew : (st ++ [r]) !!! length st = r).
  { by rewrite lookup_total_app_r, Nat.sub_diag by lia. }
  assert (Hkey : ∀ e, e ∈ l → key_at host (st ++ [r]) e = sort_key host (st !!! e)).
  { intros e He. unfold key_at. by rewrite (Hold e He). }
  assert (Hkn : key_at host (st ++ [r]) (length st) = sort_key host r).
  { unfold key_at. by rewrite Hnew. }
  rewrite Hkn in Hhd.
  destruct l2 as [|e2 l2].
  { rewrite app_nil_r in Hl. subst l1. rewrite Hhd, Hnew, Hr. split.
    - split; [done|]. intros (e & He & Heq). specialize (Hlt e He).
      rewrite Hkey, Hkn in Hlt by done. lia.
    - intros e He. rewrite (Hold e He). by left. }
  assert (He2 : e2 ∈ l).
  { rewrite Hl. apply elem_of_app. right. apply elem_of_cons. by left. }
  rewrite Hkey in Hhd by done. destruct Hhd as [Hle Hst'].
  destruct (Z.eqb_spec (sort_key host (st !!! e2)) (sort_key host r)) as [Heq|Hneq].
  - split.
    + split; [intros _; by exists e2|intros _].
      rewrite Hst', list_lookup_total_alter_ne by (apply not_eq_sym, Hfresh, He2).
      rewrite list_lookup_total_alter_eq, Hnew by (rewrite length_app; simpl; lia).
      by apply state_test_set_same.
    + intros e He. rewrite Hst'. destruct (decide (e = e2)) as [->|Hne]; [by right|].
      rewrite !list_lookup_total_alter_ne, (Hold e He); [by left| |by apply not_eq_sym].
      by apply Hfresh.
  - split.
    + rewrite Hst', Hnew, Hr. split; [done|]. intros (e & He & Heq).
      rewrite Hl in He. apply elem_of_app in He as [He|He].
      * assert (He' : e ∈ l) by (rewrite Hl; apply elem_of_app; by left).
        specialize (Hlt e He). rewrite Hkey, Hkn in Hlt by done. lia.
      * apply elem_of_cons in He as [->|He]; [done|].
        pose proof (li_sorted _ _ _ Hinv) as Hsorted. rewrite Hl in Hsorted.
        apply StronglySorted_app_1_r in Hsorted. inversion Hsorted as [|? ? _ Hall]; subst.
        rewrite Forall_forall in Hall. specialize (Hall e He).
        unfold key_at in Hall. lia.
    + intros e He. rewrite Hst', (Hold e He). by left.
Qed.

(** X24 on a list of one record and a new record for the same destination. *)
Lemma X24_insert_duplicate_witness :
  state_test
    (fst (discovered_item_insert LittleEndian [sample_record 7 0; sample_record 7 0]
            [0%nat] 1%nat) !!! 1%nat) DI_STATE_DST_DUPLICATE = true.
Proof.
  destruct (X24_insert_flags_duplicates_exactly LittleEndian [sample_record 7 0]
              (sample_record 7 0) [0%nat]) as [Hnew _].
  - split.
    + apply NoDup_singleton.
    + intros p. rewrite elem_of_cons, elem_of_nil. simpl. lia.
    + repeat constructor.
    + intros p q Hp Hq Hne.
      apply elem_of_cons in Hp as [->|Hp]; [|by apply elem_of_nil in Hp].
      apply elem_of_cons in Hq as [->|Hq]; [|by apply elem_of_nil in Hq].
      by destruct Hne.
  - reflexivity.
  - apply Hnew. exists 0%nat. split; [apply elem_of_cons; by left|reflexivity].
Defined.

Lemma discovered_item_insert_walk_length host st di l :
  length (snd (discovered_item_insert_walk host st di l)) = S (length l).
Proof.
  destruct (discovered_item_insert_walk_spec host st di l) as (l1 & l2 & -> & -> & _).
  rewrite !length_app. simpl. lia.
Qed.

(** X25.  A miss with memory at hand creates exactly one record:
    [discovered_item_findcreate] returns a pointer to a new record at the end
    of the store, which holds the headers of the packet, the low and high
    water marks 50000000 and -1, the flag PCAP_RECORD_START exactly when
    [automaticallyRecordStreams] is set and, DST_DUPLICATE apart, no other
    flag; the records already there are as before or have gained
    DST_DUPLICATE; the list is one entry longer and the miss is counted. *)
Theorem X25_findcreate_miss_creates_one_record host ctx eth ip udp :
  findcreate_lookup host ctx ip udp = None →
  ∃ ctx' r',
    discovered_item_findcreate host true ctx eth ip udp = (ctx', Some (length (store ctx))) ∧
    length (store ctx') = S (length (store ctx)) ∧
    store ctx' !! length (store ctx) = Some r' ∧
    di_ethhdr r' = eth ∧ headers r' = (ip, udp) ∧
    iat_lwm_us r' = 50000000 ∧ iat_hwm_us r' = -1 ∧ iat_cur_us r' = 0 ∧
    state_test r' DI_STATE_PCAP_RECORD_START = automaticallyRecordStreams ctx ∧
    (∀ m, Z.land (Z.lor DI_STATE_DST_DUPLICATE DI_STATE_PCAP_RECORD_START) m = 0 →
          state_test r' m = false) ∧
    (∀ p r, store ctx !! p = Some r →
            ∃ r1, store ctx' !! p = Some r1 ∧
                  (r1 = r ∨ r1 = discovered_item_state_set DI_STATE_DST_DUPLICATE r)) ∧
    length (ctx_list ctx') = S (length (ctx_list ctx)) ∧
    cacheMiss ctx' = to_uint64 (cacheMiss ctx + 1) ∧ cacheHit ctx' = cacheHit ctx.
Proof.
  intros Hmiss. unfold discovered_item_findcreate. rewrite Hmiss.
  unfold discovered_item_alloc, discovered_item_insert.
  set (r0 := mk_discovered_item eth ip udp 50000000 (-1) 0 0).
  set (n := length (store ctx)).
  pose proof (discovered_item_insert_walk_length host (store ctx ++ [r0]) n (ctx_list ctx)) as Hlen.
  pose proof (discovered_item_insert_walk_cases host (store ctx ++ [r0]) n (ctx_list ctx)) as Hcases.
  pose proof (flags_grow_length _ _
                (discovered_item_insert_walk_grow host (store ctx ++ [r0]) n (ctx_list ctx))) as Hsl.
  destruct (discovered_item_insert_walk host (store ctx ++ [r0]) n (ctx_list ctx)) as [st1 l1].
  cbn [fst snd] in *. rewrite length_app in Hsl. simpl in Hsl.
  assert (Hn0 : (store ctx ++ [r0]) !! n = Some r0).
  { unfold n. by rewrite lookup_app_r, Nat.sub_diag by lia. }
  set (st2 := if automaticallyRecordStreams ctx
              then alter (discovered_item_state_set DI_STATE_PCAP_RECORD_START) n st1
              else st1).
  assert (Hnew : ∃ r1, st1 !! n = Some r1 ∧
                       (r1 = r0 ∨ r1 = discovered_item_state_set DI_STATE_DST_DUPLICATE r0)).
  { destruct (Hcases n) as [H|H]; rewrite H, Hn0; eexists; (split; [done|]); [by left|by right]. }
  destruct Hnew as (r1 & Hr1 & Hr1c).
  set (r2 := if automaticallyRecordStreams ctx
             then discovered_item_state_set DI_STATE_PCAP_RECORD_START r1 else r1).
  assert (Hr2 : st2 !! n = Some r2).
  { unfold st2, r2. destruct (automaticallyRecordStreams ctx); [|done].
    by rewrite list_lookup_alter_eq, Hr1. }
  exists (mk_tool_context st2 l1
            (hash_index_set (hashIndex ctx) (_compute_stream_hash host ip udp) n)
            (cacheHit ctx) (to_uint64 (cacheMiss ctx + 1)) (automaticallyRecordStreams ctx)), r2.
  cbn [store ctx_list cacheMiss cacheHit].
  split; [done|]. split.
  { unfold st2. destruct (automaticallyRecordStreams ctx); rewrite ?length_alter; lia. }
  split; [done|].
  assert (Hfields : di_ethhdr r2 = eth ∧ headers r2 = (ip, udp) ∧ iat_lwm_us r2 = 50000000 ∧
                    iat_hwm_us r2 = -1 ∧ iat_cur_us r2 = 0).
  { unfold r2. destruct (automaticallyRecordStreams ctx); by destruct Hr1c as [->| ->]. }
  destruct Hfields as (Hf1 & Hf2 & Hf3 & Hf4 & Hf5). do 5 (split; [done|]).
  split.
  { unfold r2. destruct (automaticallyRecordStreams ctx).
    - by apply state_test_set_same.
    - by destruct Hr1c as [->| ->]. }
  split.
  { intros m Hm. rewrite Z.land_lor_distr_l in Hm. apply Z.lor_eq_0_iff in Hm as [Hd Hs].
    assert (state_test r1 m = false) as Hr1m.
    { destruct Hr1c as [->| ->]; [done|]. by rewrite state_test_set_other. }
    unfold r2. destruct (automaticallyRecordStreams ctx); [|done].
    by rewrite state_test_set_other. }
  split.
  { intros p r Hp. assert (Hpn : (p < n)%nat) by (by apply lookup_lt_Some in Hp).
    assert (Hp0 : (store ctx ++ [r0]) !! p = Some r) by (by apply lookup_app_l_Some).
    assert (Hst2 : st2 !! p = st1 !! p).
    { unfold st2. destruct (automaticallyRecordStreams ctx); [|done].
      apply list_lookup_alter_ne. lia. }
    rewrite Hst2. destruct (Hcases p) as [H|H]; rewrite H, Hp0; eexists; (split; [done|]);
      [by left|by right]. }
  split; [done|]. done.
Qed.

(** X25 on the empty registry, with automatic recording. *)
Lemma X25_findcreate_miss_witness :
  ∃ ctx' r',
    discovered_item_findcreate LittleEndian true (empty_context true)
      (mk_ether_header 0 0 0) (mk_iphdr 1 2) (mk_udphdr 3 4) = (ctx', Some 0%nat) ∧
    store ctx' !! 0%nat = Some r' ∧ state r' = DI_STATE_PCAP_RECORD_START ∧
    ctx_list ctx' = [0%nat] ∧ cacheMiss ctx' = 1.
Proof.
  destruct (X25_findcreate_miss_creates_one_record LittleEndian (empty_context true)
              (mk_ether_header 0 0 0) (mk_iphdr 1 2) (mk_udphdr 3 4))
    as (ctx' & r' & Hrun & _ & Hr' & _); [reflexivity|].
  exists ctx', r'. split; [exact Hrun|].
  vm_compute in Hrun. injection Hrun as <-.
  vm_compute in Hr'. injection Hr' as <-.
  repeat split.
Defined.

(** One call with memory at hand: a hit, or one record more. *)
Lemma findcreate_step host ctx eth ip udp :
  ∃ ctx1 a,
    discovered_item_findcreate host true ctx eth ip udp = (ctx1, Some a) ∧
    ((store ctx1 = store ctx ∧ ctx_list ctx1 = ctx_list ctx ∧
      cacheHit ctx1 = to_uint64 (cacheHit ctx + 1) ∧ cacheMiss ctx1 = cacheMiss ctx) ∨
     (length (store ctx1) = S (length (store ctx)) ∧
      length (ctx_list ctx1) = S (length (ctx_list ctx)) ∧
      cacheHit ctx1 = cacheHit ctx ∧ cacheMiss ctx1 = to_uint64 (cacheMiss ctx + 1))).
Proof.
  unfold discovered_item_findcreate.
  destruct (findcreate_lookup host ctx ip udp) as [found|].
  { eexists _, _. split; [done|]. left. done. }
  unfold discovered_item_alloc, discovered_item_insert.
  set (r0 := mk_discovered_item eth ip udp 50000000 (-1) 0 0).
  set (n := length (store ctx)).
  pose proof (discovered_item_insert_walk_length host (store ctx ++ [r0]) n (ctx_list ctx)) as Hlen.
  pose proof (flags_grow_length _ _
                (discovered_item_insert_walk_grow host (store ctx ++ [r0]) n (ctx_list ctx))) as Hsl.
  destruct (discovered_item_insert_walk host (store ctx ++ [r0]) n (ctx_list ctx)) as [st1 l1].
  cbn [fst snd] in *. rewrite length_app in Hsl. simpl in Hsl.
  eexists _, _. split; [done|]. right. cbn [store ctx_list cacheMiss cacheHit].
  split; [|done].
  destruct (automaticallyRecordStreams ctx); rewrite ?length_alter; lia.
Qed.

(** X26.  Every call of [discovered_item_findcreate] counts once.  Over a
    run of calls with memory at hand, from any registry, each call returns a
    record, the number of records the run created is the growth of the store
    and of the list, [cacheMiss] has advanced by that number and [cacheHit]
    by the number of the other calls (both modulo 2^64). *)
Theorem X26_findcreate_counts_each_call_once host ps ctx :
  ∃ ctx' rs created,
    findcreate_all host ctx ps = (ctx', rs) ∧
    length rs = length ps ∧ (∀ r, r ∈ rs → is_Some r) ∧
    (created ≤ length ps)%nat ∧
    length (store ctx') = (length (store ctx) + created)%nat ∧
    length (ctx_list ctx') = (length (ctx_list ctx) + created)%nat ∧
    to_uint64 (cacheMiss ctx') = to_uint64 (cacheMiss ctx + Z.of_nat created) ∧
    to_uint64 (cacheHit ctx') = to_uint64 (cacheHit ctx + Z.of_nat (length ps - created)).
Proof.
  revert ctx. induction ps as [|[[eth ip] udp] ps IH]; intros ctx.
  { exists ctx, [], 0%nat. simpl. rewrite !Nat.add_0_r, !Z.add_0_r.
    repeat split; try done. by intros r ?%elem_of_nil. }
  destruct (findcreate_step host ctx eth ip udp) as (ctx1 & a & Hstep & Hcase).
  destruct (IH ctx1) as (ctx' & rs & c & Hrun & Hlen & Hsome & Hc & Hst & Hl & Hmiss & Hhit).
  assert (Hall : findcreate_all host ctx ((eth, ip, udp) :: ps) = (ctx', Some a :: rs)).
  { simpl. by rewrite Hstep, Hrun. }
  assert (Hsome' : ∀ r, r ∈ Some a :: rs → is_Some r).
  { intros r [->|Hr]%elem_of_cons; [done|by apply Hsome]. }
  destruct Hcase as [(Hs1 & Hl1 & Hh1 & Hm1)|(Hs1 & Hl1 & Hh1 & Hm1)].
  - exists ctx', (Some a :: rs), c. rewrite Hs1 in Hst. rewrite Hl1 in Hl. rewrite Hm1 in Hmiss.
    split; [done|]. split; [simpl; lia|]. split; [done|]. split; [simpl; lia|].
    split; [done|]. split; [done|]. split; [done|].
    rewrite Hhit, Hh1, to_uint64_add_l. f_equal. simpl length. lia.
  - exists ctx', (Some a :: rs), (S c). rewrite Hh1 in Hhit.
    split; [done|]. split; [simpl; lia|]. split; [done|]. split; [simpl; lia|].
    split; [lia|]. split; [lia|]. split.
    + rewrite Hmiss, Hm1, to_uint64_add_l. f_equal. lia.
    + rewrite Hhit. done.
Qed.

(** *** Keys and hashes *)

Lemma bswap32_range x : 0 ≤ bswap32 x < 2 ^ 32.
Proof.
  unfold bswap32.
  pose proof (Z.mod_pos_bound x 256 ltac:(lia)).
  pose proof (Z.mod_pos_bound (x / 2 ^ 8) 256 ltac:(lia)).
  pose proof (Z.mod_pos_bound (x / 2 ^ 16) 256 ltac:(lia)).
  pose proof (Z.mod_pos_bound (x / 2 ^ 24) 256 ltac:(lia)).
  lia.
Qed.

Lemma ntohl_range host x : 0 ≤ ntohl host x < 2 ^ 32.
Proof.
  destruct host; simpl; [apply bswap32_range|].
  unfold to_uint32. apply Z.mod_pos_bound. lia.
Qed.

Lemma lor_shift_add a p k : 0 ≤ k → 0 ≤ p < 2 ^ k → Z.lor (a * 2 ^ k) p = a * 2 ^ k + p.
Proof.
  intros Hk Hp.
  assert (Hd : Z.land (a * 2 ^ k) p = 0).
  { assert (Hp' : p = Z.land (Z.ones k) p).
    { rewrite Z.land_comm, Z.land_ones by lia. symmetry. by apply Z.mod_small. }
    rewrite Hp', Z.land_assoc, Z.land_ones by lia.
    by rewrite Z.mod_mul, Z.land_0_l by lia. }
  by rewrite <- Z.lxor_lor, <- Z.add_nocarry_lxor.
Qed.

Lemma sort_key_closed host r :
  0 ≤ uh_dport (di_udphdr r) < 2 ^ 16 →
  sort_key host r = ntohl host (daddr (di_iphdr r)) * 2 ^ 16 + uh_dport (di_udphdr r).
Proof.
  intros Hp. unfold sort_key. pose proof (ntohl_range host (daddr (di_iphdr r))) as Ha.
  rewrite Z.shiftl_mul_pow2 by lia. unfold to_uint64.
  rewrite Z.mod_small by lia. by apply lor_shift_add.
Qed.

(** X27.  The key [discovered_item_insert] compares is the destination
    address in host byte order, times 2^16, plus the destination port as it
    lies in the header (network byte order).  So a record with a smaller
    destination address always comes first, whatever the ports are, and two
    records have the same key exactly when they have the same destination
    address and port. *)
Theorem X27_sort_key_is_address_then_raw_port host r1 r2 :
  0 ≤ uh_dport (di_udphdr r1) < 2 ^ 16 → 0 ≤ uh_dport (di_udphdr r2) < 2 ^ 16 →
  sort_key host r1 = ntohl host (daddr (di_iphdr r1)) * 2 ^ 16 + uh_dport (di_udphdr r1) ∧
  (ntohl host (daddr (di_iphdr r1)) < ntohl host (daddr (di_iphdr r2)) →
   sort_key host r1 < sort_key host r2) ∧
  (0 ≤ daddr (di_iphdr r1) < 2 ^ 32 → 0 ≤ daddr (di_iphdr r2) < 2 ^ 32 →
   (sort_key host r1 = sort_key host r2 ↔
    daddr (di_iphdr r1) = daddr (di_iphdr r2) ∧ uh_dport (di_udphdr r1) = uh_dport (di_udphdr r2))).
Proof.
  intros Hp1 Hp2. rewrite !sort_key_closed by done.
  pose proof (ntohl_range host (daddr (di_iphdr r1))) as Ha1.
  pose proof (ntohl_range host (daddr (di_iphdr r2))) as Ha2.
  split; [done|]. split; [lia|]. intros Hd1 Hd2. split.
  - intros Heq.
    assert (Ha : ntohl host (daddr (di_iphdr r1)) = ntohl host (daddr (di_iphdr r2))) by lia.
    split; [|lia].
    rewrite <- (ntohl_htonl host (daddr (di_iphdr r1))), <- (ntohl_htonl host (daddr (di_iphdr r2)))
      by done.
    unfold htonl. by rewrite Ha.
  - by intros [-> ->].
Qed.

(** X27 on two records for 10.0.0.1 and 10.0.0.2 on a little-endian host. *)
Lemma X27_sort_key_witness :
  sort_key LittleEndian
    (mk_discovered_item (mk_ether_header 0 0 0) (mk_iphdr 0 0x0100000A) (mk_udphdr 0 0xFFFF)
       0 0 0 0)
  < sort_key LittleEndian
      (mk_discovered_item (mk_ether_header 0 0 0) (mk_iphdr 0 0x0200000A) (mk_udphdr 0 0)
         0 0 0 0).
Proof.
  destruct (X27_sort_key_is_address_then_raw_port LittleEndian
              (mk_discovered_item (mk_ether_header 0 0 0) (mk_iphdr 0 0x0100000A)
                 (mk_udphdr 0 0xFFFF) 0 0 0 0)
              (mk_discovered_item (mk_ether_header 0 0 0) (mk_iphdr 0 0x0200000A)
                 (mk_udphdr 0 0) 0 0 0 0)) as (_ & Hlt & _).
  - simpl. lia.
  - simpl. lia.
  - apply Hlt. reflexivity.
Defined.

(** X28.  [_compute_stream_hash] reads the destination in host byte order:
    for a packet to address [A], port [P], with any source, the hash is
    [(A mod 4096) * 16 + P mod 16] on a little-endian and on a big-endian
    host alike. *)
Theorem X28_stream_hash_of_destination host srcA srcP A P :
  0 ≤ A < 2 ^ 32 → 0 ≤ P < 2 ^ 16 →
  let pk := flow_packet host srcA srcP A P in
  _compute_stream_hash host (snd (fst pk)) (snd pk) = (A mod 4096) * 16 + P mod 16.
Proof.
  intros HA HP pk. rewrite <- hash_index_cal_hash_closed.
  by apply (hash_of_flow_packet host srcA srcP A P).
Qed.

(** X28 on a packet to 10.0.0.1:4001. *)
Lemma X28_stream_hash_witness :
  let pk := flow_packet LittleEndian 0xC0A80001 5000 0x0A000001 4001 in
  _compute_stream_hash LittleEndian (snd (fst pk)) (snd pk) = 17.
Proof.
  intros pk.
  apply (X28_stream_hash_of_destination LittleEndian 0xC0A80001 5000 0x0A000001 4001); lia.
Defined.

End RegistryMore.
